(** * PD client / etcdutil: a shallow embedding and its properties

    The development follows these source files of the repository:
    - [pkg/utils/etcdutil/etcdutil.go]   (constants, [LoopWatcher]),
    - [client/tso_client.go]             ([tsoBaseClient], TSO requests),
    - [client/pd_service_discovery.go]   ([pdServiceDiscovery]),
    - [tests/integrations/mcs/tso/proxy_test.go] (the check of a stream).

    Go values are modelled as follows: [int64]/[time.Duration] as [Z]
    (durations in nanoseconds), [uint32]/[uint64] as [Z] with the
    conversion written out, [string] and [[]byte] as [string], [sync.Map]
    as [gmap], an [error] as a value of an inductive type and [nil] as
    [None].  Calls that leave the process (gRPC, etcd, callbacks, the
    clock) are explicit: their results are inputs of the model and what
    the code does to the outside is recorded in a log.  A [panic] is a
    result of its own. *)

From Stdlib Require Import ZArith List Bool Lia.
From Stdlib Require Import Strings.String Strings.Ascii.
From Stdlib Require Import Structures.OrdersEx Sorting.Sorted.
From stdpp Require Import base option list strings gmap.

Open Scope string_scope.
Open Scope list_scope.
Open Scope Z_scope.

(** ** Errors *)

Inductive error : Type :=
  | errTSOLength
  | errUnmatchedClusterID
  | errFailInitClusterID
  | ErrClientUpdateMember (reason : string)
  | ErrClientGetLeader (reason : string)
  | ErrClientGetMember (urls : list string)
  | ErrEtcdWatcherCancel (reason : string)
  | ErrCompacted
  | ErrFutureRev
  | ErrGRPC (reason : string)
  | Errorf (msg : string)
  | ErrNoDispatcher (dcLocation : string)
  | WithStack (e : error).

(** What a Go function with a possible [panic] yields. *)
Inductive result (A : Type) : Type :=
  | Returned (a : A)
  | Panicked (msg : string).
Arguments Returned {A} a.
Arguments Panicked {A} msg.

(** What a loop run with a bound on its iterations yields. *)
Inductive run (A : Type) : Type :=
  | Finished (a : A)
  | OutOfFuel.
Arguments Finished {A} a.
Arguments OutOfFuel {A}.

(** ** time.Duration *)

Module time.
Definition Duration := Z.
Definition Nanosecond : Duration := 1.
Definition Microsecond : Duration := 1000 * Nanosecond.
Definition Millisecond : Duration := 1000 * Microsecond.
Definition Second : Duration := 1000 * Millisecond.
Definition Minute : Duration := 60 * Second.
End time.

(** ** etcd as seen through clientv3 *)

Module clientv3.

(** [mvccpb.KeyValue] *)
Record KeyValue : Type := mkKV {
  Key : string;
  Value : string;
  ModRevision : Z
}.

(** Keys are byte strings compared bytewise. *)
Definition key_ltb (a b : string) : bool :=
  match String_as_OT.compare a b with Lt => true | _ => false end.
Definition key_leb (a b : string) : bool := negb (key_ltb b a).

(** The store at one revision: the key-value pairs in ascending key
    order, and whether requests currently fail. *)
Record Store : Type := mkStore {
  kvs : list KeyValue;
  Revision : Z;
  fault : option error
}.

Definition sorted_kvs (l : list KeyValue) : Prop :=
  StronglySorted (fun a b => key_ltb (Key a) (Key b) = true) l.

(** [clientv3.Op] for a range request: [op_end] empty means the single
    key [op_key]; [op_end] equal to the zero byte means no upper bound. *)
Record Op : Type := mkOp {
  op_key : string;
  op_end : string;
  op_limit : Z;
  op_rev : Z
}.

Definition zeroByte : string := String (ascii_of_N 0) "".

(** [getPrefix]: the smallest key greater than all keys prefixed by
    [key]; the zero byte when there is none. *)
Fixpoint nextPrefix (key : string) : option string :=
  match key with
  | "" => None
  | String c rest =>
      match nextPrefix rest with
      | Some r => Some (String c r)
      | None =>
          if (N_of_ascii c <? 255)%N
          then Some (String (ascii_of_N (N_of_ascii c + 1)) "")
          else None
      end
  end.

Definition getPrefix (key : string) : string :=
  match nextPrefix key with Some e => e | None => zeroByte end.

Inductive SortTarget := SortByKey | SortByVersion | SortByValue.
Inductive SortOrder := SortNone | SortAscend | SortDescend.

Inductive OpOption : Type :=
  | WithPrefix
  | WithRange (endKey : string)
  | WithFromKey
  | WithLimit (n : Z)
  | WithRev (rev : Z)
  | WithSort (target : SortTarget) (order : SortOrder).

(** An option is a function on the [Op] under construction; the key is
    already set when it runs, so [WithPrefix] takes its end from the key
    of this very request. Sorting by key, ascending, is the order the
    store returns anyway; other sort options are not followed here. *)
Definition applyOpt (op : Op) (o : OpOption) : Op :=
  match o with
  | WithPrefix =>
      if String.eqb (op_key op) ""
      then mkOp zeroByte zeroByte (op_limit op) (op_rev op)
      else mkOp (op_key op) (getPrefix (op_key op)) (op_limit op) (op_rev op)
  | WithRange e => mkOp (op_key op) e (op_limit op) (op_rev op)
  | WithFromKey =>
      if String.eqb (op_key op) ""
      then mkOp zeroByte zeroByte (op_limit op) (op_rev op)
      else mkOp (op_key op) zeroByte (op_limit op) (op_rev op)
  | WithLimit n => mkOp (op_key op) (op_end op) n (op_rev op)
  | WithRev r => mkOp (op_key op) (op_end op) (op_limit op) r
  | WithSort _ _ => op
  end.

Definition OpGet (key : string) (opts : list OpOption) : Op :=
  fold_left applyOpt opts (mkOp key "" 0 0).

Definition in_range (op : Op) (k : string) : bool :=
  if String.eqb (op_end op) "" then String.eqb k (op_key op)
  else key_leb (op_key op) k
       && (String.eqb (op_end op) zeroByte || key_ltb k (op_end op)).

(** The pairs of the store in the range of a request, and the number of
    pairs of the store after a key. *)
Definition rangeOf (s : Store) (op : Op) : list KeyValue :=
  List.filter (fun kv => in_range op (Key kv)) (kvs s).
Definition pairsAfter (s : Store) (k : string) : nat :=
  length (List.filter (fun kv => key_ltb k (Key kv)) (kvs s)).

(** [clientv3.GetResponse] *)
Record GetResponse : Type := mkGetResponse {
  HeaderRevision : Z;
  Kvs : list KeyValue;
  More : bool
}.

(** A range request, read at the revision the store is at: the pairs of
    the range in key order, cut at the limit when the limit is positive;
    [More] tells that pairs were cut. *)
Definition Get (s : Store) (op : Op) : GetResponse + error :=
  match fault s with
  | Some e => inr e
  | None =>
      let hits := rangeOf s op in
      if (0 <? op_limit op) && (op_limit op <? Z.of_nat (length hits))
      then inl (mkGetResponse (Revision s)
                  (firstn (Z.to_nat (op_limit op)) hits) true)
      else inl (mkGetResponse (Revision s) hits false)
  end.

Inductive EventType := EventTypePut | EventTypeDelete.

Record Event : Type := mkEvent {
  Type_ : EventType;
  Kv : KeyValue
}.

(** [clientv3.WatchResponse] *)
Record WatchResponse : Type := mkWatchResponse {
  WHeaderRevision : Z;
  Events : list Event;
  CompactRevision : Z;
  Canceled : bool;
  cancelReason : string;
  closeErr : option error
}.

(** [WatchResponse.Err] *)
Definition Err (wr : WatchResponse) : option error :=
  match closeErr wr with
  | Some e => Some e
  | None =>
      if negb (CompactRevision wr =? 0) then Some ErrCompacted
      else if Canceled wr then
        if negb (String.eqb (cancelReason wr) "")
        then Some (ErrGRPC (cancelReason wr))
        else Some ErrFutureRev
      else None
  end.

End clientv3.

(** Go's [int64] arithmetic wraps around. *)
Definition int64 (z : Z) : Z := (z + 2 ^ 63) mod 2 ^ 64 - 2 ^ 63.
(** Conversion to [uint32] keeps the low 32 bits. *)
Definition uint32 (z : Z) : Z := z mod 2 ^ 32.

(** ** pkg/utils/etcdutil *)

Module etcdutil.
Import clientv3.

Definition defaultEtcdClientTimeout : time.Duration := 3 * time.Second.
Definition defaultAutoSyncInterval : time.Duration := 60 * time.Second.
Definition defaultDialKeepAliveTime : time.Duration := 10 * time.Second.
Definition defaultDialKeepAliveTimeout : time.Duration := 3 * time.Second.
Definition DefaultDialTimeout : time.Duration := 30 * time.Second.
Definition DefaultRequestTimeout : time.Duration := 10 * time.Second.
Definition DefaultSlowRequestTime : time.Duration := time.Second.

Definition defaultLoadDataFromEtcdTimeout : time.Duration := 30 * time.Second.
Definition defaultLoadFromEtcdRetryInterval : time.Duration :=
  200 * time.Millisecond.
Definition defaultLoadFromEtcdRetryTimes : Z :=
  Z.quot defaultLoadDataFromEtcdTimeout defaultLoadFromEtcdRetryInterval.
Definition defaultLoadBatchSize : Z := 400.
Definition defaultWatchChangeRetryInterval : time.Duration := 1 * time.Second.
Definition defaultForceLoadMinimalInterval : time.Duration :=
  200 * time.Millisecond.

(** What a watcher does to the outside, in the order it does it. *)
Inductive Call : Type :=
  | CallGet (op : Op)
  | CallPut (kv : KeyValue)
  | CallDelete (kv : KeyValue)
  | CallPostEvent
  | CallWatch (key : string) (rev : Z)
  | CallCancelWatch
  | CallSleep (d : time.Duration)
  | CallIsLoaded (err : option error).

(** [LoopWatcher]. The callbacks own a state of type [U]; each returns
    its error and the new state. [forceLoadCh] is a channel of capacity
    one: the field holds the number of signals waiting in it. Times are
    readings of the monotonic clock, in nanoseconds. *)
Record LoopWatcher (U : Type) : Type := mkLoopWatcher {
  name : string;
  key : string;
  opts : list OpOption;
  forceLoadCh : nat;
  putFn : KeyValue -> U -> option error * U;
  deleteFn : KeyValue -> U -> option error * U;
  postEventFn : U -> option error * U;
  lastTimeForceLoad : Z;
  loadTimeout : time.Duration;
  loadRetryTimes : Z;
  loadBatchSize : Z;
  watchChangeRetryInterval : time.Duration
}.
Arguments mkLoopWatcher {U}.
Arguments name {U}.
Arguments key {U}.
Arguments opts {U}.
Arguments forceLoadCh {U}.
Arguments putFn {U}.
Arguments deleteFn {U}.
Arguments postEventFn {U}.
Arguments lastTimeForceLoad {U}.
Arguments loadTimeout {U}.
Arguments loadRetryTimes {U}.
Arguments loadBatchSize {U}.
Arguments watchChangeRetryInterval {U}.

(** [NewLoopWatcher]; [now] is what [time.Now()] reads. *)
Definition NewLoopWatcher {U} (now : Z) (name key : string)
    (putFn deleteFn : KeyValue -> U -> option error * U)
    (postEventFn : U -> option error * U) (opts : list OpOption)
  : LoopWatcher U :=
  {| name := name;
     key := key;
     opts := opts;
     forceLoadCh := 0%nat;
     putFn := putFn;
     deleteFn := deleteFn;
     postEventFn := postEventFn;
     lastTimeForceLoad := now;
     loadTimeout := defaultLoadDataFromEtcdTimeout;
     loadRetryTimes := defaultLoadFromEtcdRetryTimes;
     loadBatchSize := defaultLoadBatchSize;
     watchChangeRetryInterval := defaultWatchChangeRetryInterval |}.

Definition SetLoadBatchSize {U} (lw : LoopWatcher U) (size : Z) : LoopWatcher U :=
  mkLoopWatcher (name lw) (key lw) (opts lw) (forceLoadCh lw) (putFn lw)
    (deleteFn lw) (postEventFn lw) (lastTimeForceLoad lw) (loadTimeout lw)
    (loadRetryTimes lw) size (watchChangeRetryInterval lw).

Definition SetLoadRetryTimes {U} (lw : LoopWatcher U) (times : Z) : LoopWatcher U :=
  mkLoopWatcher (name lw) (key lw) (opts lw) (forceLoadCh lw) (putFn lw)
    (deleteFn lw) (postEventFn lw) (lastTimeForceLoad lw) (loadTimeout lw)
    times (loadBatchSize lw) (watchChangeRetryInterval lw).

Definition setForceLoad {U} (lw : LoopWatcher U) (last : Z) (ch : nat)
  : LoopWatcher U :=
  mkLoopWatcher (name lw) (key lw) (opts lw) ch (putFn lw)
    (deleteFn lw) (postEventFn lw) last (loadTimeout lw)
    (loadRetryTimes lw) (loadBatchSize lw) (watchChangeRetryInterval lw).

Section Load.
Context {U : Type}.
Variable lw : LoopWatcher U.

(** The limit of every range request of one [load]. *)
Definition loadLimit : Z :=
  let limit := loadBatchSize lw in
  if negb (limit =? 0) then int64 (limit + 1) else limit.

Definition loadOp (startKey : string) : Op :=
  OpGet startKey
    (opts lw ++ [WithSort SortByKey SortAscend; WithLimit loadLimit]).

(** The loop over [resp.Kvs]: when more pairs remain, the last pair is
    not put but gives the next start key. Yields the start key, the
    error of the last [putFn] called, the callbacks' state and the
    calls made. *)
Fixpoint loadBatch (more : bool) (items : list KeyValue)
    (startKey : string) (err : option error) (u : U)
  : string * option error * U * list Call :=
  match items with
  | [] => (startKey, err, u, [])
  | item :: rest =>
      if more && (match rest with [] => true | _ => false end)
      then loadBatch more rest (Key item) err u
      else
        let '(e, u1) := putFn lw item u in
        let '(k, e', u2, calls) := loadBatch more rest startKey e u1 in
        (k, e', u2, CallPut item :: calls)
  end.

(** The [for] loop of [load], against a store that does not change
    while the load runs. [fuel] bounds the number of range requests. *)
Fixpoint loadLoop (fuel : nat) (s : Store) (startKey : string) (u : U)
  : run (Z * option error * U * list Call) :=
  match fuel with
  | O => OutOfFuel
  | S fuel' =>
      match Get s (loadOp startKey) with
      | inr e => Finished (0, Some e, u, [CallGet (loadOp startKey)])
      | inl resp =>
          let '(startKey', err, u1, calls) :=
            loadBatch (More resp) (Kvs resp) startKey None u in
          if negb (More resp) then
            let '(_, u2) := postEventFn lw u1 in
            Finished (int64 (HeaderRevision resp + 1), err, u2,
                      CallGet (loadOp startKey) :: calls ++ [CallPostEvent])
          else
            match loadLoop fuel' s startKey' u1 with
            | Finished (rev, e, u2, calls') =>
                Finished (rev, e, u2,
                          CallGet (loadOp startKey) :: calls ++ calls')
            | OutOfFuel => OutOfFuel
            end
      end
  end.

(** [LoopWatcher.load]. Every request that finds more pairs moves the
    start key forward to a later stored key, so one request per stored
    pair and one more are enough (lemma [load_total]). *)
Definition load (s : Store) (u : U) : run (Z * option error * U * list Call) :=
  loadLoop (S (length (kvs s))) s (key lw) u.

(** The pairs handed to [putFn] by a list of calls. *)
Definition putCalls (calls : list Call) : list KeyValue :=
  flat_map (fun c => match c with CallPut kv => [kv] | _ => [] end) calls.

Definition getCalls (calls : list Call) : list Op :=
  flat_map (fun c => match c with CallGet op => [op] | _ => [] end) calls.

End Load.

(** What the [select] of the watch loop takes next: the context is done,
    a force-load signal arrives (the store is as given at that moment),
    or the watch channel delivers a response. *)
Inductive Select : Type :=
  | CtxDone
  | ForceLoadSignal (s : Store)
  | WatchChan (wresp : WatchResponse).

(** [watch] either returns, or waits in its [select] when the
    environment sends nothing more. *)
Inductive watchResult : Type :=
  | WatchReturned (nextRevision : Z) (err : option error)
  | WatchWaiting (revision : Z).

Section Watch.
Context {U : Type}.
Variable lw : LoopWatcher U.

(** The loop over [wresp.Events]; errors of the callbacks are logged only. *)
Fixpoint handleEvents (events : list Event) (u : U) : U * list Call :=
  match events with
  | [] => (u, [])
  | event :: rest =>
      match Type_ event with
      | EventTypePut =>
          let '(_, u1) := putFn lw (Kv event) u in
          let '(u2, calls) := handleEvents rest u1 in
          (u2, CallPut (Kv event) :: calls)
      | EventTypeDelete =>
          let '(_, u1) := deleteFn lw (Kv event) u in
          let '(u2, calls) := handleEvents rest u1 in
          (u2, CallDelete (Kv event) :: calls)
      end
  end.

(** [LoopWatcher.watch]: each turn of the loop opens a watch channel at
    [revision] and takes the next [select] case from [script]. *)
Fixpoint watch (revision : Z) (script : list Select) (u : U)
  : run (watchResult * U * list Call) :=
  match script with
  | [] => Finished (WatchWaiting revision, u, [CallWatch (key lw) revision])
  | CtxDone :: _ =>
      Finished (WatchReturned revision None, u, [CallWatch (key lw) revision])
  | ForceLoadSignal s :: rest =>
      match load lw s u with
      | OutOfFuel => OutOfFuel
      | Finished (revision', _, u1, calls) =>
          match watch revision' rest u1 with
          | OutOfFuel => OutOfFuel
          | Finished (r, u2, calls') =>
              Finished (r, u2, CallWatch (key lw) revision :: calls
                                 ++ CallCancelWatch :: calls')
          end
      end
  | WatchChan wresp :: rest =>
      if negb (CompactRevision wresp =? 0) then
        match watch (CompactRevision wresp) rest u with
        | OutOfFuel => OutOfFuel
        | Finished (r, u1, calls') =>
            Finished (r, u1, CallWatch (key lw) revision
                               :: CallCancelWatch :: calls')
        end
      else
        match Err wresp with
        | Some e =>
            Finished (WatchReturned revision (Some e), u,
                      [CallWatch (key lw) revision])
        | None =>
            let '(u1, calls) := handleEvents (Events wresp) u in
            let '(_, u2) := postEventFn lw u1 in
            match watch (int64 (WHeaderRevision wresp + 1)) rest u2 with
            | OutOfFuel => OutOfFuel
            | Finished (r, u3, calls') =>
                Finished (r, u3, CallWatch (key lw) revision :: calls
                                   ++ CallPostEvent :: CallCancelWatch :: calls')
            end
        end
  end.

(** [LoopWatcher.initFromEtcd]: one entry of [attempts] per try, giving
    the store the try reads and whether the context is done before the
    retry ticker fires. *)
Fixpoint initLoop (times : nat) (attempts : list (Store * bool))
    (watchStartRevision : Z) (err : option error) (u : U)
  : run (Z * U * list Call) :=
  match times with
  | O => Finished (watchStartRevision, u, [CallIsLoaded err])
  | S times' =>
      match attempts with
      | [] => OutOfFuel
      | (s, ctxDone) :: attempts' =>
          match load lw s u with
          | OutOfFuel => OutOfFuel
          | Finished (rev, None, u1, calls) =>
              Finished (rev, u1, calls ++ [CallIsLoaded None])
          | Finished (rev, Some e, u1, calls) =>
              if ctxDone then
                Finished (rev, u1,
                  calls ++ [CallIsLoaded
                    (Some (Errorf "ctx is done before load data from etcd"))])
              else
                match initLoop times' attempts' rev (Some e) u1 with
                | OutOfFuel => OutOfFuel
                | Finished (r, u2, calls') => Finished (r, u2, calls ++ calls')
                end
          end
      end
  end.

Definition initFromEtcd (attempts : list (Store * bool)) (u : U)
  : run (Z * U * list Call) :=
  initLoop (Z.to_nat (loadRetryTimes lw)) attempts 0 None u.

(** The [for] loop of [StartWatchLoop]: one entry of [rounds] per turn,
    giving whether the context is done at the top of the loop and what
    the [select]s of this turn's [watch] take. [true] is returned when
    the loop exits, [false] when it waits inside [watch]. *)
Fixpoint watchLoop (watchStartRevision : Z) (rounds : list (bool * list Select))
    (u : U) : run (bool * U * list Call) :=
  match rounds with
  | [] => OutOfFuel
  | (ctxDone, script) :: rounds' =>
      if ctxDone then Finished (true, u, [])
      else
        match watch watchStartRevision script u with
        | OutOfFuel => OutOfFuel
        | Finished (WatchWaiting _, u1, calls) => Finished (false, u1, calls)
        | Finished (WatchReturned nextRevision (Some _), u1, calls) =>
            match watchLoop nextRevision rounds' u1 with
            | OutOfFuel => OutOfFuel
            | Finished (b, u2, calls') =>
                Finished (b, u2, calls
                  ++ CallSleep (watchChangeRetryInterval lw) :: calls')
            end
        | Finished (WatchReturned _ None, u1, calls) =>
            match watchLoop watchStartRevision rounds' u1 with
            | OutOfFuel => OutOfFuel
            | Finished (b, u2, calls') => Finished (b, u2, calls ++ calls')
            end
        end
  end.

(** [LoopWatcher.StartWatchLoop] *)
Definition StartWatchLoop (attempts : list (Store * bool))
    (rounds : list (bool * list Select)) (u : U) : run (bool * U * list Call) :=
  match initFromEtcd attempts u with
  | OutOfFuel => OutOfFuel
  | Finished (watchStartRevision, u1, calls) =>
      match watchLoop watchStartRevision rounds u1 with
      | OutOfFuel => OutOfFuel
      | Finished (b, u2, calls') => Finished (b, u2, calls ++ calls')
      end
  end.

End Watch.

(** *** ForceLoad

    The three parts of [ForceLoad], each atomic with respect to the
    others: the check under the read lock, the check and update under
    the write lock, and the send that does not wait. [now] is the clock
    read by [time.Since], [now'] the one read by [time.Now]. *)

Definition tooSoon {U} (lw : LoopWatcher U) (now : Z) : bool :=
  now - lastTimeForceLoad lw <? defaultForceLoadMinimalInterval.

Definition forceLoadAdmit {U} (lw : LoopWatcher U) (now now' : Z)
  : option (LoopWatcher U) :=
  if tooSoon lw now then None
  else Some (setForceLoad lw now' (forceLoadCh lw)).

Definition forceLoadSend {U} (lw : LoopWatcher U) : LoopWatcher U :=
  if (forceLoadCh lw <? 1)%nat
  then setForceLoad lw (lastTimeForceLoad lw) (S (forceLoadCh lw))
  else lw.

(** [LoopWatcher.ForceLoad] run alone; [t1 <= t2 <= t3] are the three
    clock readings it takes. *)
Definition ForceLoad {U} (lw : LoopWatcher U) (t1 t2 t3 : Z) : LoopWatcher U :=
  if tooSoon lw t1 then lw
  else match forceLoadAdmit lw t2 t3 with
       | None => lw
       | Some lw' => forceLoadSend lw'
       end.

(** Calls of [ForceLoad] running at the same time. A call is at its first
    check, at its second check, at its send, or has returned. *)
Inductive forceLoadPC : Type :=
  | AtReadLock
  | AtWriteLock
  | AtSend
  | HasReturned.

(** The watcher, the last clock reading, where each call is, and the
    times stored by the calls admitted so far, latest first. *)
Record forceLoadSys (U : Type) : Type := mkSys {
  watcher : LoopWatcher U;
  clock : Z;
  calls : list forceLoadPC;
  admitted : list Z
}.
Arguments mkSys {U}.
Arguments watcher {U}.
Arguments clock {U}.
Arguments calls {U}.
Arguments admitted {U}.

(** One atomic step of call [i]. The clock never goes back. *)
Inductive forceLoadStep {U} (i : nat) : forceLoadSys U -> forceLoadSys U -> Prop :=
  | step_read_lock (s : forceLoadSys U) (now : Z) :
      calls s !! i = Some AtReadLock ->
      clock s <= now ->
      forceLoadStep i s
        (mkSys (watcher s) now
           (<[i := if tooSoon (watcher s) now then HasReturned else AtWriteLock]>
              (calls s))
           (admitted s))
  | step_write_lock_reject (s : forceLoadSys U) (now now' : Z) :
      calls s !! i = Some AtWriteLock ->
      clock s <= now -> now <= now' ->
      forceLoadAdmit (watcher s) now now' = None ->
      forceLoadStep i s
        (mkSys (watcher s) now (<[i := HasReturned]> (calls s)) (admitted s))
  | step_write_lock_admit (s : forceLoadSys U) (now now' : Z) (lw' : LoopWatcher U) :
      calls s !! i = Some AtWriteLock ->
      clock s <= now -> now <= now' ->
      forceLoadAdmit (watcher s) now now' = Some lw' ->
      forceLoadStep i s
        (mkSys lw' now' (<[i := AtSend]> (calls s)) (now' :: admitted s))
  | step_send (s : forceLoadSys U) :
      calls s !! i = Some AtSend ->
      forceLoadStep i s
        (mkSys (forceLoadSend (watcher s)) (clock s)
           (<[i := HasReturned]> (calls s)) (admitted s)).

(** A step of the whole: a call moves, a new call starts, or the watch
    loop takes the signal out of the channel. *)
Inductive sysStep {U} : forceLoadSys U -> forceLoadSys U -> Prop :=
  | sys_call (i : nat) (s s' : forceLoadSys U) :
      forceLoadStep i s s' -> sysStep s s'
  | sys_spawn (s : forceLoadSys U) :
      sysStep s (mkSys (watcher s) (clock s) (calls s ++ [AtReadLock]) (admitted s))
  | sys_receive (s : forceLoadSys U) :
      sysStep s
        (mkSys (setForceLoad (watcher s) (lastTimeForceLoad (watcher s)) 0)
           (clock s) (calls s) (admitted s)).

Inductive sysSteps {U} : forceLoadSys U -> forceLoadSys U -> Prop :=
  | steps_refl (s : forceLoadSys U) : sysSteps s s
  | steps_snoc (s1 s2 s3 : forceLoadSys U) :
      sysSteps s1 s2 -> sysStep s2 s3 -> sysSteps s1 s3.

(** A watcher just made by [NewLoopWatcher] at time [now], no call yet. *)
Definition sysInit {U} (lw : LoopWatcher U) : forceLoadSys U :=
  mkSys lw (lastTimeForceLoad lw) [] [].

(** Any two admitted times are at least the minimal interval apart. *)
Fixpoint spaced (ts : list Z) : Prop :=
  match ts with
  | [] => True
  | t :: rest =>
      (forall t', In t' rest -> defaultForceLoadMinimalInterval <= t - t')
      /\ spaced rest
  end.

(** What holds of every state of the calls running at the same time:
    the time stored in the watcher is not ahead of the clock, no
    admitted time is after it, and the admitted times are spaced. *)
Definition forceLoadInv {U} (s : forceLoadSys U) : Prop :=
  lastTimeForceLoad (watcher s) <= clock s
  /\ (forall t, In t (admitted s) -> t <= lastTimeForceLoad (watcher s))
  /\ spaced (admitted s).

End etcdutil.

(** ** Messages of the TSO and PD services *)

Module tsopb.

Record RequestHeader : Type := mkRequestHeader {
  ClusterId : Z
}.

Record TsoRequest : Type := mkTsoRequest {
  Header : RequestHeader;
  Count : Z;
  DcLocation : string
}.

Record Timestamp : Type := mkTimestamp {
  Physical : Z;
  Logical : Z;
  SuffixBits : Z
}.

Record TsoResponse : Type := mkTsoResponse {
  RespCount : Z;
  RespTimestamp : option Timestamp
}.

(** The getters of generated code return the zero value on [nil]. *)
Definition GetPhysical (ts : option Timestamp) : Z :=
  match ts with Some t => Physical t | None => 0 end.
Definition GetLogical (ts : option Timestamp) : Z :=
  match ts with Some t => Logical t | None => 0 end.
Definition GetSuffixBits (ts : option Timestamp) : Z :=
  match ts with Some t => SuffixBits t | None => 0 end.

End tsopb.

Module pdpb.

Record ResponseHeader : Type := mkResponseHeader {
  ClusterId : Z;
  Error : option string
}.

Record Member : Type := mkMember {
  Name : string;
  MemberId : Z;
  ClientUrls : list string
}.

Record GetMembersResponse : Type := mkGetMembersResponse {
  Header : option ResponseHeader;
  Members : list Member;
  Leader : option Member;
  TsoAllocatorLeaders : gmap string Member
}.

Definition GetClusterId (h : option ResponseHeader) : Z :=
  match h with Some h => ClusterId h | None => 0 end.
Definition GetError (h : option ResponseHeader) : option string :=
  match h with Some h => Error h | None => None end.
Definition GetClientUrls (m : option Member) : list string :=
  match m with Some m => ClientUrls m | None => [] end.
Definition GetMemberId (m : option Member) : Z :=
  match m with Some m => MemberId m | None => 0 end.

End pdpb.

(** A gRPC connection: where it points to and whether it was closed. *)
Record ClientConn : Type := mkClientConn {
  Target : string;
  closed : bool
}.

Definition globalDCLocation : string := "global".
Definition memberUpdateInterval : time.Duration := time.Minute.

(** ** client/tso_client.go *)

Module tso_client.
Import tsopb.

(** [tsoRequest]; [done] holds what was sent on the channel of that
    name, which has room for one error and is empty in a pooled request. *)
Record tsoRequest : Type := mkTsoReq {
  start : Z;
  dcLocation : string;
  keyspaceID : Z;
  done : list error
}.

(** What the client does to the outside. *)
Inductive Call : Type :=
  | CallDispatch (dcLocation : string) (req : tsoRequest)
  | CallSleep (d : time.Duration)
  | CallSend (req : TsoRequest)
  | CallRecv
  | CallDial (addr : string)
  | CallCloseConn (target : string)
  | CallCallback (id : nat).

Section Async.
(** [dispatchRequest] is a method of [client] (client.go); it is taken
    as given, with a state [D] of its own. *)
Context {D : Type}.
Variable dispatchRequest : string -> tsoRequest -> D -> option error * D.

(** [GetLocalTSWithinKeyspaceAsync]: [pooled] is the request taken from
    [tsoReqPool], [now] the reading of [time.Now()]. The [TSFuture]
    returned is the request itself; [None] would be [nil]. *)
Definition GetLocalTSWithinKeyspaceAsync (pooled : tsoRequest) (now : Z)
    (dcLocation : string) (keyspaceID : Z) (d : D)
  : option tsoRequest * D * list Call :=
  let req := mkTsoReq now dcLocation keyspaceID (done pooled) in
  match dispatchRequest dcLocation req d with
  | (Some _, d1) =>
      match dispatchRequest dcLocation req d1 with
      | (Some err, d2) =>
          (Some (mkTsoReq now dcLocation keyspaceID (done req ++ [err])), d2,
           [CallDispatch dcLocation req; CallSleep (50 * time.Millisecond);
            CallDispatch dcLocation req])
      | (None, d2) =>
          (Some req, d2,
           [CallDispatch dcLocation req; CallSleep (50 * time.Millisecond);
            CallDispatch dcLocation req])
      end
  | (None, d1) => (Some req, d1, [CallDispatch dcLocation req])
  end.

End Async.

(** [tsoBaseClient]. Callbacks are known by a number; running one is
    recorded, what it does lies outside this state. *)
Record tsoBaseClient : Type := mkTsoBaseClient {
  urls : list string;
  primary : option string;
  secondaries : option (list string);
  clusterID : Z;
  clientConns : gmap string ClientConn;
  tsoAllocators : gmap string string;
  primarySwitchedCallbacks : list nat;
  membersChangedCallbacks : list nat
}.

(** What dialing yields: the TLS configuration may be refused, and
    [grpcutil.GetClientConn] may fail for an address. *)
Record Dialer : Type := mkDialer {
  tlsError : option error;
  dialError : string -> option error
}.

Definition getPrimaryAddr (c : tsoBaseClient) : string :=
  match primary c with Some a => a | None => "" end.

Definition setClientConns (c : tsoBaseClient) (m : gmap string ClientConn)
  : tsoBaseClient :=
  mkTsoBaseClient (urls c) (primary c) (secondaries c) (clusterID c) m
    (tsoAllocators c) (primarySwitchedCallbacks c) (membersChangedCallbacks c).

(** [GetOrCreateGRPCConn] *)
Definition GetOrCreateGRPCConn (env : Dialer) (c : tsoBaseClient) (addr : string)
  : tsoBaseClient * (ClientConn + error) :=
  match clientConns c !! addr with
  | Some conn => (c, inl conn)
  | None =>
      match tlsError env with
      | Some err => (c, inr err)
      | None =>
          match dialError env addr with
          | Some err => (c, inr err)
          | None =>
              let cc := mkClientConn addr false in
              match clientConns c !! addr with
              | Some old => (c, inl old)
              | None => (setClientConns c (<[addr := cc]> (clientConns c)), inl cc)
              end
          end
      end
  end.

(** [switchPrimary]; indexing an empty slice panics. *)
Definition switchPrimary (env : Dialer) (c : tsoBaseClient) (addrs : list string)
  : result (tsoBaseClient * option error * list Call) :=
  match addrs with
  | [] => Panicked "index out of range [0] with length 0"
  | addr :: _ =>
      let oldPrimary := getPrimaryAddr c in
      if String.eqb addr oldPrimary then Returned (c, None, [])
      else
        match GetOrCreateGRPCConn env c addr with
        | (c1, inr err) => Returned (c1, Some err, [])
        | (c1, inl _) =>
            Returned
              (mkTsoBaseClient (urls c1) (Some addr) (secondaries c1)
                 (clusterID c1) (clientConns c1)
                 (<[globalDCLocation := addr]> (tsoAllocators c1))
                 (primarySwitchedCallbacks c1) (membersChangedCallbacks c1),
               None,
               map CallCallback (primarySwitchedCallbacks c1))
        end
  end.

(** [newTSOBaseClient]; [None] is the [nil] it returns when the primary
    cannot be reached. The error of [switchPrimary] is dropped. *)
Definition newTSOBaseClient (env : Dialer) (urls : list string)
  : result (option tsoBaseClient) :=
  let bc := mkTsoBaseClient urls None None 0 ∅ ∅ [] [] in
  match switchPrimary env bc urls with
  | Panicked msg => Panicked msg
  | Returned (bc1, _, _) =>
      match GetOrCreateGRPCConn env bc1 (getPrimaryAddr bc1) with
      | (_, inr _) => Returned None
      | (bc2, inl _) => Returned (Some bc2)
      end
  end.

(** [CloseClientConns] closes every connection and keeps the map. *)
Definition CloseClientConns (c : tsoBaseClient) : tsoBaseClient :=
  setClientConns c ((fun cc => mkClientConn (Target cc) true) <$> clientConns c).

Definition AddServiceEndpointSwitchedCallback (c : tsoBaseClient)
    (callbacks : list nat) : tsoBaseClient :=
  mkTsoBaseClient (urls c) (primary c) (secondaries c) (clusterID c)
    (clientConns c) (tsoAllocators c)
    (primarySwitchedCallbacks c ++ callbacks) (membersChangedCallbacks c).

Definition AddServiceEndpointsChangedCallback (c : tsoBaseClient)
    (callbacks : list nat) : tsoBaseClient :=
  mkTsoBaseClient (urls c) (primary c) (secondaries c) (clusterID c)
    (clientConns c) (tsoAllocators c)
    (primarySwitchedCallbacks c) (membersChangedCallbacks c ++ callbacks).

(** [GetTSOAllocatorClientConnByDCLocation] *)
Definition GetTSOAllocatorClientConnByDCLocation (c : tsoBaseClient)
    (dcLocation : string) : result (ClientConn * string) :=
  match tsoAllocators c !! dcLocation with
  | None =>
      Panicked ("the allocator leader in " +:+ dcLocation +:+ " should exist")
  | Some url =>
      match clientConns c !! url with
      | None =>
          Panicked ("the client connection of " +:+ url +:+ " in "
                    +:+ dcLocation +:+ " should exist")
      | Some cc => Returned (cc, url)
      end
  end.

(** The states a [tsoBaseClient] goes through: made by
    [newTSOBaseClient], then changed by its methods. *)
Inductive reachable : tsoBaseClient -> Prop :=
  | reach_new env urls c :
      newTSOBaseClient env urls = Returned (Some c) -> reachable c
  | reach_switch env c addrs c' err calls :
      reachable c ->
      switchPrimary env c addrs = Returned (c', err, calls) -> reachable c'
  | reach_conn env c addr c' r :
      reachable c ->
      GetOrCreateGRPCConn env c addr = (c', r) -> reachable c'
  | reach_close c : reachable c -> reachable (CloseClientConns c)
  | reach_cb1 c cbs :
      reachable c -> reachable (AddServiceEndpointSwitchedCallback c cbs)
  | reach_cb2 c cbs :
      reachable c -> reachable (AddServiceEndpointsChangedCallback c cbs).

Section Stream.
(** A [tsopb.TSO_TsoClient] stream with a state [S] of its own. *)
Context {S : Type}.
Variable Send : TsoRequest -> S -> option error * S.
Variable Recv : S -> (TsoResponse + error) * S.

Definition requestHeader (c : tsoBaseClient) : RequestHeader :=
  mkRequestHeader (clusterID c).

(** [ProcessTSORequests]: yields ((physical, logical, suffixBits), err),
    the stream and the calls made on it. *)
Definition ProcessTSORequests (c : tsoBaseClient) (stream : S)
    (dcLocation : string) (requests : list tsoRequest)
  : (Z * Z * Z * option error) * S * list Call :=
  let count := int64 (Z.of_nat (length requests)) in
  let req := mkTsoRequest (requestHeader c) (uint32 count) dcLocation in
  match Send req stream with
  | (Some err, s1) => ((0, 0, 0, Some (WithStack err)), s1, [CallSend req])
  | (None, s1) =>
      match Recv s1 with
      | (inr err, s2) =>
          ((0, 0, 0, Some (WithStack err)), s2, [CallSend req; CallRecv])
      | (inl resp, s2) =>
          if negb (RespCount resp =? uint32 count)
          then ((0, 0, 0, Some (WithStack errTSOLength)), s2,
                [CallSend req; CallRecv])
          else ((GetPhysical (RespTimestamp resp),
                 GetLogical (RespTimestamp resp),
                 GetSuffixBits (RespTimestamp resp), None), s2,
                [CallSend req; CallRecv])
      end
  end.

End Stream.

(** Every allocator URL has a connection. *)
Definition connsCover (c : tsoBaseClient) : Prop :=
  forall dc url, tsoAllocators c !! dc = Some url ->
                 is_Some (clientConns c !! url).

(** The requests sent on the stream by a list of calls. *)
Definition sentRequests (calls : list Call) : list TsoRequest :=
  flat_map (fun c => match c with CallSend r => [r] | _ => [] end) calls.

End tso_client.

(** ** client/pd_service_discovery.go *)

Module pd_service_discovery.
Import pdpb.

Definition updateMemberTimeout : time.Duration := time.Second.

(** [sort.Strings]: ascending, bytewise. *)
Fixpoint insertString (x : string) (l : list string) : list string :=
  match l with
  | [] => [x]
  | y :: l' => if clientv3.key_leb x y then x :: l else y :: insertString x l'
  end.
Definition sortStrings (l : list string) : list string :=
  fold_right insertString [] l.

(** [pdServiceDiscovery]. [W] is the state of everything outside the
    struct that its callbacks and the network act on. *)
Record pdServiceDiscovery (W : Type) : Type := mkPDServiceDiscovery {
  isInitialized : bool;
  urls : list string;
  leader : option string;
  followers : list string;
  clusterID : Z;
  clientConns : gmap string ClientConn;
  leaderSwitchedCbs : list (W -> W);
  membersChangedCbs : list (W -> W);
  tsoAllocLeadersUpdatedCbs : list (gmap string string -> W -> option error * W);
  enableTSOFollowerProxy : bool
}.
Arguments mkPDServiceDiscovery {W}.
Arguments isInitialized {W}.
Arguments urls {W}.
Arguments leader {W}.
Arguments followers {W}.
Arguments clusterID {W}.
Arguments clientConns {W}.
Arguments leaderSwitchedCbs {W}.
Arguments membersChangedCbs {W}.
Arguments tsoAllocLeadersUpdatedCbs {W}.
Arguments enableTSOFollowerProxy {W}.

Section Discovery.
Context {W : Type}.
(** [grpcutil.GetOrCreateGRPCConn] (client/grpcutil) on the connection
    map, the [GetMembers] call of the PD service on a connection, and
    whether the context of the client is done, are taken as given. *)
Variable grpcGetOrCreateGRPCConn :
  gmap string ClientConn -> string -> W ->
  (ClientConn + error) * gmap string ClientConn * W.
Variable rpcGetMembers : ClientConn -> W -> (GetMembersResponse + error) * W.
Variable ctxDone : W -> bool.

Local Abbreviation PD := (pdServiceDiscovery W).

Definition setConns (c : PD) (m : gmap string ClientConn) : PD :=
  mkPDServiceDiscovery (isInitialized c) (urls c) (leader c) (followers c)
    (clusterID c) m (leaderSwitchedCbs c) (membersChangedCbs c)
    (tsoAllocLeadersUpdatedCbs c) (enableTSOFollowerProxy c).

Definition setURLs (c : PD) (l : list string) : PD :=
  mkPDServiceDiscovery (isInitialized c) l (leader c) (followers c)
    (clusterID c) (clientConns c) (leaderSwitchedCbs c) (membersChangedCbs c)
    (tsoAllocLeadersUpdatedCbs c) (enableTSOFollowerProxy c).

Definition setFollowers (c : PD) (l : list string) : PD :=
  mkPDServiceDiscovery (isInitialized c) (urls c) (leader c) l
    (clusterID c) (clientConns c) (leaderSwitchedCbs c) (membersChangedCbs c)
    (tsoAllocLeadersUpdatedCbs c) (enableTSOFollowerProxy c).

Definition setLeader (c : PD) (a : string) : PD :=
  mkPDServiceDiscovery (isInitialized c) (urls c) (Some a) (followers c)
    (clusterID c) (clientConns c) (leaderSwitchedCbs c) (membersChangedCbs c)
    (tsoAllocLeadersUpdatedCbs c) (enableTSOFollowerProxy c).

Definition setClusterID (c : PD) (id : Z) : PD :=
  mkPDServiceDiscovery (isInitialized c) (urls c) (leader c) (followers c)
    id (clientConns c) (leaderSwitchedCbs c) (membersChangedCbs c)
    (tsoAllocLeadersUpdatedCbs c) (enableTSOFollowerProxy c).

Definition getLeaderAddr (c : PD) : string :=
  match leader c with Some a => a | None => "" end.

(** [GetOrCreateGRPCConn] *)
Definition GetOrCreateGRPCConn (c : PD) (addr : string) (w : W)
  : (ClientConn + error) * PD * W :=
  let '(r, m, w1) := grpcGetOrCreateGRPCConn (clientConns c) addr w in
  (r, setConns c m, w1).

(** [getMembers] *)
Definition getMembers (c : PD) (url : string) (w : W)
  : (GetMembersResponse + error) * PD * W :=
  match GetOrCreateGRPCConn c url w with
  | (inr err, c1, w1) => (inr err, c1, w1)
  | (inl cc, c1, w1) =>
      match rpcGetMembers cc w1 with
      | (inr err, w2) => (inr (WithStack (ErrClientGetMember [url])), c1, w2)
      | (inl members, w2) =>
          match GetError (Header members) with
          | Some _ => (inr (WithStack (ErrClientGetMember [url])), c1, w2)
          | None => (inl members, c1, w2)
          end
      end
  end.

(** The [for] loop of [initClusterID] from a given value of the local
    variable [clusterID]; yields that variable, or the error returned
    from inside the loop. *)
Fixpoint initClusterIDLoop (us : list string) (clusterID : Z) (c : PD) (w : W)
  : (Z + error) * PD * W :=
  match us with
  | [] => (inl clusterID, c, w)
  | u :: rest =>
      match getMembers c u w with
      | (inr _, c1, w1) => initClusterIDLoop rest clusterID c1 w1
      | (inl members, c1, w1) =>
          match Header members with
          | None => initClusterIDLoop rest clusterID c1 w1
          | Some h =>
              if clusterID =? 0
              then initClusterIDLoop rest (ClusterId h) c1 w1
              else if negb (ClusterId h =? clusterID)
              then (inr (WithStack errUnmatchedClusterID), c1, w1)
              else initClusterIDLoop rest clusterID c1 w1
          end
      end
  end.

(** [initClusterID] *)
Definition initClusterID (c : PD) (w : W) : option error * PD * W :=
  match initClusterIDLoop (urls c) 0 c w with
  | (inr err, c1, w1) => (Some err, c1, w1)
  | (inl clusterID, c1, w1) =>
      if clusterID =? 0
      then (Some (WithStack errFailInitClusterID), c1, w1)
      else (None, setClusterID c1 clusterID, w1)
  end.

Definition runCbs (cbs : list (W -> W)) (w : W) : W :=
  fold_left (fun w cb => cb w) cbs w.

Fixpoint runTSOCbs (cbs : list (gmap string string -> W -> option error * W))
    (allocMap : gmap string string) (w : W) : option error * W :=
  match cbs with
  | [] => (None, w)
  | cb :: rest =>
      match cb allocMap w with
      | (Some err, w1) => (Some err, w1)
      | (None, w1) => runTSOCbs rest allocMap w1
      end
  end.

(** [updateURLs] *)
Definition updateURLs (c : PD) (members : list Member) (w : W) : PD * W :=
  let urls' := sortStrings (flat_map ClientUrls members) in
  if decide (urls c = urls') then (c, w)
  else
    (setURLs c urls',
     if enableTSOFollowerProxy c then runCbs (membersChangedCbs c) w else w).

(** [updateFollowers] *)
Definition updateFollowers (c : PD) (members : list Member)
    (leader : option Member) : PD :=
  setFollowers c
    (flat_map (fun m => if negb (MemberId m =? GetMemberId leader)
                        then ClientUrls m else []) members).

(** [switchTSOAllocatorLeaders] *)
Definition switchTSOAllocatorLeaders (c : PD) (allocatorMap : gmap string Member)
    (w : W) : option error * W :=
  if decide (allocatorMap = ∅) then (None, w)
  else
    let allocMap :=
      omap (fun m => match ClientUrls m with [] => None | a :: _ => Some a end)
           allocatorMap in
    runTSOCbs (tsoAllocLeadersUpdatedCbs c) allocMap w.

(** [switchTSOAllocatorLeader] *)
Definition switchTSOAllocatorLeader (c : PD) (dcLocation addr : string) (w : W)
  : option error * W :=
  runTSOCbs (tsoAllocLeadersUpdatedCbs c) {[dcLocation := addr]} w.

(** [switchLeader] *)
Definition switchLeader (c : PD) (addrs : list string) (w : W)
  : result (option error * PD * W) :=
  match addrs with
  | [] => Panicked "index out of range [0] with length 0"
  | addr :: _ =>
      if String.eqb addr (getLeaderAddr c) then Returned (None, c, w)
      else
        match GetOrCreateGRPCConn c addr w with
        | (inr err, c1, w1) => Returned (Some err, c1, w1)
        | (inl _, c1, w1) =>
            let c2 := setLeader c1 addr in
            let '(_, w2) := switchTSOAllocatorLeader c2 globalDCLocation addr w1 in
            Returned (None, c2, runCbs (leaderSwitchedCbs c2) w2)
        end
  end.

Definition errClusterIDMismatch : error :=
  ErrClientUpdateMember "cluster id does not match".

(** The [for] loop of [updateMember] over the URLs not tried yet; [all]
    is the whole list, for the error after the loop. *)
Fixpoint updateMemberLoop (all us : list string) (c : PD) (w : W)
  : result (option error * PD * W) :=
  match us with
  | [] => Returned (Some (ErrClientGetMember all), c, w)
  | u :: rest =>
      let '(r, c1, w1) := getMembers c u w in
      (* the checks of the reply *)
      let checked : GetMembersResponse + error :=
        match r with
        | inr err => inr err
        | inl members =>
            if negb (GetClusterId (Header members) =? clusterID c1)
            then inr errClusterIDMismatch
            else inl members
        end in
      match checked with
      | inr err =>
          if ctxDone w1 then Returned (Some (WithStack err), c1, w1)
          else updateMemberLoop all rest c1 w1
      | inl members =>
          let noLeader :=
            match Leader members with
            | None => true
            | Some l => match ClientUrls l with [] => true | _ => false end
            end in
          let '(errTSO, w2) :=
            switchTSOAllocatorLeaders c1 (TsoAllocatorLeaders members) w1 in
          if noLeader then
            if ctxDone w2
            then Returned
                   (Some (WithStack (ErrClientGetLeader "leader address don't exist")),
                    c1, w2)
            else updateMemberLoop all rest c1 w2
          else
            let '(c2, w3) := updateURLs c1 (Members members) w2 in
            let c3 := updateFollowers c2 (Members members) (Leader members) in
            match switchLeader c3 (GetClientUrls (Leader members)) w3 with
            | Panicked msg => Panicked msg
            | Returned (Some err, c4, w4) => Returned (Some err, c4, w4)
            | Returned (None, c4, w4) => Returned (errTSO, c4, w4)
            end
      end
  end.

(** [updateMember] *)
Definition updateMember (c : PD) (w : W) : result (option error * PD * W) :=
  updateMemberLoop (urls c) (urls c) c w.

(** The replies [getMembers] gives when every URL of [us] is asked in
    turn. *)
Fixpoint allReplies (us : list string) (c : PD) (w : W)
  : list (GetMembersResponse + error) :=
  match us with
  | [] => []
  | u :: rest =>
      let '(r, c1, w1) := getMembers c u w in r :: allReplies rest c1 w1
  end.

End Discovery.

(** The cluster ids of the replies that succeeded with a header. *)
Definition headerIDs (replies : list (GetMembersResponse + error)) : list Z :=
  flat_map (fun r => match r with
                     | inl m => match Header m with
                                | Some h => [ClusterId h]
                                | None => []
                                end
                     | inr _ => []
                     end) replies.

(** The ids left after the leading zeros; zero is the value of the
    local variable [clusterID] before it is set. *)
Fixpoint skipZeros (ids : list Z) : list Z :=
  match ids with
  | 0 :: rest => skipZeros rest
  | _ => ids
  end.

End pd_service_discovery.

(** ** tests/integrations/mcs/tso/proxy_test.go *)

Module proxy_test.

Section Verify.
(** [tsoutil.AddLogical] and [tsoutil.TSLessEqual] (client/tsoutil) are
    taken as given. *)
Variable AddLogical : Z -> Z -> Z -> Z.
Variable TSLessEqual : Z -> Z -> Z -> Z -> bool.

(** The two assertions [verifyTSOProxy] makes on the response to a
    request of [reqCount] timestamps. *)
Definition checkResponse (reqCount : Z) (resp : tsopb.TsoResponse)
    (lastPhysical lastLogical : Z) : bool :=
  let ts := tsopb.RespTimestamp resp in
  let count := tsopb.RespCount resp in
  let firstLogical :=
    AddLogical (tsopb.GetLogical ts) (int64 (- count + 1)) (tsopb.GetSuffixBits ts) in
  (reqCount =? tsopb.RespCount resp)
  && negb (TSLessEqual (tsopb.GetPhysical ts) firstLogical lastPhysical lastLogical).

(** The loop of one stream in [verifyTSOProxy] when every send and
    receive succeeds: [lastPhysical] and [lastLogical] are set before the
    loop and not assigned in it. *)
Fixpoint verifyLoop (exchanges : list (Z * tsopb.TsoResponse))
    (lastPhysical lastLogical : Z) : bool :=
  match exchanges with
  | [] => true
  | (reqCount, resp) :: rest =>
      checkResponse reqCount resp lastPhysical lastLogical
      && verifyLoop rest lastPhysical lastLogical
  end.

Definition verifyStream (exchanges : list (Z * tsopb.TsoResponse)) : bool :=
  verifyLoop exchanges 0 0.

End Verify.

End proxy_test.

(** * Concrete inputs

    The clients, streams, stores and watchers the properties below are
    evaluated on. *)

Module Examples.
Import tsopb tso_client.

(** A stream that accepts every request and answers with the number of
    requests it has seen plus one as count. *)
Definition sendOk (r : TsoRequest) (s : list TsoRequest)
  : option error * list TsoRequest := (None, s ++ [r]).
Definition recvEcho (s : list TsoRequest)
  : (TsoResponse + error) * list TsoRequest :=
  (inl (mkTsoResponse (Z.of_nat (length s) + 1) (Some (mkTimestamp 7 3 0))), s).

(** A network on which every dial succeeds, and the client made for the
    single URL [pd0]. *)
Definition dialOk : Dialer := mkDialer None (fun _ => None).
Definition clientPd0 : tsoBaseClient :=
  mkTsoBaseClient ["pd0"] (Some "pd0") None 0
    {["pd0" := mkClientConn "pd0" false]} {[globalDCLocation := "pd0"]} [] [].

End Examples.

Module WatcherExamples.
Import clientv3 etcdutil.

(** Callbacks that remember the keys they are given. *)
Definition remember (kv : KeyValue) (u : list string)
  : option error * list string := (None, u ++ [Key kv]).
Definition forget (kv : KeyValue) (u : list string)
  : option error * list string := (None, u).
Definition posted (u : list string) : option error * list string := (None, u).

(** Three keys under the prefix [k], at revision 7. *)
Definition store3 : Store :=
  mkStore [mkKV "k0" "a" 1; mkKV "k1" "b" 2; mkKV "k2" "c" 3] 7 None.

(** Watchers of the prefix [k] and of the range from [k] to [l], made at
    time 0, loading one pair per batch. *)
Definition prefixWatcher : LoopWatcher (list string) :=
  SetLoadBatchSize
    (NewLoopWatcher 0 "w" "k" remember forget posted [WithPrefix]) 1.
Definition rangeWatcher : LoopWatcher (list string) :=
  SetLoadBatchSize
    (NewLoopWatcher 0 "w" "k" remember forget posted [WithRange "l"]) 1.

(** Watch responses: one that tells of a compaction up to revision 40,
    one that tells that the watch was canceled. *)
Definition compacted : WatchResponse :=
  mkWatchResponse 0 [] 40 true "" None.
Definition canceled : WatchResponse :=
  mkWatchResponse 0 [] 0 true "watcher lost" None.

End WatcherExamples.

Module DiscoveryExamples.
Import pdpb pd_service_discovery.

(** A network where every address can be dialed. *)
Definition connect (m : gmap string ClientConn) (addr : string) (w : unit)
  : (ClientConn + error) * gmap string ClientConn * unit :=
  (inl (mkClientConn addr false), <[addr := mkClientConn addr false]> m, w).

(** A reply of a cluster [id] whose leader is reached at [pd1]. *)
Definition replyOf (id : Z) : GetMembersResponse :=
  mkGetMembersResponse (Some (mkResponseHeader id None))
    [mkMember "pd-1" 1 ["pd1"]] (Some (mkMember "pd-1" 1 ["pd1"])) ∅.

(** [pd0] answers for cluster [id0], every other address for cluster 5. *)
Definition membersFrom (id0 : Z) (cc : ClientConn) (w : unit)
  : (GetMembersResponse + error) * unit :=
  (inl (if String.eqb (Target cc) "pd0" then replyOf id0 else replyOf 5), w).

Definition neverDone (w : unit) : bool := false.

(** A client that knows the URLs [pd0] and [pd1] and cluster [id]. *)
Definition pdClient (id : Z) : pdServiceDiscovery unit :=
  mkPDServiceDiscovery false ["pd0"; "pd1"] None [] id ∅ [] [] [] false.

End DiscoveryExamples.


(** * More of the loop watcher: what its logs are read for *)

Module watcher_calls.
Import clientv3 etcdutil.

(** The call a watch event leads to. *)
Definition eventCall (event : Event) : Call :=
  match Type_ event with
  | EventTypePut => CallPut (Kv event)
  | EventTypeDelete => CallDelete (Kv event)
  end.

(** The calls of [putFn] and [deleteFn] in a log, the number of calls of
    [postEventFn], and the errors sent on [isLoadedCh]. *)
Definition callbackCalls (calls : list Call) : list Call :=
  List.filter (fun c => match c with
                        | CallPut _ | CallDelete _ => true
                        | _ => false
                        end) calls.
Definition postEventCalls (calls : list Call) : nat :=
  length (List.filter (fun c => match c with CallPostEvent => true | _ => false end)
            calls).
Definition isLoadedCalls (calls : list Call) : list (option error) :=
  flat_map (fun c => match c with CallIsLoaded e => [e] | _ => [] end) calls.

(** A watch response that is neither a compaction nor an error. *)
Definition ordinary (wresp : WatchResponse) : Prop :=
  CompactRevision wresp = 0 /\ Err wresp = None.

(** The revision [watch] is at after a run of ordinary responses. *)
Definition revisionAfter (revision : Z) (resps : list WatchResponse) : Z :=
  fold_left (fun _ wresp => int64 (WHeaderRevision wresp + 1)) resps revision.

(** The last pair of a list. *)
Fixpoint lastPair (l : list KeyValue) : option KeyValue :=
  match l with
  | [] => None
  | [kv] => Some kv
  | _ :: rest => lastPair rest
  end.

End watcher_calls.

Module WatcherExamples2.
Import clientv3 etcdutil WatcherExamples.

(** The watcher of the prefix [k] with no batching, and the watcher of
    the range from [k] to [l] whose [putFn] refuses the key [k1]. *)
Definition unbatchedWatcher : LoopWatcher (list string) :=
  SetLoadBatchSize prefixWatcher 0.
Definition refusal (kv : KeyValue) : option error :=
  if String.eqb (Key kv) "k1" then Some (Errorf "refused") else None.
Definition picky (kv : KeyValue) (u : list string)
  : option error * list string := (refusal kv, u ++ [Key kv]).
Definition pickyWatcher : LoopWatcher (list string) :=
  SetLoadBatchSize
    (NewLoopWatcher 0 "w" "k" picky forget posted [WithRange "l"]) 1.

Definition putK3 : WatchResponse :=
  mkWatchResponse 8 [mkEvent EventTypePut (mkKV "k3" "d" 8)] 0 false "" None.
Definition delK0 : WatchResponse :=
  mkWatchResponse 9 [mkEvent EventTypeDelete (mkKV "k0" "" 9)] 0 false "" None.

End WatcherExamples2.

(** * More of client/tso_client.go: the endpoints of the client *)

Module tso_endpoints.
Import tso_client.

(** [GetTSOAllocatorServingAddrByDCLocation] *)
Definition GetTSOAllocatorServingAddrByDCLocation (c : tsoBaseClient)
    (dcLocation : string) : string * bool :=
  match tsoAllocators c !! dcLocation with
  | None => ("", false)
  | Some url => (url, true)
  end.

(** [GetServingEndpointClientConn]; [None] is [nil]. *)
Definition GetServingEndpointClientConn (c : tsoBaseClient) : option ClientConn :=
  clientConns c !! getPrimaryAddr c.

(** [GetServingEndpointAddr] *)
Definition GetServingEndpointAddr (c : tsoBaseClient) : string :=
  getPrimaryAddr c.

(** [getSecondaryAddrs] and [GetBackupEndpointsAddrs] *)
Definition getSecondaryAddrs (c : tsoBaseClient) : list string :=
  match secondaries c with
  | None => []
  | Some addrs => addrs
  end.
Definition GetBackupEndpointsAddrs (c : tsoBaseClient) : list string :=
  getSecondaryAddrs c.

(** [GetTSOAllocatorServingEndpointURLs] copies the map entry by entry. *)
Definition GetTSOAllocatorServingEndpointURLs (c : tsoBaseClient)
  : gmap string string :=
  map_fold (fun dcLocation url m => <[dcLocation := url]> m) ∅ (tsoAllocators c).

(** The global allocator is the primary, and the primary has a
    connection. *)
Definition primaryServes (c : tsoBaseClient) : Prop :=
  tsoAllocators c
  = match primary c with
    | Some p => {[globalDCLocation := p]}
    | None => ∅
    end
  /\ forall p, primary c = Some p -> is_Some (clientConns c !! p).

End tso_endpoints.

Module EndpointExamples.
Import tso_client.

(** A network on which only the empty address can be dialed. *)
Definition dialOnlyEmpty : Dialer :=
  mkDialer None (fun addr => if String.eqb addr "" then None
                             else Some (ErrGRPC "connection refused")).

(** A stream on which nothing can be sent. *)
Definition sendFails (r : tsopb.TsoRequest) (s : list tsopb.TsoRequest)
  : option error * list tsopb.TsoRequest := (Some (ErrGRPC "stream closed"), s).

End EndpointExamples.

(** * More of pkg/utils/etcdutil: keys, values and the cluster id *)

Module etcd_kv.
Import clientv3.

(** The errors of package [errs] these functions make, and the error
    [CheckClusterID] formats from the two cluster ids. *)
Inductive kvError : Type :=
  | ErrEtcdKVGet (cause : error)
  | ErrEtcdKVGetResponse (kvs : list KeyValue)
  | ErrEtcdTxnInternal (cause : error)
  | ErrEtcdTxnConflict
  | ErrBytesToUint64 (len : nat)
  | ErrClusterIDMismatch (expect got : Z).

(** Conversion to [uint64] keeps the low 64 bits. *)
Definition uint64 (z : Z) : Z := z mod 2 ^ 64.

(** What a put does to the store: the pair replaces the one of the same
    key or takes its place in key order, at a new revision. *)
Fixpoint insertKV (kv : KeyValue) (l : list KeyValue) : list KeyValue :=
  match l with
  | [] => [kv]
  | x :: rest =>
      if String.eqb (Key x) (Key kv) then kv :: rest
      else if key_ltb (Key kv) (Key x) then kv :: x :: rest
      else x :: insertKV kv rest
  end.

Definition storePut (s : Store) (key value : string) : Store :=
  mkStore (insertKV (mkKV key value (Revision s + 1)) (kvs s))
    (Revision s + 1) (fault s).

(** The pair stored under a key. *)
Definition lookupKey (s : Store) (key : string) : option KeyValue :=
  List.find (fun kv => String.eqb (Key kv) key) (kvs s).

(** [EtcdKVGet] *)
Definition EtcdKVGet (s : Store) (key : string) (opts : list OpOption)
  : GetResponse + kvError :=
  match Get s (OpGet key opts) with
  | inr err => inr (ErrEtcdKVGet err)
  | inl resp => inl resp
  end.

(** [get]; [inl None] is the pair of nils. *)
Definition get (s : Store) (key : string) (opts : list OpOption)
  : option GetResponse + kvError :=
  match EtcdKVGet s key opts with
  | inr err => inr err
  | inl resp =>
      match Kvs resp with
      | [] => inl None
      | [_] => inl (Some resp)
      | _ => inr (ErrEtcdKVGetResponse (Kvs resp))
      end
  end.

(** [GetValue]; [resp.Kvs[0]] panics on an empty slice. *)
Definition GetValue (s : Store) (key : string) (opts : list OpOption)
  : result (option string + kvError) :=
  match get s key opts with
  | inr err => Returned (inr err)
  | inl None => Returned (inl None)
  | inl (Some resp) =>
      match Kvs resp with
      | [] => Panicked "index out of range [0] with length 0"
      | kv :: _ => Returned (inl (Some (Value kv)))
      end
  end.

(** Modelled from the spec: [typeutil.Uint64ToBytes] and
    [typeutil.BytesToUint64] (pkg/utils/typeutil) are not among the
    sources; the spec gives the cluster id as stored in 8 bytes, big
    endian. *)
Fixpoint bigEndian (n : nat) (v : Z) : string :=
  match n with
  | O => ""
  | S n' => bigEndian n' (v / 256) +:+ String (ascii_of_N (Z.to_N (v mod 256))) ""
  end.
Definition Uint64ToBytes (v : Z) : string := bigEndian 8 v.

Fixpoint fromBigEndian (acc : Z) (b : string) : Z :=
  match b with
  | "" => acc
  | String c rest => fromBigEndian (acc * 256 + Z.of_N (N_of_ascii c)) rest
  end.
Definition BytesToUint64 (b : string) : Z + kvError :=
  if (String.length b =? 8)%nat then inl (fromBigEndian 0 b)
  else inr (ErrBytesToUint64 (String.length b)).

(** The cluster id [InitOrGetClusterID] makes from the seconds of the
    clock and a random [uint32]. *)
Definition newClusterID (unixSeconds rnd : Z) : Z :=
  uint64 (uint64 (Z.shiftl (uint64 unixSeconds) 32) + uint64 (uint32 rnd)).

(** [clientv3.TxnResponse]; a response that is not one of a range
    request is [None]. *)
Record TxnResponse : Type := mkTxnResponse {
  Succeeded : bool;
  Responses : list (option GetResponse)
}.

(** The transaction of [InitOrGetClusterID]: if the key was never
    created, put the value, else get the key. *)
Definition txnCreateOrGet (s : Store) (key value : string)
  : (TxnResponse + error) * Store :=
  match fault s with
  | Some err => (inr err, s)
  | None =>
      if existsb (fun kv => String.eqb (Key kv) key) (kvs s) then
        match Get s (OpGet key []) with
        | inl resp => (inl (mkTxnResponse false [Some resp]), s)
        | inr err => (inr err, s)
        end
      else (inl (mkTxnResponse true [None]), storePut s key value)
  end.

(** [InitOrGetClusterID]; yields the id or the error, and the store. *)
Definition InitOrGetClusterID (s : Store) (key : string) (unixSeconds rnd : Z)
  : (Z + kvError) * Store :=
  let clusterID := newClusterID unixSeconds rnd in
  let value := Uint64ToBytes clusterID in
  match txnCreateOrGet s key value with
  | (inr err, s1) => (inr (ErrEtcdTxnInternal err), s1)
  | (inl resp, s1) =>
      if Succeeded resp then (inl clusterID, s1)
      else
        match Responses resp with
        | [] => (inr ErrEtcdTxnConflict, s1)
        | None :: _ => (inr ErrEtcdTxnConflict, s1)
        | Some response :: _ =>
            match Kvs response with
            | [kv] => (BytesToUint64 (Value kv), s1)
            | _ => (inr ErrEtcdTxnConflict, s1)
            end
        end
  end.

(** [InitClusterID]; [between] is what others do to the store after the
    read and before the transaction. *)
Definition InitClusterID (s : Store) (between : Store -> Store) (key : string)
    (unixSeconds rnd : Z) : (Z + kvError) * Store :=
  match EtcdKVGet s key [] with
  | inr err => (inr err, s)
  | inl resp =>
      match Kvs resp with
      | [] => InitOrGetClusterID (between s) key unixSeconds rnd
      | kv :: _ => (BytesToUint64 (Value kv), s)
      end
  end.

(** [GetClusterID] *)
Definition GetClusterID (s : Store) (key : string) : Z + kvError :=
  match EtcdKVGet s key [] with
  | inr err => inr err
  | inl resp =>
      match Kvs resp with
      | [] => inl 0
      | kv :: _ => BytesToUint64 (Value kv)
      end
  end.

Section CheckClusterID.
(** [etcdserver.GetClusterFromRemotePeers] asked for one peer URL, as
    given: the id of the remote cluster or an error. *)
Context {W : Type}.
Variable GetClusterFromRemotePeers : string -> W -> (Z + error) * W.

(** The second loop of [CheckClusterID]. *)
Fixpoint checkPeers (localClusterID : Z) (peerURLs : list string) (w : W)
  : option kvError * W :=
  match peerURLs with
  | [] => (None, w)
  | u :: rest =>
      match GetClusterFromRemotePeers u w with
      | (inr _, w1) => checkPeers localClusterID rest w1
      | (inl remoteClusterID, w1) =>
          if negb (remoteClusterID =? localClusterID)
          then (Some (ErrClusterIDMismatch localClusterID remoteClusterID), w1)
          else checkPeers localClusterID rest w1
      end
  end.

(** [CheckClusterID]; [um] lists the entries of the URL map in the order
    the map is ranged over. *)
Definition CheckClusterID (localClusterID : Z) (um : list (string * list string))
    (w : W) : option kvError * W :=
  match um with
  | [] => (None, w)
  | _ => checkPeers localClusterID (flat_map snd um) w
  end.

(** What the peers answer when each is asked in turn. *)
Fixpoint peerAnswers (peerURLs : list string) (w : W) : list (Z + error) :=
  match peerURLs with
  | [] => []
  | u :: rest =>
      let '(a, w1) := GetClusterFromRemotePeers u w in a :: peerAnswers rest w1
  end.

End CheckClusterID.

(** The first answer that is a cluster id other than the local one. *)
Fixpoint firstMismatch (localClusterID : Z) (answers : list (Z + error))
  : option Z :=
  match answers with
  | [] => None
  | inl id :: rest =>
      if id =? localClusterID then firstMismatch localClusterID rest else Some id
  | inr _ :: rest => firstMismatch localClusterID rest
  end.

End etcd_kv.

Module KVExamples.
Import clientv3 etcd_kv.

(** An empty store at revision 1, and peers of which the first does not
    answer and the second belongs to cluster 9. *)
Definition emptyStore : Store := mkStore [] 1 None.
Definition peers (u : string) (w : unit) : (Z + error) * unit :=
  (if String.eqb u "peer0" then inr (ErrGRPC "not ready") else inl 9, w).

End KVExamples.

Module pd_service_init.
Import pdpb pd_service_discovery.

(** What [Init] does to the context and the goroutines of the client. *)
Inductive InitEffect : Type :=
  | Cancel
  | GoMemberLoop.

(** The fields of the client that are set when it is built or
    registered with, and the cluster id. *)
Definition sameSetup {W : Type} (c c' : pdServiceDiscovery W) : Prop :=
  isInitialized c' = isInitialized c
  /\ clusterID c' = clusterID c
  /\ leaderSwitchedCbs c' = leaderSwitchedCbs c
  /\ membersChangedCbs c' = membersChangedCbs c
  /\ tsoAllocLeadersUpdatedCbs c' = tsoAllocLeadersUpdatedCbs c
  /\ enableTSOFollowerProxy c' = enableTSOFollowerProxy c.

(** The leader the client knows has a connection in its map. *)
Definition leaderConnected {W : Type} (c : pdServiceDiscovery W) : Prop :=
  forall a, leader c = Some a -> is_Some (clientConns c !! a).

(** The followers [updateFollowers] stores. *)
Definition followersOf (members : list Member) (leader : option Member)
  : list string :=
  flat_map (fun m => if negb (MemberId m =? GetMemberId leader)
                     then ClientUrls m else []) members.

Section Init.
Context {W : Type}.
(** As in [pd_service_discovery]; and the [select] of [initRetry]
    between the end of the context and a timer: whether the context was
    done first, and the world after the wait. *)
Variable grpcGetOrCreateGRPCConn :
  gmap string ClientConn -> string -> W ->
  (ClientConn + error) * gmap string ClientConn * W.
Variable rpcGetMembers : ClientConn -> W -> (GetMembersResponse + error) * W.
Variable ctxDone : W -> bool.
Variable waitOrDone : time.Duration -> W -> bool * W.

Local Abbreviation PD := (pdServiceDiscovery W).

Definition setInitialized (c : PD) (b : bool) : PD :=
  mkPDServiceDiscovery b (urls c) (leader c) (followers c)
    (clusterID c) (clientConns c) (leaderSwitchedCbs c) (membersChangedCbs c)
    (tsoAllocLeadersUpdatedCbs c) (enableTSOFollowerProxy c).

(** [GetServingEndpointClientConn]; [None] is nil. *)
Definition GetServingEndpointClientConn (c : PD) : option ClientConn :=
  clientConns c !! getLeaderAddr c.

(** The [for] loop of [initRetry] with [n] turns left; [err] is the
    variable of that name. [errors.WithStack] of nil is nil. *)
Fixpoint initRetryLoop (n : nat) (f : PD -> W -> result (option error * PD * W))
    (err : option error) (c : PD) (w : W) : result (option error * PD * W) :=
  match n with
  | O => Returned (WithStack <$> err, c, w)
  | S n' =>
      match f c w with
      | Panicked msg => Panicked msg
      | Returned (None, c1, w1) => Returned (None, c1, w1)
      | Returned (Some e, c1, w1) =>
          let '(done, w2) := waitOrDone time.Second w1 in
          if done then Returned (Some e, c1, w2)
          else initRetryLoop n' f (Some e) c1 w2
      end
  end.

(** [initRetry]; [maxRetryTimes] is [c.option.maxRetryTimes]. *)
Definition initRetry (maxRetryTimes : Z)
    (f : PD -> W -> result (option error * PD * W)) (c : PD) (w : W)
  : result (option error * PD * W) :=
  initRetryLoop (Z.to_nat maxRetryTimes) f None c w.

(** [Init]; yields the error, the client, the world, and whether the
    context was cancelled or the member loop started. *)
Definition Init (maxRetryTimes : Z) (c : PD) (w : W)
  : result (option error * PD * W * list InitEffect) :=
  if negb (isInitialized c) then
    match initRetry maxRetryTimes
            (fun c w => Returned
               (initClusterID grpcGetOrCreateGRPCConn rpcGetMembers c w)) c w with
    | Panicked msg => Panicked msg
    | Returned (Some err, c1, w1) => Returned (Some err, c1, w1, [Cancel])
    | Returned (None, c1, w1) =>
        match initRetry maxRetryTimes
                (updateMember grpcGetOrCreateGRPCConn rpcGetMembers ctxDone)
                c1 w1 with
        | Panicked msg => Panicked msg
        | Returned (Some err, c2, w2) => Returned (Some err, c2, w2, [Cancel])
        | Returned (None, c2, w2) =>
            Returned (None, setInitialized c2 true, w2, [GoMemberLoop])
        end
    end
  else Returned (None, c, w, []).

End Init.

End pd_service_init.

Module InitExamples.
Import pdpb pd_service_discovery pd_service_init DiscoveryExamples.

(** A wait during which the context is never done. *)
Definition waitOut (d : time.Duration) (w : unit) : bool * unit := (false, w).

(** A reply of cluster 5 that names no leader. *)
Definition replyNoLeader : GetMembersResponse :=
  mkGetMembersResponse (Some (mkResponseHeader 5 None))
    [mkMember "pd-1" 1 ["pd1"]] None ∅.

(** [pd0] knows no leader, every other address answers as [replyOf 5]. *)
Definition membersNoLeaderAt0 (cc : ClientConn) (w : unit)
  : (GetMembersResponse + error) * unit :=
  (inl (if String.eqb (Target cc) "pd0" then replyNoLeader else replyOf 5), w).

End InitExamples.
(** * Properties *)

(** ** Constants *)

(** C7: the default constants are 1 s (slow request), 10 s (request
    timeout), 30 s (dial timeout) and 60 s (auto sync), in nanoseconds;
    a watcher made by [NewLoopWatcher] has a load timeout of 30 s, 150
    load retries, a batch size of 400 and a watch retry interval of 1 s;
    the minimal interval between force loads is 200 ms. *)
Theorem default_constants :
  etcdutil.DefaultSlowRequestTime = 1000000000
  /\ etcdutil.DefaultRequestTimeout = 10000000000
  /\ etcdutil.DefaultDialTimeout = 30000000000
  /\ etcdutil.defaultAutoSyncInterval = 60000000000
  /\ etcdutil.defaultForceLoadMinimalInterval = 200000000
  /\ forall (U : Type) now name key putFn deleteFn postEventFn opts,
       let lw := @etcdutil.NewLoopWatcher U now name key putFn deleteFn
                   postEventFn opts in
       etcdutil.loadTimeout lw = 30000000000
       /\ etcdutil.loadRetryTimes lw = 150
       /\ etcdutil.loadBatchSize lw = 400
       /\ etcdutil.watchChangeRetryInterval lw = 1000000000.
Proof.
  repeat split; vm_compute; reflexivity.
Qed.

(** ** The TSO client *)

Section TSOClientFacts.
Import tsopb tso_client Examples.

Lemma uint32_count (n : nat) :
  Z.of_nat n < 2 ^ 32 -> uint32 (int64 (Z.of_nat n)) = Z.of_nat n.
Proof.
  intros Hn. unfold uint32, int64.
  assert (H0 : 0 <= Z.of_nat n) by lia.
  rewrite (Z.mod_small (Z.of_nat n + 2 ^ 63)) by lia.
  rewrite Z.mod_small; lia.
Qed.

(** C2: for a batch of [n] requests, [n] positive and below [2^32],
    [ProcessTSORequests] sends exactly one request, with [Count = n],
    the cluster id of the client and the given DC location; when the
    response received has another count the call fails with
    [errTSOLength], and otherwise it returns the physical, logical and
    suffix bits of the timestamp of the response, with no error. *)
Theorem ProcessTSORequests_batch {S : Type}
    (Send : TsoRequest -> S -> option error * S)
    (Recv : S -> (TsoResponse + error) * S)
    (c : tsoBaseClient) (stream : S) (dcLocation : string)
    (requests : list tsoRequest) :
  requests <> [] ->
  Z.of_nat (length requests) < 2 ^ 32 ->
  let n := Z.of_nat (length requests) in
  let req := mkTsoRequest (mkRequestHeader (clusterID c)) n dcLocation in
  let out := ProcessTSORequests Send Recv c stream dcLocation requests in
  sentRequests (snd out) = [req]
  /\ forall s1 resp s2,
       Send req stream = (None, s1) ->
       Recv s1 = (inl resp, s2) ->
       (RespCount resp <> n ->
        fst out = ((0, 0, 0, Some (WithStack errTSOLength)), s2))
       /\ (RespCount resp = n ->
           fst out = ((GetPhysical (RespTimestamp resp),
                       GetLogical (RespTimestamp resp),
                       GetSuffixBits (RespTimestamp resp), None), s2)).
Proof.
  intros _ Hlen n req out. subst out. unfold ProcessTSORequests, requestHeader.
  rewrite (uint32_count _ Hlen). fold n. fold req. split.
  - destruct (Send req stream) as [[e|] s1]; [reflexivity|].
    destruct (Recv s1) as [[resp|e] s2]; [|reflexivity].
    destruct (negb (RespCount resp =? n)); reflexivity.
  - intros s1 resp s2 HS HR. rewrite HS, HR. split; intros Hc.
    + apply Z.eqb_neq in Hc. rewrite Hc. reflexivity.
    + apply Z.eqb_eq in Hc. rewrite Hc. reflexivity.
Qed.

Lemma ProcessTSORequests_batch_witness :
  let c := mkTsoBaseClient [] None None 42 ∅ ∅ [] [] in
  let requests := [mkTsoReq 0 "global" 1 []; mkTsoReq 0 "global" 1 []] in
  let req := mkTsoRequest (mkRequestHeader 42) 2 "global" in
  sentRequests (snd (ProcessTSORequests sendOk recvEcho c [] "global" requests))
  = [req].
Proof.
  intros c requests req.
  apply (ProcessTSORequests_batch sendOk recvEcho c [] "global" requests);
    [discriminate | vm_compute; reflexivity].
Defined.

(** C9: [GetLocalTSWithinKeyspaceAsync] always returns a future that is
    not nil. When the first [dispatchRequest] succeeds nothing else is
    done. When it fails the method sleeps 50 ms and dispatches once
    more, and nothing after that; an error is sent on the [done] channel
    of the future exactly when the second dispatch fails too, and it is
    the error of that second attempt. *)
Theorem GetLocalTSWithinKeyspaceAsync_retry {D : Type}
    (dispatchRequest : string -> tsoRequest -> D -> option error * D)
    (pooled : tsoRequest) (now : Z) (dcLocation : string) (keyspaceID : Z)
    (d : D) :
  let req := mkTsoReq now dcLocation keyspaceID (done pooled) in
  let out :=
    GetLocalTSWithinKeyspaceAsync dispatchRequest pooled now dcLocation
      keyspaceID d in
  exists fut : tsoRequest,
    fst (fst out) = Some fut
    /\ start fut = now /\ tso_client.dcLocation fut = dcLocation
    /\ tso_client.keyspaceID fut = keyspaceID
    /\ match dispatchRequest dcLocation req d with
       | (None, d1) =>
           snd out = [CallDispatch dcLocation req]
           /\ snd (fst out) = d1 /\ done fut = done pooled
       | (Some _, d1) =>
           snd out = [CallDispatch dcLocation req;
                      CallSleep 50000000;
                      CallDispatch dcLocation req]
           /\ match dispatchRequest dcLocation req d1 with
              | (None, d2) => snd (fst out) = d2 /\ done fut = done pooled
              | (Some err, d2) =>
                  snd (fst out) = d2 /\ done fut = done pooled ++ [err]
              end
       end.
Proof.
  intros req out. subst out. unfold GetLocalTSWithinKeyspaceAsync. fold req.
  destruct (dispatchRequest dcLocation req d) as [[e1|] d1].
  - destruct (dispatchRequest dcLocation req d1) as [[e2|] d2];
      eexists; repeat split; reflexivity.
  - eexists; repeat split; reflexivity.
Qed.

Lemma GetOrCreateGRPCConn_conns env c addr c' r :
  GetOrCreateGRPCConn env c addr = (c', r) ->
  tsoAllocators c' = tsoAllocators c
  /\ (forall url, is_Some (clientConns c !! url) -> is_Some (clientConns c' !! url))
  /\ (forall cc, r = inl cc -> clientConns c' !! addr = Some cc).
Proof.
  unfold GetOrCreateGRPCConn. intros H.
  destruct (clientConns c !! addr) as [conn|] eqn:Hl.
  - inversion H; subst. repeat split; auto. intros cc [= <-]. exact Hl.
  - destruct (tlsError env).
    { inversion H; subst. repeat split; auto. discriminate. }
    destruct (dialError env addr).
    { inversion H; subst. repeat split; auto. discriminate. }
    inversion H; subst. cbn. repeat split.
    + intros url Hs. destruct (decide (addr = url)) as [->|Hne].
      * rewrite lookup_insert_eq. eauto.
      * rewrite lookup_insert_ne by done. exact Hs.
    + intros cc [= <-]. apply lookup_insert_eq.
Qed.

Lemma GetOrCreateGRPCConn_cover env c addr c' r :
  connsCover c -> GetOrCreateGRPCConn env c addr = (c', r) -> connsCover c'.
Proof.
  intros Hc H. destruct (GetOrCreateGRPCConn_conns _ _ _ _ _ H) as (Ht & Hm & _).
  intros dc url Hl. rewrite Ht in Hl. apply Hm. eapply Hc. exact Hl.
Qed.

Lemma switchPrimary_cover env c addrs c' err calls :
  connsCover c ->
  switchPrimary env c addrs = Returned (c', err, calls) -> connsCover c'.
Proof.
  unfold switchPrimary. intros Hc H. destruct addrs as [|addr rest]; [discriminate|].
  destruct (String.eqb addr (getPrimaryAddr c)).
  { inversion H; subst. exact Hc. }
  destruct (GetOrCreateGRPCConn env c addr) as [c1 [cc|e]] eqn:Hg.
  - inversion H; subst; clear H.
    destruct (GetOrCreateGRPCConn_conns _ _ _ _ _ Hg) as (Ht & Hm & Hcc).
    intros dc url. cbn. intros Hl.
    destruct (decide (globalDCLocation = dc)) as [<-|Hne].
    + rewrite lookup_insert_eq in Hl. injection Hl as <-.
      rewrite (Hcc cc eq_refl). eauto.
    + rewrite lookup_insert_ne in Hl by done. rewrite Ht in Hl.
      apply Hm. eapply Hc. exact Hl.
  - inversion H; subst. eapply GetOrCreateGRPCConn_cover; eauto.
Qed.

Lemma reachable_cover c : reachable c -> connsCover c.
Proof.
  induction 1 as [env urls c Hn | env c addrs c' err calls _ IH Hs
                 | env c addr c' r _ IH Hg | c _ IH | c cbs _ IH | c cbs _ IH].
  - unfold newTSOBaseClient in Hn.
    destruct (switchPrimary env _ urls) as [[[bc1 e] calls]|] eqn:Hs; [|discriminate].
    destruct (GetOrCreateGRPCConn env bc1 (getPrimaryAddr bc1)) as [bc2 [cc|e']] eqn:Hg;
      [|discriminate].
    injection Hn as <-.
    eapply GetOrCreateGRPCConn_cover; [|exact Hg].
    eapply switchPrimary_cover; [|exact Hs].
    intros dc url. cbn. rewrite lookup_empty. discriminate.
  - eapply switchPrimary_cover; eauto.
  - eapply GetOrCreateGRPCConn_cover; eauto.
  - intros dc url Hl. cbn in *. rewrite lookup_fmap.
    destruct (IH dc url Hl) as [cc ->]. cbn. eauto.
  - exact IH.
  - exact IH.
Qed.

(** C10: [GetTSOAllocatorClientConnByDCLocation] panics exactly when the
    DC location has no entry in [tsoAllocators] or the URL stored for it
    has no entry in [clientConns]. In every state the client reaches
    from [newTSOBaseClient] through its methods, a DC location stored by
    [switchPrimary] has a connection for its URL, so the function
    returns that connection and that URL; and right after a
    [switchPrimary] that stored address [addr], the function returns for
    the global DC location a connection to [addr], and [addr]. *)
Theorem GetTSOAllocatorClientConnByDCLocation_panics (c : tsoBaseClient)
    (dcLocation : string) :
  ((tsoAllocators c !! dcLocation = None
    \/ exists url, tsoAllocators c !! dcLocation = Some url
                   /\ clientConns c !! url = None)
   <-> exists msg, GetTSOAllocatorClientConnByDCLocation c dcLocation = Panicked msg)
  /\ (reachable c ->
      forall url, tsoAllocators c !! dcLocation = Some url ->
      exists cc, clientConns c !! url = Some cc
                 /\ GetTSOAllocatorClientConnByDCLocation c dcLocation
                    = Returned (cc, url))
  /\ (forall env c0 addr rest calls,
      switchPrimary env c0 (addr :: rest) = Returned (c, None, calls) ->
      addr <> getPrimaryAddr c0 ->
      exists cc, clientConns c !! addr = Some cc
                 /\ GetTSOAllocatorClientConnByDCLocation c globalDCLocation
                    = Returned (cc, addr)).
Proof.
  unfold GetTSOAllocatorClientConnByDCLocation. split; [|split].
  - split.
    + intros [Hn | (url & Hu & Hn)].
      * rewrite Hn. eauto.
      * rewrite Hu, Hn. eauto.
    + intros [msg H]. destruct (tsoAllocators c !! dcLocation) as [url|]; [|by left].
      right. exists url. split; [done|].
      destruct (clientConns c !! url); [discriminate | done].
  - intros Hr url Hu. rewrite Hu.
    destruct (reachable_cover c Hr dcLocation url Hu) as [cc Hcc].
    rewrite Hcc. eauto.
  - intros env c0 addr rest calls Hs Hne. unfold switchPrimary in Hs.
    apply String.eqb_neq in Hne. rewrite Hne in Hs.
    destruct (GetOrCreateGRPCConn env c0 addr) as [c1 [cc|e]] eqn:Hg; [|discriminate].
    destruct (GetOrCreateGRPCConn_conns _ _ _ _ _ Hg) as (_ & _ & Hcc).
    inversion Hs; subst; clear Hs. cbn. rewrite lookup_insert_eq.
    rewrite (Hcc cc eq_refl). eauto.
Qed.

Lemma clientPd0_new : newTSOBaseClient dialOk ["pd0"] = Returned (Some clientPd0).
Proof. vm_compute. reflexivity. Qed.

Lemma GetTSOAllocatorClientConnByDCLocation_panics_witness :
  exists cc, clientConns clientPd0 !! "pd0" = Some cc
             /\ GetTSOAllocatorClientConnByDCLocation clientPd0 globalDCLocation
                = Returned (cc, "pd0").
Proof.
  apply (GetTSOAllocatorClientConnByDCLocation_panics clientPd0 globalDCLocation).
  - exact (reach_new dialOk ["pd0"] clientPd0 clientPd0_new).
  - vm_compute. reflexivity.
Defined.

End TSOClientFacts.

(** ** Service discovery *)

Section DiscoveryFacts.
Import pdpb pd_service_discovery DiscoveryExamples.
Context {W : Type}.
Variable grpcGetOrCreateGRPCConn :
  gmap string ClientConn -> string -> W ->
  (ClientConn + error) * gmap string ClientConn * W.
Variable rpcGetMembers : ClientConn -> W -> (GetMembersResponse + error) * W.
Variable ctxDone : W -> bool.

Local Abbreviation getMembers' :=
  (getMembers grpcGetOrCreateGRPCConn rpcGetMembers).

(** [getMembers] changes nothing of the client but its connections. *)
Lemma getMembers_frame (c : pdServiceDiscovery W) url w r c1 w1 :
  getMembers' c url w = (r, c1, w1) ->
  urls c1 = urls c /\ leader c1 = leader c /\ followers c1 = followers c
  /\ clusterID c1 = clusterID c
  /\ tsoAllocLeadersUpdatedCbs c1 = tsoAllocLeadersUpdatedCbs c.
Proof.
  unfold getMembers, GetOrCreateGRPCConn. intros H.
  destruct (grpcGetOrCreateGRPCConn (clientConns c) url w) as [[[cc|e] m] w0].
  - destruct (rpcGetMembers cc w0) as [[members|e] w2].
    + destruct (GetError (Header members)); inversion H; subst; cbn; auto.
    + inversion H; subst; cbn; auto.
  - inversion H; subst; cbn; auto.
Qed.

Lemma initClusterIDLoop_ids (us : list string) :
  forall cid (c : pdServiceDiscovery W) w,
  let ids := headerIDs (allReplies grpcGetOrCreateGRPCConn rpcGetMembers us c w) in
  let out := initClusterIDLoop grpcGetOrCreateGRPCConn rpcGetMembers us cid c w in
  clusterID (snd (fst out)) = clusterID c
  /\ fst (fst out) =
     if cid =? 0 then
       match skipZeros ids with
       | [] => inl 0
       | id :: later =>
           if forallb (Z.eqb id) later then inl id
           else inr (WithStack errUnmatchedClusterID)
       end
     else if forallb (Z.eqb cid) ids then inl cid
          else inr (WithStack errUnmatchedClusterID).
Proof.
  induction us as [|u rest IH]; intros cid c w; cbn zeta.
  - cbn. split; [done|]. destruct (cid =? 0) eqn:E; [|done].
    apply Z.eqb_eq in E. by subst.
  - cbn [initClusterIDLoop allReplies].
    destruct (getMembers' c u w) as [[r c1] w1] eqn:Hg.
    destruct (getMembers_frame _ _ _ _ _ _ Hg) as (_ & _ & _ & Hid & _).
    rewrite <- Hid. destruct r as [members|e].
    + unfold headerIDs. cbn [flat_map]. fold (headerIDs (allReplies
        grpcGetOrCreateGRPCConn rpcGetMembers rest c1 w1)).
      destruct (Header members) as [h|].
      * cbn [app]. destruct (cid =? 0) eqn:E.
        { specialize (IH (ClusterId h) c1 w1). cbn zeta in IH.
          destruct IH as [IH1 IH2]. split; [exact IH1|]. rewrite IH2.
          destruct (ClusterId h =? 0) eqn:E2.
          - apply Z.eqb_eq in E2. rewrite E2. reflexivity.
          - apply Z.eqb_neq in E2. destruct (ClusterId h); [done| |]; reflexivity. }
        { cbn [forallb]. rewrite (Z.eqb_sym cid).
          destruct (ClusterId h =? cid) eqn:E2; cbn [negb andb].
          - specialize (IH cid c1 w1). cbn zeta in IH. rewrite E in IH. exact IH.
          - done. }
      * cbn [app]. apply IH.
    + unfold headerIDs. cbn [flat_map app]. apply IH.
Qed.

(** C4 (amended): let [ids] be the cluster ids of the replies that
    succeed with a header, in URL order. The first id that is not zero
    becomes the local cluster id (replies with id zero before it leave
    it unset); if a reply after it carries another id, [initClusterID]
    returns [errUnmatchedClusterID] and the stored id is unchanged; if
    there is no id other than zero it returns [errFailInitClusterID] and
    the stored id is unchanged; and when it succeeds the stored id is
    that first id that is not zero. *)
Theorem initClusterID_first_nonzero (c : pdServiceDiscovery W) (w : W) :
  let ids :=
    headerIDs (allReplies grpcGetOrCreateGRPCConn rpcGetMembers (urls c) c w) in
  let out := initClusterID grpcGetOrCreateGRPCConn rpcGetMembers c w in
  match skipZeros ids with
  | [] =>
      fst (fst out) = Some (WithStack errFailInitClusterID)
      /\ clusterID (snd (fst out)) = clusterID c
  | id :: later =>
      if forallb (Z.eqb id) later
      then fst (fst out) = None /\ clusterID (snd (fst out)) = id
      else fst (fst out) = Some (WithStack errUnmatchedClusterID)
           /\ clusterID (snd (fst out)) = clusterID c
  end.
Proof.
  intros ids out. subst out. unfold initClusterID.
  destruct (initClusterIDLoop_ids (urls c) 0 c w) as [H1 H2]. fold ids in H2.
  destruct (initClusterIDLoop grpcGetOrCreateGRPCConn rpcGetMembers (urls c) 0 c w)
    as [[r c1] w1]. cbn [fst snd] in *. change (0 =? 0) with true in H2. cbn iota in H2.
  assert (Hnz : forall id later, skipZeros ids = id :: later -> id <> 0).
  { clear. induction ids as [|i l IH]; intros id later; [discriminate|].
    destruct i; cbn; [apply IH| |]; intros [= <- _]; discriminate. }
  destruct (skipZeros ids) as [|id later] eqn:Hs.
  - subst r. cbn. done.
  - specialize (Hnz id later eq_refl).
    destruct (forallb (Z.eqb id) later); subst r.
    + apply Z.eqb_neq in Hnz. rewrite Hnz. done.
    + done.
Qed.

(** C3 (amended): when the reply of a URL carries a cluster id other
    than the local one, the reply is not used: URLs, leader, followers
    and cluster id of the client stay as they are and no allocator
    callback runs. If the context of the client is done at that moment
    [updateMember] returns the cluster-id mismatch error; otherwise it
    goes on with the next URL, so that the update can still succeed
    there; with no URL left it fails with [ErrClientGetMember]. *)
Theorem updateMember_mismatch_next_url (all : list string) (u : string)
    (rest : list string) (c : pdServiceDiscovery W) (w : W)
    (members : GetMembersResponse) (c1 : pdServiceDiscovery W) (w1 : W) :
  getMembers' c u w = (inl members, c1, w1) ->
  GetClusterId (Header members) <> clusterID c ->
  (urls c1 = urls c /\ leader c1 = leader c /\ followers c1 = followers c
   /\ clusterID c1 = clusterID c)
  /\ updateMemberLoop grpcGetOrCreateGRPCConn rpcGetMembers ctxDone all
       (u :: rest) c w
     = (if ctxDone w1
        then Returned (Some (WithStack errClusterIDMismatch), c1, w1)
        else updateMemberLoop grpcGetOrCreateGRPCConn rpcGetMembers ctxDone
               all rest c1 w1)
  /\ updateMemberLoop grpcGetOrCreateGRPCConn rpcGetMembers ctxDone all [] c1 w1
     = Returned (Some (ErrClientGetMember all), c1, w1).
Proof.
  intros Hg Hne.
  destruct (getMembers_frame _ _ _ _ _ _ Hg) as (Hu & Hl & Hf & Hid & _).
  split; [auto|]. split; [|reflexivity].
  cbn [updateMemberLoop]. rewrite Hg. rewrite Hid.
  apply Z.eqb_neq in Hne. rewrite Hne. reflexivity.
Qed.

End DiscoveryFacts.

Section DiscoveryInstances.
Import pdpb pd_service_discovery DiscoveryExamples.

Lemma initClusterID_first_nonzero_witness :
  let out := initClusterID connect (membersFrom 5) (pdClient 0) tt in
  fst (fst out) = None /\ clusterID (snd (fst out)) = 5.
Proof.
  exact (initClusterID_first_nonzero connect (membersFrom 5) (pdClient 0) tt).
Defined.

(** C4, as first stated, fails when a reply carries the cluster id
    zero: [pd0] answers with id 0 and [pd1] with id 5; the call succeeds
    and stores 5, although the first reply that succeeded carried 0 and
    the later one differs from it. *)
Lemma initClusterID_zero_id_counterexample :
  headerIDs (allReplies connect (membersFrom 0) ["pd0"; "pd1"] (pdClient 0) tt)
  = [0; 5]
  /\ fst (fst (initClusterID connect (membersFrom 0) (pdClient 0) tt)) = None
  /\ clusterID (snd (fst (initClusterID connect (membersFrom 0) (pdClient 0) tt)))
     = 5.
Proof. vm_compute. repeat split; reflexivity. Qed.

(** C3, as first stated, fails: the client knows cluster 5, [pd0]
    answers for cluster 7 and [pd1] for cluster 5; [updateMember]
    returns no error and has switched to the leader given by [pd1]. *)
Lemma updateMember_mismatch_counterexample :
  (exists c1,
     getMembers connect (membersFrom 7) (pdClient 5) "pd0" tt
     = (inl (replyOf 7), c1, tt))
  /\ GetClusterId (Header (replyOf 7)) <> clusterID (pdClient 5)
  /\ exists c',
       updateMember connect (membersFrom 7) neverDone (pdClient 5) tt
       = Returned (None, c', tt)
       /\ leader c' = Some "pd1".
Proof.
  split; [|split].
  - eexists. vm_compute. reflexivity.
  - vm_compute. discriminate.
  - eexists. split; vm_compute; reflexivity.
Qed.

Lemma updateMember_mismatch_next_url_witness :
  updateMemberLoop connect (membersFrom 7) neverDone ["pd0"; "pd1"]
    ["pd0"; "pd1"] (pdClient 5) tt
  = updateMemberLoop connect (membersFrom 7) neverDone ["pd0"; "pd1"] ["pd1"]
      (setConns (pdClient 5) {["pd0" := mkClientConn "pd0" false]}) tt.
Proof.
  refine (proj1 (proj2 (updateMember_mismatch_next_url connect (membersFrom 7)
            neverDone ["pd0"; "pd1"] "pd0" ["pd1"] (pdClient 5) tt (replyOf 7)
            (setConns (pdClient 5) {["pd0" := mkClientConn "pd0" false]}) tt
            _ _))).
  - vm_compute. reflexivity.
  - vm_compute. discriminate.
Defined.

End DiscoveryInstances.

(** ** The loop watcher *)

Section WatchFacts.
Import clientv3 etcdutil WatcherExamples.
Context {U : Type}.
Variable lw : LoopWatcher U.

(** Every turn of [watch] starts by opening the watch channel at the
    revision it was given. *)
Lemma watch_opens_at revision script (u : U) r u' calls :
  watch lw revision script u = Finished (r, u', calls) ->
  exists tl, calls = CallWatch (key lw) revision :: tl.
Proof.
  destruct script as [|[|s|wresp] rest]; cbn [watch]; intros H.
  - inversion H; eauto.
  - inversion H; eauto.
  - destruct (load lw s u) as [[[[rev e] u1] c1]|]; [|discriminate].
    destruct (watch lw rev rest u1) as [[[r2 u2] c2]|]; [|discriminate].
    inversion H; eauto.
  - destruct (negb (CompactRevision wresp =? 0)).
    + destruct (watch lw (CompactRevision wresp) rest u) as [[[r2 u2] c2]|];
        [|discriminate].
      inversion H; eauto.
    + destruct (Err wresp).
      * inversion H; eauto.
      * destruct (handleEvents lw (Events wresp) u) as [u1 c1].
        destruct (postEventFn lw u1) as [e2 u2].
        destruct (watch lw _ rest u2) as [[[r3 u3] c3]|]; [|discriminate].
        inversion H; eauto.
Qed.

Lemma watchLoop_opens_at revision script rounds (u : U) b u' calls :
  watchLoop lw revision ((false, script) :: rounds) u = Finished (b, u', calls) ->
  exists tl, calls = CallWatch (key lw) revision :: tl.
Proof.
  cbn [watchLoop]. intros H.
  destruct (watch lw revision script u) as [[[r u1] c1]|] eqn:Hw; [|discriminate].
  destruct (watch_opens_at _ _ _ _ _ _ Hw) as [tl ->].
  destruct r as [next [e|]|r].
  - destruct (watchLoop lw next rounds u1) as [[[b2 u2] c2]|]; [|discriminate].
    inversion H; subst. cbn. eauto.
  - destruct (watchLoop lw revision rounds u1) as [[[b2 u2] c2]|]; [|discriminate].
    inversion H; subst. cbn. eauto.
  - inversion H; subst. eauto.
Qed.

(** C6: a watch response with a compact revision other than zero does
    not make [watch] return: the watch channel is canceled and opened
    again at the compact revision, and [watch] goes on from there (alone,
    such a response leaves [watch] waiting at the compact revision, with
    no error). A watch response with an error and compact revision zero
    makes [watch] return its current revision and that error. Whenever
    [watch] returns an error, [StartWatchLoop] sleeps
    [watchChangeRetryInterval] and then, its context not being done,
    calls [watch] again, at the revision returned: so does its loop,
    and so does [StartWatchLoop] itself once [initFromEtcd] has given
    the first revision. If the context is done after the sleep,
    [StartWatchLoop] returns without another watch. *)
Theorem watch_compaction_and_cancel (revision : Z) (wresp : WatchResponse)
    (rest : list Select) (u : U) :
  (CompactRevision wresp <> 0 ->
     watch lw revision [WatchChan wresp] u
     = Finished (WatchWaiting (CompactRevision wresp), u,
                 [CallWatch (key lw) revision; CallCancelWatch;
                  CallWatch (key lw) (CompactRevision wresp)])
     /\ watch lw revision (WatchChan wresp :: rest) u
        = match watch lw (CompactRevision wresp) rest u with
          | Finished (r, u1, calls) =>
              Finished (r, u1, CallWatch (key lw) revision
                                 :: CallCancelWatch :: calls)
          | OutOfFuel => OutOfFuel
          end
     /\ forall r u1 calls,
          watch lw (CompactRevision wresp) rest u = Finished (r, u1, calls) ->
          exists tl, calls = CallWatch (key lw) (CompactRevision wresp) :: tl)
  /\ (forall e, CompactRevision wresp = 0 -> Err wresp = Some e ->
       watch lw revision (WatchChan wresp :: rest) u
       = Finished (WatchReturned revision (Some e), u,
                   [CallWatch (key lw) revision]))
  /\ (forall script next e u1 calls rounds,
       watch lw revision script u
       = Finished (WatchReturned next (Some e), u1, calls) ->
       watchLoop lw revision ((false, script) :: rounds) u
       = match watchLoop lw next rounds u1 with
         | Finished (b, u2, calls') =>
             Finished (b, u2,
               calls ++ CallSleep (watchChangeRetryInterval lw) :: calls')
         | OutOfFuel => OutOfFuel
         end
       /\ forall script' rounds' b u2 calls',
            watchLoop lw next ((false, script') :: rounds') u1
            = Finished (b, u2, calls') ->
            exists tl, calls' = CallWatch (key lw) next :: tl)
  /\ (forall attempts u0 calls0 script next e u1 calls,
       initFromEtcd lw attempts u0 = Finished (revision, u, calls0) ->
       watch lw revision script u
       = Finished (WatchReturned next (Some e), u1, calls) ->
       (forall rounds,
          StartWatchLoop lw attempts ((false, script) :: rounds) u0
          = match watchLoop lw next rounds u1 with
            | Finished (b, u2, calls') =>
                Finished (b, u2,
                  calls0 ++ calls
                    ++ CallSleep (watchChangeRetryInterval lw) :: calls')
            | OutOfFuel => OutOfFuel
            end)
       /\ StartWatchLoop lw attempts [(false, script); (false, [])] u0
          = Finished (false, u1,
              calls0 ++ calls
                ++ [CallSleep (watchChangeRetryInterval lw);
                    CallWatch (key lw) next])
       /\ (forall script' rounds,
            StartWatchLoop lw attempts
              ((false, script) :: (true, script') :: rounds) u0
            = Finished (true, u1,
                calls0 ++ calls ++ [CallSleep (watchChangeRetryInterval lw)]))
       /\ forall script' rounds b u2 all,
            StartWatchLoop lw attempts
              ((false, script) :: (false, script') :: rounds) u0
            = Finished (b, u2, all) ->
            exists tl,
              all = calls0 ++ calls
                      ++ CallSleep (watchChangeRetryInterval lw)
                           :: CallWatch (key lw) next :: tl).
Proof.
  split; [|split; [|split]].
  - intros Hc. apply Z.eqb_neq in Hc. cbn [watch]. rewrite Hc. cbn [negb].
    split; [reflexivity|]. split; [reflexivity|].
    intros r u1 calls H. eapply watch_opens_at. exact H.
  - intros e Hc He. cbn [watch]. rewrite Hc. change (0 =? 0) with true.
    cbn [negb]. rewrite He. reflexivity.
  - intros script next e u1 calls rounds Hw. split.
    + cbn [watchLoop]. rewrite Hw. reflexivity.
    + intros script' rounds' b u2 calls' H. eapply watchLoop_opens_at. exact H.
  - intros attempts u0 calls0 script next e u1 calls Hi Hw.
    assert (Hs : forall rounds,
              StartWatchLoop lw attempts ((false, script) :: rounds) u0
              = match watchLoop lw next rounds u1 with
                | Finished (b, u2, calls') =>
                    Finished (b, u2,
                      calls0 ++ calls
                        ++ CallSleep (watchChangeRetryInterval lw) :: calls')
                | OutOfFuel => OutOfFuel
                end).
    { intros rounds. unfold StartWatchLoop. rewrite Hi. cbn [watchLoop].
      rewrite Hw. destruct (watchLoop lw next rounds u1) as [[[b u2] c2]|];
        reflexivity. }
    split; [exact Hs|]. split; [|split].
    + rewrite Hs. reflexivity.
    + intros script' rounds. rewrite Hs. reflexivity.
    + intros script' rounds b u2 all H. rewrite Hs in H.
      destruct (watchLoop lw next ((false, script') :: rounds) u1)
        as [[[b2 u3] c2]|] eqn:Hl; [|discriminate].
      destruct (watchLoop_opens_at _ _ _ _ _ _ _ Hl) as [tl ->].
      inversion H; subst. eauto.
Qed.

End WatchFacts.

Section WatchInstances.
Import clientv3 etcdutil WatcherExamples.

Lemma watch_compaction_and_cancel_witness :
  watch rangeWatcher 5 [WatchChan compacted] []
  = Finished (WatchWaiting 40, [],
              [CallWatch "k" 5; CallCancelWatch; CallWatch "k" 40])
  /\ watch rangeWatcher 5 [WatchChan canceled] []
     = Finished (WatchReturned 5 (Some (ErrGRPC "watcher lost")), [],
                 [CallWatch "k" 5])
  /\ watchLoop rangeWatcher 5
       [(false, [WatchChan canceled]); (false, [WatchChan compacted])] []
     = Finished (false, [],
                 [CallWatch "k" 5; CallSleep 1000000000;
                  CallWatch "k" 5; CallCancelWatch; CallWatch "k" 40])
  /\ StartWatchLoop rangeWatcher [(store3, false)]
       [(false, [WatchChan canceled]); (false, [])] []
     = Finished (false, ["k0"; "k1"; "k2"],
                 [CallGet (mkOp "k" "l" 2 0);
                  CallPut (mkKV "k0" "a" 1);
                  CallGet (mkOp "k1" "l" 2 0);
                  CallPut (mkKV "k1" "b" 2);
                  CallPut (mkKV "k2" "c" 3);
                  CallPostEvent; CallIsLoaded None;
                  CallWatch "k" 8; CallSleep 1000000000; CallWatch "k" 8]).
Proof.
  pose proof (watch_compaction_and_cancel rangeWatcher 5 compacted [] [])
    as (Hc & _ & _).
  pose proof (watch_compaction_and_cancel rangeWatcher 5 canceled [] [])
    as (_ & He & Hl & _).
  pose proof (watch_compaction_and_cancel rangeWatcher 8 canceled []
                ["k0"; "k1"; "k2"]) as (_ & _ & _ & Hs).
  split; [|split; [|split]].
  - apply Hc. vm_compute. discriminate.
  - apply He; vm_compute; reflexivity.
  - refine (eq_trans (proj1 (Hl [WatchChan canceled] 5 (ErrGRPC "watcher lost")
                               [] [CallWatch "k" 5]
                               [(false, [WatchChan compacted])] _)) _);
      vm_compute; reflexivity.
  - refine (eq_trans (proj1 (proj2 (Hs [(store3, false)] []
              [CallGet (mkOp "k" "l" 2 0);
               CallPut (mkKV "k0" "a" 1);
               CallGet (mkOp "k1" "l" 2 0);
               CallPut (mkKV "k1" "b" 2);
               CallPut (mkKV "k2" "c" 3);
               CallPostEvent; CallIsLoaded None]
              [WatchChan canceled] 8 (ErrGRPC "watcher lost")
              ["k0"; "k1"; "k2"] [CallWatch "k" 8] _ _))) _);
      vm_compute; reflexivity.
Defined.

End WatchInstances.

(** ** Loading in batches *)

Section KeyOrder.
Import clientv3.

Lemma key_ltb_irrefl a : key_ltb a a = false.
Proof.
  unfold key_ltb. destruct (String_as_OT.compare a a) eqn:E; try reflexivity.
  exfalso. exact (StrictOrder_Irreflexive (R:=String_as_OT.lt) a E).
Qed.

Lemma key_ltb_trans a b c :
  key_ltb a b = true -> key_ltb b c = true -> key_ltb a c = true.
Proof.
  unfold key_ltb. intros H1 H2.
  destruct (String_as_OT.compare a b) eqn:E1; try discriminate.
  destruct (String_as_OT.compare b c) eqn:E2; try discriminate.
  assert (H : String_as_OT.lt a c)
    by exact (StrictOrder_Transitive (R:=String_as_OT.lt) a b c E1 E2).
  unfold String_as_OT.lt in H. rewrite H. reflexivity.
Qed.

Lemma key_leb_refl a : key_leb a a = true.
Proof. unfold key_leb. rewrite key_ltb_irrefl. reflexivity. Qed.

Lemma key_ltb_leb a b : key_ltb a b = true -> key_leb a b = true.
Proof.
  intros H. unfold key_leb. destruct (key_ltb b a) eqn:E; [|reflexivity].
  pose proof (key_ltb_trans _ _ _ H E) as Hc. rewrite key_ltb_irrefl in Hc.
  discriminate.
Qed.

Lemma key_leb_cases a b : key_leb a b = true -> a = b \/ key_ltb a b = true.
Proof.
  unfold key_leb, key_ltb.
  destruct (String_as_OT.compare_spec b a) as [E|E|E]; cbn; intros H.
  - left. symmetry. exact E.
  - discriminate.
  - right. unfold String_as_OT.lt in E. rewrite E. reflexivity.
Qed.

Lemma key_leb_trans a b c :
  key_leb a b = true -> key_leb b c = true -> key_leb a c = true.
Proof.
  intros H1 H2. destruct (key_leb_cases _ _ H1) as [->|L1]; [exact H2|].
  destruct (key_leb_cases _ _ H2) as [<-|L2]; [exact H1|].
  apply key_ltb_leb. eapply key_ltb_trans; eauto.
Qed.

End KeyOrder.

Section LoadFacts.
Import clientv3 etcdutil.

Lemma sorted_kvs_filter f l : sorted_kvs l -> sorted_kvs (List.filter f l).
Proof.
  unfold sorted_kvs. induction 1 as [|a l Hs IH Ha]; cbn; [constructor|].
  destruct (f a); [|exact IH]. constructor; [exact IH|].
  rewrite List.Forall_forall in *. intros x Hx.
  apply List.filter_In in Hx. apply Ha. tauto.
Qed.

Lemma sorted_kvs_from p l1 l2 :
  sorted_kvs (l1 ++ p :: l2) ->
  List.filter (fun x => key_leb (Key p) (Key x)) (l1 ++ p :: l2) = p :: l2.
Proof.
  unfold sorted_kvs. induction l1 as [|a l1 IH]; cbn [app List.filter]; intros Hs.
  - rewrite key_leb_refl. f_equal. inversion Hs as [|? ? Hs' Hall]; subst.
    clear Hs Hs'. induction l2 as [|b l2 IH2]; [reflexivity|].
    inversion Hall as [|? ? Hb Hall']; subst. cbn.
    rewrite (key_ltb_leb _ _ Hb). f_equal. auto.
  - inversion Hs as [|? ? Hs' Hall]; subst.
    assert (Hap : key_ltb (Key a) (Key p) = true).
    { rewrite List.Forall_forall in Hall. apply Hall.
      apply List.in_or_app. right. left. reflexivity. }
    unfold key_leb at 1. rewrite Hap. cbn [negb]. auto.
Qed.

Lemma sorted_kvs_one_key k l :
  sorted_kvs l ->
  (length (List.filter (fun kv => String.eqb (Key kv) k) l) <= 1)%nat.
Proof.
  unfold sorted_kvs. induction 1 as [|a l Hs IH Ha]; cbn; [lia|].
  destruct (String.eqb (Key a) k) eqn:E; [|exact IH].
  apply String.eqb_eq in E. subst k.
  replace (List.filter (fun kv => String.eqb (Key kv) (Key a)) l) with (@nil KeyValue);
    [cbn; lia|].
  clear IH Hs. induction l as [|b l IH]; [reflexivity|].
  inversion Ha as [|? ? Hb Ha']; subst. cbn.
  destruct (String.eqb (Key b) (Key a)) eqn:E.
  - apply String.eqb_eq in E. rewrite E, key_ltb_irrefl in Hb. discriminate.
  - auto.
Qed.

Lemma filter_filter_and {A} (f g : A -> bool) (l : list A) :
  List.filter g (List.filter f l) = List.filter (fun x => f x && g x) l.
Proof.
  induction l as [|a l IH]; [reflexivity|]. cbn [List.filter].
  destruct (f a); cbn [andb List.filter]; [|exact IH].
  destruct (g a); [f_equal|]; exact IH.
Qed.

Lemma firstn_split_last {A} (n : nat) (h : list A) :
  (1 <= n)%nat -> (n < length h)%nat ->
  exists l1 p l2, h = l1 ++ p :: l2 /\ firstn n h = l1 ++ [p]
                  /\ length l1 = (n - 1)%nat /\ l2 <> [].
Proof.
  revert h. induction n as [|n IH]; intros h Hn Hl; [lia|].
  destruct h as [|a h]; [cbn in Hl; lia|]. cbn in Hl.
  destruct n as [|n].
  - destruct h as [|b h]; [cbn in Hl; lia|].
    exists [], a, (b :: h). cbn. repeat split. discriminate.
  - destruct (IH h) as (l1 & p & l2 & -> & Hf & Hlen & Hne); [lia|lia|].
    exists (a :: l1), p, l2. cbn [firstn app length]. rewrite Hf.
    repeat split; [cbn; lia|exact Hne].
Qed.

Context {U : Type}.
Variable lw : LoopWatcher U.

Lemma loadBatch_all items : forall startKey err (u : U),
  exists err' u',
    loadBatch lw false items startKey err u
    = (startKey, err', u', map CallPut items).
Proof.
  induction items as [|a items IH]; intros startKey err u; cbn [loadBatch andb].
  - eauto.
  - destruct (putFn lw a u) as [e u1].
    destruct (IH startKey e u1) as (err' & u' & ->). cbn. eauto.
Qed.

Lemma loadBatch_more l1 p : forall startKey err (u : U),
  exists err' u',
    loadBatch lw true (l1 ++ [p]) startKey err u
    = (Key p, err', u', map CallPut l1).
Proof.
  induction l1 as [|a l1 IH]; intros startKey err u.
  - cbn. eauto.
  - assert (Hm : match l1 ++ [p] with [] => true | _ :: _ => false end = false)
      by (destruct l1; reflexivity).
    change (loadBatch lw true ((a :: l1) ++ [p]) startKey err u)
      with (if true && match l1 ++ [p] with [] => true | _ :: _ => false end
            then loadBatch lw true (l1 ++ [p]) (Key a) err u
            else let '(e, u1) := putFn lw a u in
                 let '(k, e', u2, calls) :=
                   loadBatch lw true (l1 ++ [p]) startKey e u1 in
                 (k, e', u2, CallPut a :: calls)).
    rewrite Hm. cbn [andb]. destruct (putFn lw a u) as [e u1].
    destruct (IH startKey e u1) as (err' & u' & ->). cbn. eauto.
Qed.

Lemma putCalls_puts (l : list KeyValue) : putCalls (map CallPut l) = l.
Proof. induction l as [|a l IH]; cbn; [reflexivity|]. f_equal. exact IH. Qed.

Lemma getCalls_puts (l : list KeyValue) : getCalls (map CallPut l) = [].
Proof. induction l as [|a l IH]; cbn; auto. Qed.

Lemma loadLimit_not_one :
  - 2 ^ 63 <= loadBatchSize lw < 2 ^ 63 -> loadLimit lw <> 1.
Proof.
  intros Hr. unfold loadLimit.
  destruct (loadBatchSize lw =? 0) eqn:E; cbn [negb].
  - apply Z.eqb_eq in E. rewrite E. discriminate.
  - apply Z.eqb_neq in E. unfold int64. intros H.
    destruct (Z.eq_dec (loadBatchSize lw) (2 ^ 63 - 1)) as [Hm|Hm].
    + rewrite Hm in H. vm_compute in H. discriminate.
    + rewrite Z.mod_small in H by lia. lia.
Qed.

Variable s : Store.
Variable endKey : string.
Variable rev : Z.
Hypothesis Hfault : fault s = None.
Hypothesis Hsorted : sorted_kvs (kvs s).
Hypothesis Hint64 : - 2 ^ 63 <= loadBatchSize lw < 2 ^ 63.
Hypothesis Hfixed :
  forall startKey, loadOp lw startKey = mkOp startKey endKey (loadLimit lw) rev.

(** The pairs of the range that starts at [k]. *)
Local Abbreviation hits k := (rangeOf s (mkOp k endKey (loadLimit lw) rev)).

Lemma hits_next k l1 p l2 :
  endKey <> "" -> hits k = l1 ++ p :: l2 -> hits (Key p) = p :: l2.
Proof.
  intros He Hk.
  assert (Hp : key_leb k (Key p) = true).
  { assert (Hin : In p (hits k)) by (rewrite Hk; apply in_elt).
    apply List.filter_In in Hin. destruct Hin as [_ Hin].
    unfold in_range in Hin. cbn [op_end op_key] in Hin.
    apply String.eqb_neq in He. rewrite He in Hin.
    apply andb_true_iff in Hin. tauto. }
  rewrite <- (sorted_kvs_from p l1 l2).
  2:{ rewrite <- Hk. apply sorted_kvs_filter. exact Hsorted. }
  rewrite <- Hk. unfold rangeOf. rewrite filter_filter_and.
  apply List.filter_ext. intros a. unfold in_range. cbn [op_end op_key].
  apply String.eqb_neq in He. rewrite He.
  destruct (key_leb (Key p) (Key a)) eqn:E1.
  - rewrite (key_leb_trans _ _ _ Hp E1). cbn [andb]. rewrite andb_true_r.
    reflexivity.
  - cbn [andb]. rewrite andb_false_r. reflexivity.
Qed.

Lemma loadLoop_fixed_range (fuel : nat) : forall k (u : U),
  (length (hits k) < fuel)%nat ->
  exists err u' calls,
    loadLoop lw fuel s k u = Finished (int64 (Revision s + 1), err, u', calls)
    /\ putCalls calls = hits k
    /\ Forall (fun op => op_limit op = loadLimit lw /\ op_end op = endKey)
         (getCalls calls).
Proof.
  induction fuel as [|fuel IH]; intros k u Hlen; [lia|].
  cbn [loadLoop]. rewrite Hfixed. unfold Get. rewrite Hfault.
  cbn [op_limit].
  destruct ((0 <? loadLimit lw) && (loadLimit lw <? Z.of_nat (length (hits k))))
    eqn:Hcut; cbn [More Kvs HeaderRevision negb].
  - apply andb_true_iff in Hcut. destruct Hcut as [H0 H1].
    apply Z.ltb_lt in H0, H1. pose proof (loadLimit_not_one Hint64) as Hn1.
    destruct (firstn_split_last (Z.to_nat (loadLimit lw)) (hits k))
      as (l1 & p & l2 & Hh & Hf & Hl1 & Hl2); [lia|lia|].
    rewrite Hf.
    destruct (loadBatch_more l1 p k None u) as (e1 & u1 & ->).
    assert (He : endKey <> "").
    { intros ->. pose proof (sorted_kvs_one_key k (kvs s) Hsorted) as H1k.
      unfold rangeOf, in_range in H1. cbn [op_end op_key] in H1. cbn in H1. lia. }
    pose proof (hits_next k l1 p l2 He Hh) as Hnext.
    destruct (IH (Key p) u1) as (err & u' & calls & -> & Hput & Hget).
    { rewrite Hnext. rewrite Hh in Hlen. rewrite length_app in Hlen.
      cbn [length] in *. lia. }
    do 3 eexists. split; [reflexivity|]. split.
    + cbn [putCalls flat_map app]. fold (putCalls (map CallPut l1 ++ calls)).
      unfold putCalls at 1. rewrite flat_map_app. fold (putCalls (map CallPut l1)).
      fold (putCalls calls). rewrite putCalls_puts, Hput, Hnext. symmetry. exact Hh.
    + cbn [getCalls flat_map app]. constructor; [split; reflexivity|].
      fold (getCalls (map CallPut l1 ++ calls)).
      unfold getCalls at 1. rewrite flat_map_app. fold (getCalls (map CallPut l1)).
      fold (getCalls calls). rewrite getCalls_puts. exact Hget.
  - destruct (loadBatch_all (hits k) k None u) as (e1 & u1 & ->).
    destruct (postEventFn lw u1) as [e2 u2].
    do 3 eexists. split; [reflexivity|]. split.
    + cbn [putCalls flat_map app]. fold (putCalls (map CallPut (hits k) ++ [CallPostEvent])).
      unfold putCalls at 1. rewrite flat_map_app. fold (putCalls (map CallPut (hits k))).
      rewrite putCalls_puts. cbn. apply app_nil_r.
    + cbn [getCalls flat_map app]. constructor; [split; reflexivity|].
      fold (getCalls (map CallPut (hits k) ++ [CallPostEvent])).
      unfold getCalls at 1. rewrite flat_map_app. fold (getCalls (map CallPut (hits k))).
      rewrite getCalls_puts. cbn. constructor.
Qed.

(** X2: [load] on a range whose end does not move with the start key
    (as with [WithRange]), on a sorted store that answers: the load
    finishes, every pair of the range is
    given to [putFn] once, in key order, every request carries the limit
    of the watcher and the end of the range, and the revision returned
    is the one of the store plus one. *)
Lemma load_fixed_range (u : U) :
  exists err u' calls,
    load lw s u = Finished (int64 (Revision s + 1), err, u', calls)
    /\ putCalls calls = rangeOf s (loadOp lw (key lw))
    /\ Forall (fun op => op_limit op = loadLimit lw /\ op_end op = endKey)
         (getCalls calls).
Proof.
  rewrite Hfixed. apply loadLoop_fixed_range.
  unfold rangeOf. clear. induction (kvs s) as [|a l IH]; cbn [List.filter length].
  - lia.
  - destruct (in_range _ (Key a)); cbn [length]; lia.
Qed.

End LoadFacts.

Section LoadTotal.
Import clientv3 etcdutil.
Context {U : Type}.
Variable lw : LoopWatcher U.
Variable s : Store.
Hypothesis Hsorted : sorted_kvs (kvs s).
Hypothesis Hint64 : - 2 ^ 63 <= loadBatchSize lw < 2 ^ 63.

Lemma key_leb_empty k : key_leb "" k = true.
Proof. unfold key_leb, key_ltb. destruct k; reflexivity. Qed.

Lemma OpGet_key_leb (l : list OpOption) (k : string) :
  key_leb k (op_key (OpGet k l)) = true.
Proof.
  unfold OpGet.
  assert (H : forall op, (op_key op = k \/ k = "") ->
                         op_key (fold_left applyOpt l op) = k \/ k = "").
  { induction l as [|o l IH]; intros op Hop; [exact Hop|]. cbn [fold_left].
    apply IH. destruct o; cbn [applyOpt]; try exact Hop.
    - destruct (String.eqb (op_key op) "") eqn:E; cbn [op_key]; [|exact Hop].
      apply String.eqb_eq in E. destruct Hop as [Hop | Hop]; [rewrite <- Hop | rewrite Hop]; auto.
    - destruct (String.eqb (op_key op) "") eqn:E; cbn [op_key]; [|exact Hop].
      apply String.eqb_eq in E. destruct Hop as [Hop | Hop]; [rewrite <- Hop | rewrite Hop]; auto. }
  destruct (H (mkOp k "" 0 0)) as [Hk | Hk]; [left; reflexivity | rewrite Hk | rewrite Hk].
  - apply key_leb_refl.
  - apply key_leb_empty.
Qed.

Lemma filter_length_lt {A} (f g : A -> bool) (l : list A) (p : A) :
  (forall x, f x = true -> g x = true) ->
  In p l -> g p = true -> f p = false ->
  (length (List.filter f l) < length (List.filter g l))%nat.
Proof.
  intros Hfg. 
  assert (Hle : forall l', (length (List.filter f l') <= length (List.filter g l'))%nat).
  { induction l' as [|a l' IH]; cbn; [lia|].
    destruct (f a) eqn:E; [rewrite (Hfg a E); cbn; lia|].
    destruct (g a); cbn; lia. }
  induction l as [|a l IH]; intros Hin Hg Hf; [destruct Hin|]. cbn [List.filter].
  destruct Hin as [->|Hin].
  - rewrite Hg, Hf. cbn. specialize (Hle l). lia.
  - specialize (IH Hin Hg Hf). destruct (f a) eqn:E.
    + rewrite (Hfg a E). cbn. lia.
    + destruct (g a); cbn; lia.
Qed.

Local Abbreviation after k := (pairsAfter s k).

Lemma loadLoop_total (fuel : nat) : forall k (u : U),
  (after k < fuel)%nat -> exists r, loadLoop lw fuel s k u = Finished r.
Proof.
  induction fuel as [|fuel IH]; intros k u Hlen; [lia|].
  cbn [loadLoop]. unfold Get. destruct (fault s); [eauto|].
  set (op := loadOp lw k).
  set (hits := rangeOf s op).
  assert (Hlim : op_limit op = loadLimit lw).
  { unfold op, loadOp, OpGet. rewrite fold_left_app. reflexivity. }
  rewrite Hlim.
  destruct ((0 <? loadLimit lw) && (loadLimit lw <? Z.of_nat (length hits)))
    eqn:Hcut; cbn [More Kvs HeaderRevision negb].
  2:{ destruct (loadBatch_all lw hits k None u) as (e1 & u1 & ->).
      destruct (postEventFn lw u1) as [e2 u2]. eauto. }
  apply andb_true_iff in Hcut. destruct Hcut as [H0 H1].
  apply Z.ltb_lt in H0, H1. pose proof (loadLimit_not_one lw Hint64) as Hn1.
  destruct (firstn_split_last (Z.to_nat (loadLimit lw)) hits)
    as (l1 & p & l2 & Hh & Hf & Hl1 & Hl2); [lia|lia|].
  rewrite Hf.
  destruct (loadBatch_more lw l1 p k None u) as (e1 & u1 & ->).
  destruct l1 as [|a l1]; [cbn in Hl1; lia|].
  assert (Hhs : sorted_kvs hits) by (apply sorted_kvs_filter; exact Hsorted).
  assert (Hap : key_ltb (Key a) (Key p) = true).
  { rewrite Hh in Hhs. cbn [app] in Hhs. inversion Hhs as [|? ? _ Hall]; subst.
    rewrite List.Forall_forall in Hall. apply Hall. apply in_elt. }
  assert (Hend : String.eqb (op_end op) "" = false).
  { destruct (String.eqb (op_end op) "") eqn:E; [|reflexivity].
    pose proof (sorted_kvs_one_key (op_key op) (kvs s) Hsorted) as H1k.
    unfold hits, rangeOf, in_range in H1. rewrite E in H1. cbn in H1. lia. }
  assert (Hka : key_leb k (Key a) = true).
  { assert (Hin : In a hits) by (rewrite Hh; left; reflexivity).
    apply List.filter_In in Hin. destruct Hin as [_ Hin].
    unfold in_range in Hin. rewrite Hend in Hin.
    apply andb_true_iff in Hin. destruct Hin as [Hin _].
    eapply key_leb_trans; [|exact Hin]. apply OpGet_key_leb. }
  assert (Hkp : key_ltb k (Key p) = true).
  { destruct (key_leb_cases _ _ Hka) as [->|L]; [exact Hap|].
    eapply key_ltb_trans; eauto. }
  destruct (IH (Key p) u1) as [[[[r e] u2] calls] ->]; [|eauto].
  assert (Hlt : (after (Key p) < after k)%nat).
  { unfold pairsAfter. apply (filter_length_lt _ _ _ p).
    - intros x Hx. eapply key_ltb_trans; eauto.
    - assert (Hin : In p hits) by (rewrite Hh; apply in_elt).
      apply List.filter_In in Hin. tauto.
    - exact Hkp.
    - apply key_ltb_irrefl. }
  lia.
Qed.

(** X1: on a sorted store, [load] returns, whatever the options of the
    watcher, the batch size and the faults of the store: every request
    after the first starts at a key above the one before. *)
Lemma load_total (u : U) : exists r, load lw s u = Finished r.
Proof.
  apply loadLoop_total. unfold pairsAfter. clear.
  induction (kvs s) as [|a l IH]; cbn [List.filter length]; [lia|].
  destruct (key_ltb (key lw) (Key a)); cbn [length]; lia.
Qed.

End LoadTotal.

Section LoadInstances.
Import clientv3 etcdutil WatcherExamples.

(** C5: the watcher follows the prefix [k] with one pair per batch and
    the store holds [k0], [k1] and [k2], all three in the range of the
    prefix. The first request asks for two pairs from [k] to [l], and is
    told that more remain; [k0] is put and [k1] is the next start key.
    The second request is made for the prefix [k1], from [k1] to [k2]:
    it finds [k1] alone and nothing more, so the load ends, at revision
    8, and [k2] has never been given to [putFn]. *)
Theorem load_with_prefix_skips_keys :
  rangeOf store3 (loadOp prefixWatcher "k") = kvs store3
  /\ load prefixWatcher store3 []
     = Finished (8, None, ["k0"; "k1"],
         [CallGet (mkOp "k" "l" 2 0);
          CallPut (mkKV "k0" "a" 1);
          CallGet (mkOp "k1" "k2" 2 0);
          CallPut (mkKV "k1" "b" 2);
          CallPostEvent]).
Proof. split; vm_compute; reflexivity. Qed.

(** The same store read through the range from [k] to [l]: every pair
    is put once. *)
Lemma load_fixed_range_witness :
  exists err u calls,
    load rangeWatcher store3 [] = Finished (8, err, u, calls)
    /\ putCalls calls = kvs store3.
Proof.
  destruct (load_fixed_range rangeWatcher store3 "l" 0) with (u := @nil string)
    as (err & u' & calls & Hl & Hp & _).
  - reflexivity.
  - unfold sorted_kvs. repeat constructor.
  - vm_compute. split; [discriminate | reflexivity].
  - intros startKey. reflexivity.
  - exists err, u', calls. split; [exact Hl|]. rewrite Hp. vm_compute. reflexivity.
Defined.

End LoadInstances.

(** ** The check of the proxy test *)

Section VerifyFacts.
Import proxy_test.
Variable AddLogical : Z -> Z -> Z -> Z.
Variable TSLessEqual : Z -> Z -> Z -> Z -> bool.

Lemma verifyLoop_app (l1 l2 : list (Z * tsopb.TsoResponse)) (a b : Z) :
  verifyLoop AddLogical TSLessEqual (l1 ++ l2) a b
  = verifyLoop AddLogical TSLessEqual l1 a b
    && verifyLoop AddLogical TSLessEqual l2 a b.
Proof.
  induction l1 as [|[n r] l1 IH]; cbn [verifyLoop app]; [reflexivity|].
  rewrite IH. apply andb_assoc.
Qed.

(** X27: the loop of [verifyTSOProxy] compares every response with the
    pair (0, 0) it starts from, never with the response before: a stream of
    responses passes if and only if the same responses pass in the
    opposite order. *)
Remark verifyStream_order_blind (exchanges : list (Z * tsopb.TsoResponse)) :
  verifyStream AddLogical TSLessEqual (rev exchanges)
  = verifyStream AddLogical TSLessEqual exchanges.
Proof.
  unfold verifyStream. induction exchanges as [|[n r] l IH]; [reflexivity|].
  cbn [rev]. rewrite verifyLoop_app, IH. cbn [verifyLoop].
  rewrite andb_true_r. apply andb_comm.
Qed.

End VerifyFacts.

(** ** Force load *)

Section ForceLoadFacts.
Import etcdutil.
Context {U : Type}.

Lemma tooSoon_later (lw : LoopWatcher U) (now now' : Z) :
  now <= now' -> tooSoon lw now = false -> tooSoon lw now' = false.
Proof. unfold tooSoon. intros H. rewrite !Z.ltb_ge. lia. Qed.

Lemma forceLoadStep_inv i (s s' : forceLoadSys U) :
  forceLoadStep i s s' -> forceLoadInv s -> forceLoadInv s'.
Proof.
  intros Hstep (Hc & Ha & Hs).
  destruct Hstep as [s now Hpc Hnow | s now now' Hpc Hnow Hnow' Hrej
                    | s now now' lw' Hpc Hnow Hnow' Hadm | s Hpc];
    unfold forceLoadInv; cbn [watcher clock admitted].
  - repeat split; auto. lia.
  - repeat split; auto. lia.
  - unfold forceLoadAdmit in Hadm.
    destruct (tooSoon (watcher s) now) eqn:Ht; [discriminate|].
    injection Hadm as <-. cbn. unfold tooSoon in Ht. apply Z.ltb_ge in Ht.
    repeat split; auto.
    + lia.
    + intros t [<-|Hin]; [lia|]. specialize (Ha t Hin). lia.
    + intros t Hin. specialize (Ha t Hin). lia.
  - unfold forceLoadSend. destruct (forceLoadCh (watcher s) <? 1)%nat; cbn; auto.
Qed.

Lemma sysSteps_inv (s s' : forceLoadSys U) :
  sysSteps s s' -> forceLoadInv s -> forceLoadInv s'.
Proof.
  induction 1 as [s | s1 s2 s3 _ IH Hstep]; [auto|]. intros Hi.
  specialize (IH Hi). destruct Hstep as [i s s' Hs | s | s].
  - eapply forceLoadStep_inv; eauto.
  - exact IH.
  - exact IH.
Qed.

(** C8: [ForceLoad] never waits: it is a total function of the watcher
    and the clock, its send leaves a full channel as it is, and among
    calls running at the same time every call that has not returned can
    take its next step in every state. A call whose check reads a clock
    less than 200 ms after [lastTimeForceLoad] returns and leaves the
    watcher, with [lastTimeForceLoad] and [forceLoadCh], as it was; this
    holds for a call run alone and, at both checks, for calls running at
    the same time. Hence, whatever the calls do from a fresh watcher,
    any two admitted force loads are at least 200 ms apart. *)
Theorem ForceLoad_minimal_interval (lw : LoopWatcher U) :
  (forall t1 t2 t3,
     t1 - lastTimeForceLoad lw < 200000000 -> ForceLoad lw t1 t2 t3 = lw)
  /\ (forceLoadCh lw = 1%nat -> forceLoadSend lw = lw)
  /\ (forall (s : forceLoadSys U) i pc,
       calls s !! i = Some pc -> pc <> HasReturned ->
       exists s', forceLoadStep i s s')
  /\ (forall (s s' : forceLoadSys U) i,
       forceLoadStep i s s' ->
       calls s !! i = Some AtReadLock \/ calls s !! i = Some AtWriteLock ->
       clock s' - lastTimeForceLoad (watcher s) < 200000000 ->
       watcher s' = watcher s /\ admitted s' = admitted s
       /\ calls s' = <[i := HasReturned]> (calls s))
  /\ (forall s : forceLoadSys U,
       sysSteps (sysInit lw) s ->
       spaced (admitted s)
       /\ forall t t', In t (admitted s) -> In t' (admitted s) ->
                       t = t' \/ 200000000 <= Z.abs (t - t')).
Proof.
  change 200000000 with defaultForceLoadMinimalInterval.
  split; [|split; [|split; [|split]]].
  - intros t1 t2 t3 H. unfold ForceLoad, tooSoon.
    apply Z.ltb_lt in H. rewrite H. reflexivity.
  - intros H. unfold forceLoadSend. rewrite H. reflexivity.
  - intros s i pc Hpc Hne. destruct pc; [| | |done].
    + eexists. apply (step_read_lock i s (clock s)); [done|lia].
    + destruct (forceLoadAdmit (watcher s) (clock s) (clock s)) as [lw'|] eqn:Ha.
      * eexists. eapply (step_write_lock_admit i s (clock s) (clock s)); eauto; lia.
      * eexists. eapply (step_write_lock_reject i s (clock s) (clock s)); eauto; lia.
    + eexists. apply (step_send i s). done.
  - intros s s' i Hstep Hpc Hsoon.
    destruct Hstep as [s now Hp Hnow | s now now' Hp Hnow Hnow' Hrej
                      | s now now' lw' Hp Hnow Hnow' Hadm | s Hp];
      cbn [watcher clock admitted calls] in *.
    + unfold tooSoon. apply Z.ltb_lt in Hsoon. rewrite Hsoon. done.
    + done.
    + unfold forceLoadAdmit in Hadm.
      destruct (tooSoon (watcher s) now) eqn:Ht; [discriminate|].
      apply (tooSoon_later _ _ _ Hnow') in Ht. unfold tooSoon in Ht.
      apply Z.ltb_ge in Ht. lia.
    + destruct Hpc as [Hpc|Hpc]; rewrite Hp in Hpc; discriminate.
  - intros s Hsteps.
    assert (Hinv : forceLoadInv s).
    { eapply sysSteps_inv; [exact Hsteps|].
      unfold forceLoadInv, sysInit. cbn. repeat split; [lia|tauto]. }
    destruct Hinv as (_ & _ & Hsp). split; [exact Hsp|].
    clear Hsteps. induction (admitted s) as [|a l IH]; [intros ? ? []|].
    destruct Hsp as [Ha Hl]. intros t t' [<-|Ht] [<-|Ht'].
    + by left.
    + right. specialize (Ha t' Ht'). lia.
    + right. specialize (Ha t Ht). lia.
    + apply IH; auto.
Qed.

End ForceLoadFacts.

Section ForceLoadInstances.
Import etcdutil WatcherExamples.

Lemma ForceLoad_minimal_interval_witness :
  ForceLoad rangeWatcher 150000000 150000001 150000002 = rangeWatcher
  /\ spaced
       (admitted (mkSys (setForceLoad rangeWatcher 300000000 0) 300000000
                    [AtSend] [300000000])).
Proof.
  pose proof (ForceLoad_minimal_interval rangeWatcher) as (H1 & _ & _ & _ & H5).
  split.
  - apply H1. vm_compute. reflexivity.
  - apply H5.
    eapply steps_snoc; [eapply steps_snoc; [eapply steps_snoc; [apply steps_refl|]|]|].
    + apply sys_spawn.
    + eapply sys_call. refine (step_read_lock 0%nat _ 250000000 _ _).
      * reflexivity.
      * vm_compute. discriminate.
    + eapply sys_call.
      refine (step_write_lock_admit 0%nat _ 260000000 300000000 _ _ _ _ _).
      * reflexivity.
      * vm_compute. discriminate.
      * vm_compute. discriminate.
      * reflexivity.
Defined.

End ForceLoadInstances.

(** * Further properties *)

(** ** Loading: one request, errors, revisions *)

Section LoadMore.
Import clientv3 etcdutil watcher_calls.
Context {U : Type}.
Variable lw : LoopWatcher U.

Lemma loadOp_limit (k : string) : op_limit (loadOp lw k) = loadLimit lw.
Proof. unfold loadOp, OpGet. rewrite fold_left_app. reflexivity. Qed.

(** X3: when no limit applies (the limit is zero or less, as with a
    batch size of 0) or the range of the watched key holds no more pairs
    than the limit, [load] makes one request, whatever the options of
    the watcher: every pair of the range is put once in key order,
    [postEventFn] runs once, and the revision of the store plus one is
    returned. *)
Theorem load_single_request (s : Store) (u : U) :
  fault s = None ->
  loadLimit lw <= 0
  \/ Z.of_nat (length (rangeOf s (loadOp lw (key lw)))) <= loadLimit lw ->
  exists err u',
    load lw s u
    = Finished (int64 (Revision s + 1), err, u',
                CallGet (loadOp lw (key lw))
                  :: map CallPut (rangeOf s (loadOp lw (key lw)))
                  ++ [CallPostEvent]).
Proof.
  intros Hf Hfit. unfold load. cbn [loadLoop]. unfold Get. rewrite Hf.
  rewrite loadOp_limit.
  assert (Hcut : (0 <? loadLimit lw)
                 && (loadLimit lw <? Z.of_nat (length (rangeOf s (loadOp lw (key lw)))))
                 = false).
  { apply andb_false_iff. rewrite Z.ltb_ge, Z.ltb_ge. tauto. }
  rewrite Hcut. cbn [More Kvs HeaderRevision negb].
  destruct (loadBatch_all lw (rangeOf s (loadOp lw (key lw))) (key lw) None u)
    as (e1 & u1 & ->).
  destruct (postEventFn lw u1) as [e2 u2]. eauto.
Qed.

End LoadMore.

Section LoadLastError.
Import clientv3 etcdutil watcher_calls.
Context {U : Type}.
Variable lw : LoopWatcher U.
Variable s : Store.
Variable endKey : string.
Variable rev : Z.
Variable putErr : KeyValue -> option error.
Hypothesis Hfault : fault s = None.
Hypothesis Hsorted : sorted_kvs (kvs s).
Hypothesis Hint64 : - 2 ^ 63 <= loadBatchSize lw < 2 ^ 63.
Hypothesis Hfixed :
  forall startKey, loadOp lw startKey = mkOp startKey endKey (loadLimit lw) rev.
Hypothesis HputErr : forall kv u, fst (putFn lw kv u) = putErr kv.

Local Abbreviation hits k := (rangeOf s (mkOp k endKey (loadLimit lw) rev)).

Lemma lastPair_app (l1 : list KeyValue) p l2 :
  lastPair (l1 ++ p :: l2) = lastPair (p :: l2).
Proof.
  induction l1 as [|a l1 IH]; [reflexivity|].
  change ((a :: l1) ++ p :: l2) with (a :: (l1 ++ p :: l2)).
  destruct (l1 ++ p :: l2) as [|b t] eqn:E; [destruct l1; discriminate|].
  exact IH.
Qed.

Lemma lastPair_some (b : KeyValue) items :
  exists kv, lastPair (b :: items) = Some kv.
Proof.
  revert b. induction items as [|c items IH]; intros b; [cbn; eauto|].
  destruct (IH c) as [kv Hkv]. exists kv. exact Hkv.
Qed.

Lemma loadBatch_all_err items : forall startKey err (u : U),
  exists u',
    loadBatch lw false items startKey err u
    = (startKey,
       match lastPair items with Some kv => putErr kv | None => err end,
       u', map CallPut items).
Proof.
  induction items as [|a items IH]; intros startKey err u; cbn [loadBatch andb].
  - eauto.
  - pose proof (HputErr a u) as Ha. destruct (putFn lw a u) as [e u1].
    cbn [fst] in Ha. subst e.
    destruct (IH startKey (putErr a) u1) as (u' & Heq). rewrite Heq.
    exists u'. destruct items as [|b items]; [reflexivity|].
    destruct (lastPair_some b items) as [kv Hkv].
    change (lastPair (a :: b :: items)) with (lastPair (b :: items)).
    rewrite Hkv. reflexivity.
Qed.

Lemma loadLoop_last_error (fuel : nat) : forall k (u : U),
  (length (hits k) < fuel)%nat ->
  exists u' calls,
    loadLoop lw fuel s k u
    = Finished (int64 (Revision s + 1),
                match lastPair (hits k) with Some kv => putErr kv | None => None end,
                u', calls).
Proof.
  induction fuel as [|fuel IH]; intros k u Hlen; [lia|].
  cbn [loadLoop]. rewrite Hfixed. unfold Get. rewrite Hfault. cbn [op_limit].
  destruct ((0 <? loadLimit lw) && (loadLimit lw <? Z.of_nat (length (hits k))))
    eqn:Hcut; cbn [More Kvs HeaderRevision negb].
  - apply andb_true_iff in Hcut. destruct Hcut as [H0 H1].
    apply Z.ltb_lt in H0, H1. pose proof (loadLimit_not_one lw Hint64) as Hn1.
    destruct (firstn_split_last (Z.to_nat (loadLimit lw)) (hits k))
      as (l1 & p & l2 & Hh & Hf & Hl1 & Hl2); [lia|lia|].
    rewrite Hf.
    destruct (loadBatch_more lw l1 p k None u) as (e1 & u1 & ->).
    assert (He : endKey <> "").
    { intros ->. pose proof (sorted_kvs_one_key k (kvs s) Hsorted) as H1k.
      unfold rangeOf, in_range in H1. cbn [op_end op_key] in H1. cbn in H1. lia. }
    pose proof (hits_next lw s endKey rev Hsorted Hint64 k l1 p l2 He Hh) as Hnext.
    destruct (IH (Key p) u1) as (u' & calls & ->).
    { rewrite Hnext. rewrite Hh in Hlen. rewrite length_app in Hlen.
      cbn [length] in *. lia. }
    rewrite Hnext, Hh, lastPair_app. eauto.
  - destruct (loadBatch_all_err (hits k) k None u) as (u1 & ->).
    destruct (postEventFn lw u1) as [e2 u2]. eauto.
Qed.

(** X4: on a range whose end does not move with the start key, and with
    a [putFn] whose error depends on the pair alone, the error [load]
    returns is the one [putFn] gives for the last pair of the range (no
    error on an empty range): what [putFn] returned for every other pair
    is logged and dropped. *)
Theorem load_reports_last_put (u : U) :
  exists u' calls,
    load lw s u
    = Finished (int64 (Revision s + 1),
                match lastPair (rangeOf s (loadOp lw (key lw))) with
                | Some kv => putErr kv
                | None => None
                end, u', calls).
Proof.
  rewrite Hfixed. apply loadLoop_last_error.
  unfold rangeOf. clear. induction (kvs s) as [|a l IH]; cbn [List.filter length].
  - lia.
  - destruct (in_range _ (Key a)); cbn [length]; lia.
Qed.

End LoadLastError.

Section LoadRevision.
Import clientv3 etcdutil watcher_calls.
Context {U : Type}.
Variable lw : LoopWatcher U.
Variable s : Store.
Hypothesis Hsorted : sorted_kvs (kvs s).
Hypothesis Hint64 : - 2 ^ 63 <= loadBatchSize lw < 2 ^ 63.




End LoadRevision.

Section LoadMoreInstances.
Import clientv3 etcdutil watcher_calls WatcherExamples WatcherExamples2.

Lemma store3_sorted : sorted_kvs (kvs store3).
Proof. unfold sorted_kvs. repeat constructor. Qed.

Lemma load_total_witness : exists r, load prefixWatcher store3 [] = Finished r.
Proof.
  apply (load_total prefixWatcher store3 store3_sorted).
  vm_compute. split; [discriminate | reflexivity].
Defined.

Lemma load_single_request_witness :
  exists err u',
    load unbatchedWatcher store3 []
    = Finished (8, err, u',
                [CallGet (mkOp "k" "l" 0 0);
                 CallPut (mkKV "k0" "a" 1);
                 CallPut (mkKV "k1" "b" 2);
                 CallPut (mkKV "k2" "c" 3);
                 CallPostEvent]).
Proof.
  apply (load_single_request unbatchedWatcher store3 []).
  - reflexivity.
  - left. vm_compute. discriminate.
Defined.

Lemma load_reports_last_put_witness :
  exists u' calls, load pickyWatcher store3 [] = Finished (8, None, u', calls).
Proof.
  apply (load_reports_last_put pickyWatcher store3 "l" 0 refusal).
  - reflexivity.
  - exact store3_sorted.
  - vm_compute. split; [discriminate | reflexivity].
  - intros startKey. reflexivity.
  - intros kv u. reflexivity.
Defined.


End LoadMoreInstances.

(** ** The first load and the watch loop *)

Section WatchMore.
Import clientv3 etcdutil watcher_calls.
Context {U : Type}.
Variable lw : LoopWatcher U.

Lemma isLoadedCalls_app (l1 l2 : list Call) :
  isLoadedCalls (l1 ++ l2) = isLoadedCalls l1 ++ isLoadedCalls l2.
Proof. unfold isLoadedCalls. apply flat_map_app. Qed.

Lemma loadBatch_isLoaded more items : forall startKey err (u : U) k e u' calls,
  loadBatch lw more items startKey err u = (k, e, u', calls) ->
  isLoadedCalls calls = [].
Proof.
  induction items as [|a items IH]; intros startKey err u k e u' calls H;
    cbn [loadBatch] in H.
  - inversion H. reflexivity.
  - destruct (more && match items with [] => true | _ :: _ => false end).
    + eapply IH. exact H.
    + destruct (putFn lw a u) as [e1 u1].
      destruct (loadBatch lw more items startKey e1 u1) as [[[k2 e2] u2] c2] eqn:E.
      inversion H; subst. cbn. eapply IH. exact E.
Qed.

Lemma loadLoop_isLoaded (fuel : nat) : forall s k (u : U) r e u' calls,
  loadLoop lw fuel s k u = Finished (r, e, u', calls) ->
  isLoadedCalls calls = [].
Proof.
  induction fuel as [|fuel IH]; intros s k u r e u' calls H; [discriminate|].
  cbn [loadLoop] in H. destruct (Get s (loadOp lw k)) as [resp|e0].
  - destruct (loadBatch lw (More resp) (Kvs resp) k None u)
      as [[[k1 e1] u1] c1] eqn:E.
    pose proof (loadBatch_isLoaded _ _ _ _ _ _ _ _ _ E) as Hc1.
    destruct (negb (More resp)).
    + destruct (postEventFn lw u1) as [e2 u2]. inversion H; subst.
      cbn. rewrite isLoadedCalls_app, Hc1. reflexivity.
    + destruct (loadLoop lw fuel s k1 u1) as [[[[r2 e2] u2] c2]|] eqn:E2;
        [|discriminate].
      inversion H; subst. cbn. rewrite isLoadedCalls_app, Hc1.
      eapply IH. exact E2.
  - inversion H. reflexivity.
Qed.

Lemma initLoop_signals_once (times : nat) :
  forall attempts rev0 err0 (u : U) rev u' calls,
  initLoop lw times attempts rev0 err0 u = Finished (rev, u', calls) ->
  exists pre err, calls = pre ++ [CallIsLoaded err] /\ isLoadedCalls pre = [].
Proof.
  induction times as [|times IH]; intros attempts rev0 err0 u rev u' calls H;
    cbn [initLoop] in H.
  - inversion H. exists [], err0. auto.
  - destruct attempts as [|[s ctxDone] attempts]; [discriminate|].
    destruct (load lw s u) as [[[[r e] u1] c1]|] eqn:El; [|discriminate].
    pose proof (loadLoop_isLoaded _ _ _ _ _ _ _ _ El) as Hc1.
    destruct e as [e|].
    + destruct ctxDone.
      * inversion H. eauto.
      * destruct (initLoop lw times attempts r (Some e) u1)
          as [[[r2 u2] c2]|] eqn:E2; [|discriminate].
        inversion H; subst.
        destruct (IH _ _ _ _ _ _ _ E2) as (pre & err & -> & Hpre).
        exists (c1 ++ pre), err. rewrite app_assoc. split; [reflexivity|].
        rewrite isLoadedCalls_app, Hc1, Hpre. reflexivity.
    + inversion H. eauto.
Qed.

Lemma load_returns (s : Store) (u : U) :
  sorted_kvs (kvs s) -> - 2 ^ 63 <= loadBatchSize lw < 2 ^ 63 ->
  exists r, load lw s u = Finished r.
Proof.
  intros Hs Hb. apply loadLoop_total; [exact Hs|exact Hb|].
  unfold pairsAfter. clear.
  induction (kvs s) as [|a l IH]; cbn [List.filter length]; [lia|].
  destruct (key_ltb (key lw) (Key a)); cbn [length]; lia.
Qed.

Lemma initLoop_returns (times : nat) :
  - 2 ^ 63 <= loadBatchSize lw < 2 ^ 63 ->
  forall attempts rev0 err0 (u : U),
  Forall (fun a => sorted_kvs (kvs (fst a))) attempts ->
  (times <= length attempts)%nat ->
  exists r, initLoop lw times attempts rev0 err0 u = Finished r.
Proof.
  intros Hb. induction times as [|times IH]; intros attempts rev0 err0 u Hs Hl;
    cbn [initLoop]; [eauto|].
  destruct attempts as [|[s ctxDone] attempts]; [cbn in Hl; lia|].
  inversion Hs as [|? ? Hs1 Hs2]; subst. cbn [fst] in Hs1.
  destruct (load_returns s u Hs1 Hb) as [[[[r e] u1] c1] ->].
  destruct e as [e|]; [|eauto]. destruct ctxDone; [eauto|].
  destruct (IH attempts r (Some e) u1 Hs2) as [[[r2 u2] c2] ->];
    [cbn in Hl; lia|eauto].
Qed.

(** X6: [initFromEtcd] returns, given a sorted store for each of the
    [loadRetryTimes] tries it can make, and whenever it returns it has
    sent on [isLoadedCh] exactly once, as the last thing it did. With
    [loadRetryTimes] zero or less it makes no request at all: it sends
    a nil error and returns revision 0. *)
Theorem initFromEtcd_signals_once (attempts : list (Store * bool)) (u : U) :
  (loadRetryTimes lw <= 0 ->
   initFromEtcd lw attempts u = Finished (0, u, [CallIsLoaded None]))
  /\ (- 2 ^ 63 <= loadBatchSize lw < 2 ^ 63 ->
      Forall (fun a => sorted_kvs (kvs (fst a))) attempts ->
      (Z.to_nat (loadRetryTimes lw) <= length attempts)%nat ->
      exists rev u' pre err,
        initFromEtcd lw attempts u
        = Finished (rev, u', pre ++ [CallIsLoaded err])
        /\ isLoadedCalls pre = [])
  /\ forall rev u' calls,
       initFromEtcd lw attempts u = Finished (rev, u', calls) ->
       (exists pre err,
          calls = pre ++ [CallIsLoaded err] /\ isLoadedCalls pre = [])
       /\ length (isLoadedCalls calls) = 1%nat.
Proof.
  unfold initFromEtcd. split; [|split].
  - intros Hn. replace (Z.to_nat (loadRetryTimes lw)) with O by lia.
    reflexivity.
  - intros Hb Hs Hl.
    destruct (initLoop_returns _ Hb attempts 0 None u Hs Hl)
      as [[[rev u'] calls] H].
    destruct (initLoop_signals_once _ _ _ _ _ _ _ _ H) as (pre & err & -> & Hp).
    exists rev, u', pre, err. split; [exact H|exact Hp].
  - intros rev u' calls H.
    destruct (initLoop_signals_once _ _ _ _ _ _ _ _ H) as (pre & err & Hc & Hpre).
    split; [eauto|]. rewrite Hc, isLoadedCalls_app, Hpre. reflexivity.
Qed.

Lemma callbackCalls_app (l1 l2 : list Call) :
  callbackCalls (l1 ++ l2) = callbackCalls l1 ++ callbackCalls l2.
Proof. unfold callbackCalls. apply List.filter_app. Qed.

Lemma postEventCalls_app (l1 l2 : list Call) :
  postEventCalls (l1 ++ l2) = (postEventCalls l1 + postEventCalls l2)%nat.
Proof. unfold postEventCalls. rewrite List.filter_app. apply length_app. Qed.

Lemma handleEvents_calls events : forall (u : U),
  snd (handleEvents lw events u) = map eventCall events.
Proof.
  induction events as [|ev events IH]; intros u; [reflexivity|].
  cbn [handleEvents map]. unfold eventCall at 1. destruct (Type_ ev).
  - destruct (putFn lw (Kv ev) u) as [e u1]. specialize (IH u1).
    destruct (handleEvents lw events u1) as [u2 c2]. cbn in *. by rewrite IH.
  - destruct (deleteFn lw (Kv ev) u) as [e u1]. specialize (IH u1).
    destruct (handleEvents lw events u1) as [u2 c2]. cbn in *. by rewrite IH.
Qed.

Lemma eventCalls_callbacks events :
  callbackCalls (map eventCall events) = map eventCall events
  /\ postEventCalls (map eventCall events) = 0%nat.
Proof.
  induction events as [|ev events [IH1 IH2]]; [split; reflexivity|].
  unfold callbackCalls, postEventCalls in *. cbn [map List.filter].
  assert (Hk : (exists kv, eventCall ev = CallPut kv)
               \/ (exists kv, eventCall ev = CallDelete kv)).
  { unfold eventCall. destruct (Type_ ev); eauto. }
  destruct Hk as [[kv ->]|[kv ->]]; cbn [length]; rewrite IH1; auto.
Qed.

(** X7: while the watch channel delivers responses that are neither
    compactions nor errors, [watch] hands every event to [putFn] or
    [deleteFn] once, in the order received, runs [postEventFn] once per
    response, and moves to the revision of the last response plus one;
    when the context is done it returns that revision and no error. *)
Theorem watch_delivers_events (resps : list WatchResponse) :
  forall (revision : Z) (u : U),
  Forall ordinary resps ->
  exists u' calls,
    watch lw revision (map WatchChan resps ++ [CtxDone]) u
    = Finished (WatchReturned (revisionAfter revision resps) None, u', calls)
    /\ callbackCalls calls = flat_map (fun r => map eventCall (Events r)) resps
    /\ postEventCalls calls = length resps.
Proof.
  induction resps as [|wresp resps IH]; intros revision u Hord.
  - cbn. eauto.
  - inversion Hord as [|? ? [Hc He] Hrest]; subst.
    cbn [map app watch]. rewrite Hc. change (0 =? 0) with true. cbn [negb].
    rewrite He.
    pose proof (handleEvents_calls (Events wresp) u) as Hev.
    destruct (handleEvents lw (Events wresp) u) as [u1 c1]. cbn [snd] in Hev.
    subst c1. destruct (postEventFn lw u1) as [e2 u2].
    destruct (IH (int64 (WHeaderRevision wresp + 1)) u2 Hrest)
      as (u' & calls & -> & Hcb & Hpe).
    do 2 eexists. split; [reflexivity|].
    destruct (eventCalls_callbacks (Events wresp)) as [H1 H2]. split.
    + cbn [flat_map].
      change (CallWatch (key lw) revision
                :: map eventCall (Events wresp)
                ++ CallPostEvent :: CallCancelWatch :: calls)
        with ([CallWatch (key lw) revision]
                ++ map eventCall (Events wresp)
                ++ [CallPostEvent; CallCancelWatch] ++ calls).
      rewrite !callbackCalls_app, H1, Hcb. reflexivity.
    + change (CallWatch (key lw) revision
                :: map eventCall (Events wresp)
                ++ CallPostEvent :: CallCancelWatch :: calls)
        with ([CallWatch (key lw) revision]
                ++ map eventCall (Events wresp)
                ++ [CallPostEvent; CallCancelWatch] ++ calls).
      rewrite !postEventCalls_app, H2, Hpe. reflexivity.
Qed.

End WatchMore.

Section WatchMoreInstances.
Import clientv3 etcdutil watcher_calls WatcherExamples WatcherExamples2.

Lemma initFromEtcd_signals_once_witness :
  exists rev u' pre err,
    initFromEtcd rangeWatcher (repeat (store3, false) 150) []
    = Finished (rev, u', pre ++ [CallIsLoaded err])
    /\ isLoadedCalls pre = [].
Proof.
  apply (initFromEtcd_signals_once rangeWatcher (repeat (store3, false) 150) []).
  - vm_compute. split; [discriminate | reflexivity].
  - apply List.Forall_forall. intros a Ha. apply repeat_spec in Ha. subst a.
    exact store3_sorted.
  - vm_compute. lia.
Defined.

Lemma watch_delivers_events_witness :
  exists u' calls,
    watch rangeWatcher 8 [WatchChan putK3; WatchChan delK0; CtxDone] []
    = Finished (WatchReturned 10 None, u', calls)
    /\ callbackCalls calls
       = [CallPut (mkKV "k3" "d" 8); CallDelete (mkKV "k0" "" 9)]
    /\ postEventCalls calls = 2%nat.
Proof.
  apply (watch_delivers_events rangeWatcher [putK3; delK0] 8 []).
  repeat constructor.
Defined.

End WatchMoreInstances.

(** ** Force load: the signal channel *)

Section ForceLoadMore.
Import etcdutil.
Context {U : Type}.

Lemma forceLoadStep_ch i (s s' : forceLoadSys U) :
  forceLoadStep i s s' ->
  (forceLoadCh (watcher s) <= 1)%nat -> (forceLoadCh (watcher s') <= 1)%nat.
Proof.
  intros Hstep Hc.
  destruct Hstep as [s now Hpc Hnow | s now now' Hpc Hnow Hnow' Hrej
                    | s now now' lw' Hpc Hnow Hnow' Hadm | s Hpc];
    cbn [watcher]; auto.
  - unfold forceLoadAdmit in Hadm.
    destruct (tooSoon (watcher s) now); [discriminate|].
    injection Hadm as <-. exact Hc.
  - unfold forceLoadSend. destruct (forceLoadCh (watcher s) <? 1)%nat eqn:E.
    + apply Nat.ltb_lt in E. cbn. lia.
    + exact Hc.
Qed.

(** X8: the force-load channel never holds more than one signal,
    whatever calls of [ForceLoad] run at the same time and whenever the
    watch loop takes the signal out. A call run alone at least 200 ms
    after [lastTimeForceLoad] is admitted: it stores the time it read
    last and leaves one signal in the channel, and a further call that
    starts less than 200 ms after that time changes nothing. *)
Theorem forceLoadCh_at_most_one (lw : LoopWatcher U) :
  (forceLoadCh lw <= 1)%nat ->
  (forall s : forceLoadSys U,
     sysSteps (sysInit lw) s -> (forceLoadCh (watcher s) <= 1)%nat)
  /\ (forall t1 t2 t3,
      200000000 <= t1 - lastTimeForceLoad lw -> t1 <= t2 ->
      lastTimeForceLoad (ForceLoad lw t1 t2 t3) = t3
      /\ forceLoadCh (ForceLoad lw t1 t2 t3) = 1%nat
      /\ forall t1' t2' t3',
           t1' - t3 < 200000000 ->
           ForceLoad (ForceLoad lw t1 t2 t3) t1' t2' t3' = ForceLoad lw t1 t2 t3).
Proof.
  change 200000000 with defaultForceLoadMinimalInterval. intros Hc. split.
  - intros s Hsteps. remember (sysInit lw) as s0 eqn:Hs0.
    induction Hsteps as [s | s1 s2 s3 _ IH Hstep]; [subst; exact Hc|].
    specialize (IH Hs0). destruct Hstep as [i s s' Hs | s | s]; cbn [watcher].
    + eapply forceLoadStep_ch; eauto.
    + exact IH.
    + cbn. lia.
  - intros t1 t2 t3 H1 H12.
    assert (Hf : ForceLoad lw t1 t2 t3
                 = forceLoadSend (setForceLoad lw t3 (forceLoadCh lw))).
    { unfold ForceLoad, forceLoadAdmit, tooSoon.
      replace (t1 - lastTimeForceLoad lw <? defaultForceLoadMinimalInterval)
        with false by (symmetry; apply Z.ltb_ge; lia).
      replace (t2 - lastTimeForceLoad lw <? defaultForceLoadMinimalInterval)
        with false by (symmetry; apply Z.ltb_ge; lia).
      reflexivity. }
    assert (Hl : lastTimeForceLoad (ForceLoad lw t1 t2 t3) = t3).
    { rewrite Hf. unfold forceLoadSend. cbn [forceLoadCh setForceLoad].
      destruct (forceLoadCh lw <? 1)%nat; reflexivity. }
    split; [exact Hl|]. split.
    + rewrite Hf. unfold forceLoadSend. cbn [forceLoadCh setForceLoad].
      destruct (forceLoadCh lw <? 1)%nat eqn:E; cbn.
      * apply Nat.ltb_lt in E. lia.
      * apply Nat.ltb_ge in E. lia.
    + intros t1' t2' t3' Hsoon. unfold ForceLoad at 1. unfold tooSoon.
      rewrite Hl. apply Z.ltb_lt in Hsoon. rewrite Hsoon. reflexivity.
Qed.

End ForceLoadMore.

Section ForceLoadMoreInstances.
Import etcdutil WatcherExamples.

Lemma forceLoadCh_at_most_one_witness :
  lastTimeForceLoad (ForceLoad rangeWatcher 250000000 260000000 300000000)
  = 300000000
  /\ forceLoadCh (ForceLoad rangeWatcher 250000000 260000000 300000000) = 1%nat.
Proof.
  pose proof (forceLoadCh_at_most_one rangeWatcher) as H.
  destruct H as [_ H]; [vm_compute; lia|].
  destruct (H 250000000 260000000 300000000) as (H1 & H2 & _).
  - vm_compute. discriminate.
  - vm_compute. discriminate.
  - split; assumption.
Defined.

End ForceLoadMoreInstances.

(** ** The TSO client: connections and primary *)

Section EndpointFacts.
Import tsopb tso_client tso_endpoints Examples EndpointExamples.

Lemma GetOrCreateGRPCConn_failed (env : Dialer) (c : tsoBaseClient)
    (addr : string) (c1 : tsoBaseClient) (e : error) :
  GetOrCreateGRPCConn env c addr = (c1, inr e) -> c1 = c.
Proof.
  unfold GetOrCreateGRPCConn. intros H.
  destruct (clientConns c !! addr); [by inversion H|].
  destruct (tlsError env); [by inversion H|].
  destruct (dialError env addr); by inversion H.
Qed.

(** X9: [GetOrCreateGRPCConn] either fails and leaves the client as it
    was, or returns a connection that is then the one stored for the
    address: asking again, on whatever network, returns the same
    connection without changing the client, and the connections of
    other addresses are not touched. *)
Theorem GetOrCreateGRPCConn_reuse (env : Dialer) (c : tsoBaseClient)
    (addr : string) (c1 : tsoBaseClient) (r : ClientConn + error) :
  GetOrCreateGRPCConn env c addr = (c1, r) ->
  (forall e, r = inr e -> c1 = c)
  /\ (forall cc, r = inl cc ->
      clientConns c1 !! addr = Some cc
      /\ (forall env', GetOrCreateGRPCConn env' c1 addr = (c1, inl cc))
      /\ forall other, other <> addr ->
                       clientConns c1 !! other = clientConns c !! other).
Proof.
  unfold GetOrCreateGRPCConn. intros H.
  destruct (clientConns c !! addr) as [conn|] eqn:Hl.
  - inversion H; subst. split; [discriminate|]. intros cc [= <-].
    split; [exact Hl|]. split; [|reflexivity].
    intros env'. rewrite Hl. reflexivity.
  - destruct (tlsError env).
    { inversion H; subst. split; [reflexivity|discriminate]. }
    destruct (dialError env addr).
    { inversion H; subst. split; [reflexivity|discriminate]. }
    inversion H; subst. split; [discriminate|]. intros cc [= <-]. cbn.
    split; [apply lookup_insert_eq|]. split.
    + intros env'. rewrite lookup_insert_eq. reflexivity.
    + intros other Hne. apply lookup_insert_ne. congruence.
Qed.

Lemma GetOrCreateGRPCConn_reuse_witness :
  GetOrCreateGRPCConn dialOnlyEmpty clientPd0 "pd0"
  = (clientPd0, inl (mkClientConn "pd0" false)).
Proof.
  refine (proj1 (proj2 (proj2 (GetOrCreateGRPCConn_reuse dialOk clientPd0 "pd0"
            clientPd0 (inl (mkClientConn "pd0" false)) _) _ eq_refl))
            dialOnlyEmpty).
  vm_compute. reflexivity.
Defined.

(** X10: a [switchPrimary] that returns an error leaves the client as it
    was and runs no callback. One that returns nil has [addrs[0]] as
    primary: if that was the primary already nothing changed and no
    callback ran; otherwise the address is now primary and global
    allocator, has a connection, and every registered callback ran once,
    in the order of registration. Calling it again with the same first
    address does nothing. *)
Theorem switchPrimary_outcome (env : Dialer) (c : tsoBaseClient) (addr : string)
    (rest : list string) (c' : tsoBaseClient) (err : option error)
    (calls : list Call) :
  switchPrimary env c (addr :: rest) = Returned (c', err, calls) ->
  match err with
  | Some _ => c' = c /\ calls = []
  | None =>
      getPrimaryAddr c' = addr
      /\ (addr = getPrimaryAddr c -> c' = c /\ calls = [])
      /\ (addr <> getPrimaryAddr c ->
          primary c' = Some addr
          /\ tsoAllocators c' !! globalDCLocation = Some addr
          /\ is_Some (clientConns c' !! addr)
          /\ calls = map CallCallback (primarySwitchedCallbacks c))
      /\ forall env' rest',
           switchPrimary env' c' (addr :: rest') = Returned (c', None, [])
  end.
Proof.
  unfold switchPrimary. intros H.
  destruct (String.eqb addr (getPrimaryAddr c)) eqn:E.
  - inversion H; subst. apply String.eqb_eq in E.
    split; [auto|]. split; [auto|]. split; [congruence|].
    intros env' rest'. rewrite <- E, String.eqb_refl. reflexivity.
  - apply String.eqb_neq in E.
    destruct (GetOrCreateGRPCConn env c addr) as [c1 [cc|e]] eqn:Hg.
    + destruct (GetOrCreateGRPCConn_conns _ _ _ _ _ Hg) as (Ht & Hm & Hcc).
      inversion H; subst; clear H. cbn [getPrimaryAddr primary].
      split; [reflexivity|]. split; [congruence|]. split.
      * intros _. cbn. rewrite lookup_insert_eq, (Hcc cc eq_refl).
        split; [reflexivity|]. split; [reflexivity|]. split; [eauto|].
        f_equal. unfold GetOrCreateGRPCConn in Hg.
        destruct (clientConns c !! addr); [by inversion Hg|].
        destruct (tlsError env); [by inversion Hg|].
        destruct (dialError env addr); by inversion Hg.
      * intros env' rest'. cbn. rewrite String.eqb_refl. reflexivity.
    + inversion H; subst.
      split; [apply (GetOrCreateGRPCConn_failed _ _ _ _ _ Hg) | reflexivity].
Qed.

Lemma switchPrimary_outcome_witness :
  switchPrimary dialOnlyEmpty clientPd0 ["pd0"; "pd1"]
  = Returned (clientPd0, None, []).
Proof.
  refine (proj2 (proj2 (proj2 (switchPrimary_outcome dialOk
            (mkTsoBaseClient ["pd0"] None None 0 ∅ ∅ [] []) "pd0" [] clientPd0
            None [] _))) dialOnlyEmpty ["pd1"]).
  vm_compute. reflexivity.
Defined.

Lemma GetOrCreateGRPCConn_serves env c addr c' r :
  primaryServes c -> GetOrCreateGRPCConn env c addr = (c', r) -> primaryServes c'.
Proof.
  intros [Ha Hp] H.
  destruct (GetOrCreateGRPCConn_conns _ _ _ _ _ H) as (Ht & Hm & _).
  assert (Hpr : primary c' = primary c).
  { unfold GetOrCreateGRPCConn in H.
    destruct (clientConns c !! addr); [by inversion H|].
    destruct (tlsError env); [by inversion H|].
    destruct (dialError env addr); by inversion H. }
  split.
  - rewrite Ht, Hpr. exact Ha.
  - intros p Hs. rewrite Hpr in Hs. apply Hm. apply Hp. exact Hs.
Qed.

Lemma switchPrimary_serves env c addrs c' err calls :
  primaryServes c ->
  switchPrimary env c addrs = Returned (c', err, calls) -> primaryServes c'.
Proof.
  intros Hs H. unfold switchPrimary in H.
  destruct addrs as [|addr rest]; [discriminate|].
  destruct (String.eqb addr (getPrimaryAddr c)).
  { inversion H; subst. exact Hs. }
  destruct (GetOrCreateGRPCConn env c addr) as [c1 [cc|e]] eqn:Hg.
  - destruct (GetOrCreateGRPCConn_conns _ _ _ _ _ Hg) as (Ht & _ & Hcc).
    destruct Hs as [Ha _]. inversion H; subst; clear H. split.
    + cbn [tsoAllocators primary]. rewrite Ht, Ha. destruct (primary c) as [p|].
      * apply insert_singleton_eq.
      * apply insert_empty.
    + cbn. intros p [= <-]. rewrite (Hcc cc eq_refl). eauto.
  - inversion H; subst. eapply GetOrCreateGRPCConn_serves; eauto.
Qed.

(** X11: in every state the client reaches from [newTSOBaseClient]
    through its methods, the allocator map holds the primary under the
    global DC location and nothing else (it is empty while there is no
    primary), and the primary has a connection: with a primary set,
    [GetServingEndpointClientConn] is not nil and
    [GetTSOAllocatorServingAddrByDCLocation] gives the primary for the
    global DC location. *)
Theorem reachable_primary_serves (c : tsoBaseClient) :
  reachable c ->
  primaryServes c
  /\ forall p, primary c = Some p ->
       is_Some (GetServingEndpointClientConn c)
       /\ GetTSOAllocatorServingAddrByDCLocation c globalDCLocation = (p, true)
       /\ forall dc, dc <> globalDCLocation ->
                     GetTSOAllocatorServingAddrByDCLocation c dc = ("", false).
Proof.
  intros Hr.
  assert (Hs : primaryServes c).
  { induction Hr as [env urls c Hn | env c addrs c' err calls _ IH Hs
                    | env c addr c' r _ IH Hg | c _ IH | c cbs _ IH | c cbs _ IH].
    - unfold newTSOBaseClient in Hn.
      destruct (switchPrimary env _ urls) as [[[bc1 e] calls]|] eqn:Hs;
        [|discriminate].
      destruct (GetOrCreateGRPCConn env bc1 (getPrimaryAddr bc1))
        as [bc2 [cc|e']] eqn:Hg; [|discriminate].
      injection Hn as <-.
      eapply GetOrCreateGRPCConn_serves; [|exact Hg].
      eapply switchPrimary_serves; [|exact Hs].
      split; [reflexivity|discriminate].
    - eapply switchPrimary_serves; eauto.
    - eapply GetOrCreateGRPCConn_serves; eauto.
    - destruct IH as [Ha Hp]. split; [exact Ha|].
      intros p Hpp. cbn in *. rewrite lookup_fmap.
      destruct (Hp p Hpp) as [cc ->]. cbn. eauto.
    - exact IH.
    - exact IH. }
  split; [exact Hs|]. destruct Hs as [Ha Hp]. intros p Hpp.
  unfold GetServingEndpointClientConn, GetTSOAllocatorServingAddrByDCLocation,
    getPrimaryAddr. rewrite Ha, Hpp. split; [apply Hp; exact Hpp|]. split.
  - rewrite lookup_singleton_eq. reflexivity.
  - intros dc Hne. rewrite lookup_singleton_ne by congruence. reflexivity.
Qed.

Lemma reachable_primary_serves_witness :
  is_Some (GetServingEndpointClientConn clientPd0)
  /\ GetTSOAllocatorServingAddrByDCLocation clientPd0 globalDCLocation
     = ("pd0", true).
Proof.
  destruct (reachable_primary_serves clientPd0) as [_ H].
  - apply (reach_new dialOk ["pd0"]). vm_compute. reflexivity.
  - destruct (H "pd0" eq_refl) as (H1 & H2 & _). split; assumption.
Defined.

End EndpointFacts.

Section EndpointFacts2.
Import tsopb tso_client tso_endpoints Examples EndpointExamples.

Lemma GetOrCreateGRPCConn_fresh env (c : tsoBaseClient) addr :
  clientConns c !! addr = None ->
  GetOrCreateGRPCConn env c addr
  = match tlsError env with
    | Some e => (c, inr e)
    | None =>
        match dialError env addr with
        | Some e => (c, inr e)
        | None =>
            (setClientConns c (<[addr := mkClientConn addr false]> (clientConns c)),
             inl (mkClientConn addr false))
        end
    end.
Proof.
  intros Hl. unfold GetOrCreateGRPCConn. rewrite Hl.
  destruct (tlsError env); [reflexivity|].
  destruct (dialError env addr); reflexivity.
Qed.

(** X12: [newTSOBaseClient] panics on an empty URL list. Otherwise it
    returns nil when the TLS configuration is refused. With the first
    URL not empty and dialed with success it returns a client whose
    primary and global allocator are that URL, with one connection, to
    it. When the first URL is empty or cannot be dialed, the error of
    [switchPrimary] is dropped and the outcome is decided by dialing the
    empty address: nil if that fails, else a client with no primary, no
    allocator and a connection to the empty address. *)
Theorem newTSOBaseClient_outcome (env : Dialer) (urls : list string) :
  (urls = [] -> exists msg, newTSOBaseClient env urls = Panicked msg)
  /\ forall addr rest, urls = addr :: rest ->
     (forall e, tlsError env = Some e ->
                newTSOBaseClient env urls = Returned None)
     /\ (tlsError env = None -> addr <> "" -> dialError env addr = None ->
         newTSOBaseClient env urls
         = Returned (Some (mkTsoBaseClient urls (Some addr) None 0
                             {[addr := mkClientConn addr false]}
                             {[globalDCLocation := addr]} [] [])))
     /\ (tlsError env = None -> addr = "" \/ dialError env addr <> None ->
         newTSOBaseClient env urls
         = match dialError env "" with
           | Some _ => Returned None
           | None =>
               Returned (Some (mkTsoBaseClient urls None None 0
                                 {["" := mkClientConn "" false]} ∅ [] []))
           end).
Proof.
  split.
  - intros ->. eexists. reflexivity.
  - intros addr rest ->. unfold newTSOBaseClient, switchPrimary.
    cbn [getPrimaryAddr primary].
    set (bc := mkTsoBaseClient (addr :: rest) None None 0 ∅ ∅ [] []).
    assert (Hbc : forall a, clientConns bc !! a = None)
      by (intros a; apply lookup_empty).
    split; [|split].
    + intros e He. destruct (String.eqb addr "").
      * rewrite (GetOrCreateGRPCConn_fresh env bc _ (Hbc _)), He. reflexivity.
      * rewrite (GetOrCreateGRPCConn_fresh env bc addr (Hbc _)), He.
        rewrite (GetOrCreateGRPCConn_fresh env bc _ (Hbc _)), He. reflexivity.
    + intros Ht Hne Hd. apply String.eqb_neq in Hne. rewrite Hne.
      rewrite (GetOrCreateGRPCConn_fresh env bc addr (Hbc _)), Ht, Hd.
      unfold GetOrCreateGRPCConn.
      cbn [setClientConns clientConns urls primary secondaries clusterID
        tsoAllocators primarySwitchedCallbacks membersChangedCallbacks bc
        getPrimaryAddr].
      rewrite lookup_insert_eq, !insert_empty. reflexivity.
    + intros Ht Hbad.
      assert (Hdone :
        (if String.eqb addr "" then Returned (bc, @None error, @nil Call)
         else match GetOrCreateGRPCConn env bc addr with
              | (c1, inr err) => Returned (c1, Some err, [])
              | (c1, inl _) =>
                  Returned
                    (mkTsoBaseClient (urls c1) (Some addr) (secondaries c1)
                       (clusterID c1) (clientConns c1)
                       (<[globalDCLocation := addr]> (tsoAllocators c1))
                       (primarySwitchedCallbacks c1)
                       (membersChangedCallbacks c1),
                     None, map CallCallback (primarySwitchedCallbacks c1))
              end)
        = Returned (bc, None, []) \/
        exists e,
        (if String.eqb addr "" then Returned (bc, @None error, @nil Call)
         else match GetOrCreateGRPCConn env bc addr with
              | (c1, inr err) => Returned (c1, Some err, [])
              | (c1, inl _) =>
                  Returned
                    (mkTsoBaseClient (urls c1) (Some addr) (secondaries c1)
                       (clusterID c1) (clientConns c1)
                       (<[globalDCLocation := addr]> (tsoAllocators c1))
                       (primarySwitchedCallbacks c1)
                       (membersChangedCallbacks c1),
                     None, map CallCallback (primarySwitchedCallbacks c1))
              end)
        = Returned (bc, Some e, [])).
      { destruct (String.eqb addr "") eqn:E; [by left|].
        apply String.eqb_neq in E. destruct Hbad as [Hbad|Hbad]; [contradiction|].
        rewrite (GetOrCreateGRPCConn_fresh env bc addr (Hbc _)), Ht.
        destruct (dialError env addr) as [e|]; [right; by exists e|contradiction]. }
      assert (Hlast :
        GetOrCreateGRPCConn env bc (getPrimaryAddr bc)
        = match dialError env "" with
          | Some e => (bc, inr e)
          | None =>
              (setClientConns bc (<["" := mkClientConn "" false]> (clientConns bc)),
               inl (mkClientConn "" false))
          end).
      { rewrite (GetOrCreateGRPCConn_fresh env bc _ (Hbc _)), Ht. reflexivity. }
      destruct Hdone as [->|[e ->]]; rewrite Hlast;
        (destruct (dialError env ""); [reflexivity|]);
        cbn [setClientConns clientConns urls primary secondaries clusterID
          tsoAllocators primarySwitchedCallbacks membersChangedCallbacks bc];
        rewrite insert_empty; reflexivity.
Qed.

Lemma newTSOBaseClient_outcome_witness :
  newTSOBaseClient dialOnlyEmpty ["pd0"]
  = Returned (Some (mkTsoBaseClient ["pd0"] None None 0
                      {["" := mkClientConn "" false]} ∅ [] [])).
Proof.
  refine (proj2 (proj2 (proj2 (newTSOBaseClient_outcome dialOnlyEmpty ["pd0"])
                          "pd0" [] eq_refl)) eq_refl _).
  right. vm_compute. discriminate.
Defined.

(** X13: [CloseClientConns] closes the connections and keeps them in the
    map: afterwards [GetOrCreateGRPCConn] returns the closed connection
    of an address it had one for, without dialing, on whatever network,
    and [GetTSOAllocatorClientConnByDCLocation] returns it too. *)
Theorem CloseClientConns_keeps_closed (c : tsoBaseClient) (addr : string)
    (cc : ClientConn) :
  clientConns c !! addr = Some cc ->
  (forall env,
     GetOrCreateGRPCConn env (CloseClientConns c) addr
     = (CloseClientConns c, inl (mkClientConn (Target cc) true)))
  /\ forall dc, tsoAllocators c !! dc = Some addr ->
       GetTSOAllocatorClientConnByDCLocation (CloseClientConns c) dc
       = Returned (mkClientConn (Target cc) true, addr).
Proof.
  intros Hl.
  assert (Hc : clientConns (CloseClientConns c) !! addr
               = Some (mkClientConn (Target cc) true)).
  { cbn. rewrite lookup_fmap, Hl. reflexivity. }
  split.
  - intros env. unfold GetOrCreateGRPCConn. rewrite Hc. reflexivity.
  - intros dc Hd. unfold GetTSOAllocatorClientConnByDCLocation.
    change (tsoAllocators (CloseClientConns c)) with (tsoAllocators c).
    rewrite Hd, Hc. reflexivity.
Qed.

Lemma CloseClientConns_keeps_closed_witness :
  GetOrCreateGRPCConn dialOk (CloseClientConns clientPd0) "pd0"
  = (CloseClientConns clientPd0, inl (mkClientConn "pd0" true)).
Proof.
  refine (proj1 (CloseClientConns_keeps_closed clientPd0 "pd0"
                   (mkClientConn "pd0" false) _) dialOk).
  vm_compute. reflexivity.
Defined.

Lemma ProcessTSORequests_calls {S : Type}
    (Send : TsoRequest -> S -> option error * S)
    (Recv : S -> (TsoResponse + error) * S)
    (c : tsoBaseClient) (stream : S) (dcLocation : string)
    (requests : list tsoRequest) :
  let req := mkTsoRequest (mkRequestHeader (clusterID c))
               (uint32 (int64 (Z.of_nat (length requests)))) dcLocation in
  snd (ProcessTSORequests Send Recv c stream dcLocation requests)
  = match fst (Send req stream) with
    | Some _ => [CallSend req]
    | None => [CallSend req; CallRecv]
    end.
Proof.
  intros req. unfold ProcessTSORequests, requestHeader. fold req.
  destruct (Send req stream) as [[e|] s1]; [reflexivity|].
  destruct (Recv s1) as [[resp|e] s2]; [|reflexivity].
  destruct (negb _); reflexivity.
Qed.

(** X14: [ProcessTSORequests] sends one request whatever the batch, an
    empty batch included (then with [Count] 0), and receives at most
    once, and only after a send that succeeded. Whenever it returns an
    error, physical, logical and suffix bits are all zero; the error of
    a failed send or receive is returned wrapped by [WithStack]. *)
Theorem ProcessTSORequests_errors {S : Type}
    (Send : TsoRequest -> S -> option error * S)
    (Recv : S -> (TsoResponse + error) * S)
    (c : tsoBaseClient) (stream : S) (dcLocation : string)
    (requests : list tsoRequest) :
  let req := mkTsoRequest (mkRequestHeader (clusterID c))
               (uint32 (int64 (Z.of_nat (length requests)))) dcLocation in
  let out := ProcessTSORequests Send Recv c stream dcLocation requests in
  (requests = [] -> Count req = 0)
  /\ snd out = match fst (Send req stream) with
               | Some _ => [CallSend req]
               | None => [CallSend req; CallRecv]
               end
  /\ (forall e s1, Send req stream = (Some e, s1) ->
      fst out = ((0, 0, 0, Some (WithStack e)), s1))
  /\ (forall s1 e s2, Send req stream = (None, s1) -> Recv s1 = (inr e, s2) ->
      fst out = ((0, 0, 0, Some (WithStack e)), s2))
  /\ forall physical logical suffixBits e s',
       fst out = ((physical, logical, suffixBits, Some e), s') ->
       physical = 0 /\ logical = 0 /\ suffixBits = 0.
Proof.
  intros req out. split; [intros ->; reflexivity|].
  split; [apply ProcessTSORequests_calls|].
  subst out. unfold ProcessTSORequests, requestHeader. fold req.
  split; [|split].
  - intros e s1 ->. reflexivity.
  - intros s1 e s2 -> ->. reflexivity.
  - intros p l sb e s'.
    destruct (Send req stream) as [[e1|] s1]; [by intros [= <- <- <- _ _]|].
    destruct (Recv s1) as [[resp|e2] s2]; [|by intros [= <- <- <- _ _]].
    destruct (negb _); [by intros [= <- <- <- _ _]|]. intros H.
    discriminate H.
Qed.

Lemma ProcessTSORequests_errors_witness :
  fst (ProcessTSORequests sendFails recvEcho clientPd0 [] "global" [])
  = ((0, 0, 0, Some (WithStack (ErrGRPC "stream closed"))), []).
Proof.
  refine (proj1 (proj2 (proj2 (ProcessTSORequests_errors sendFails recvEcho
            clientPd0 [] "global" []))) (ErrGRPC "stream closed") [] _).
  reflexivity.
Defined.

End EndpointFacts2.

(** ** etcd: values, the cluster id *)

Section KVFacts.
Import clientv3 etcd_kv.

Lemma find_head_filter {A} (f : A -> bool) (l : list A) :
  List.find f l = List.head (List.filter f l).
Proof.
  induction l as [|a l IH]; [reflexivity|]. cbn. destruct (f a); [reflexivity|].
  exact IH.
Qed.

Lemma rangeOf_single (s : Store) (key : string) :
  sorted_kvs (kvs s) ->
  rangeOf s (OpGet key [])
  = match lookupKey s key with Some kv => [kv] | None => [] end.
Proof.
  intros Hs. unfold lookupKey. rewrite find_head_filter.
  pose proof (sorted_kvs_one_key key (kvs s) Hs) as Hone.
  unfold rangeOf, OpGet, in_range. cbn [fold_left op_end op_key String.eqb].
  destruct (List.filter _ (kvs s)) as [|a [|b t]]; cbn in *; [reflexivity..|lia].
Qed.

Lemma Get_single (s : Store) (key : string) :
  fault s = None -> sorted_kvs (kvs s) ->
  Get s (OpGet key [])
  = inl (mkGetResponse (Revision s)
           (match lookupKey s key with Some kv => [kv] | None => [] end) false).
Proof.
  intros Hf Hs. unfold Get. rewrite Hf, (rangeOf_single s key Hs). reflexivity.
Qed.

Lemma existsb_find {A} (f : A -> bool) (l : list A) :
  existsb f l = match List.find f l with Some _ => true | None => false end.
Proof.
  induction l as [|a l IH]; [reflexivity|]. cbn. destruct (f a); [reflexivity|].
  exact IH.
Qed.

Lemma In_insertKV kv y l : In y (insertKV kv l) -> y = kv \/ In y l.
Proof.
  induction l as [|x l IH]; cbn [insertKV].
  - intros [<-|[]]. by left.
  - destruct (String.eqb (Key x) (Key kv)).
    + intros [<-|H]; [by left|right; by right].
    + destruct (key_ltb (Key kv) (Key x)).
      * intros [<-|H]; [by left|by right].
      * intros [<-|H]; [right; by left|].
        destruct (IH H) as [->|H']; [by left|right; by right].
Qed.

Lemma insertKV_sorted kv l : sorted_kvs l -> sorted_kvs (insertKV kv l).
Proof.
  unfold sorted_kvs. induction 1 as [|x l Hs IH Hx]; cbn [insertKV].
  - repeat constructor.
  - destruct (String.eqb (Key x) (Key kv)) eqn:E.
    + apply String.eqb_eq in E. constructor; [exact Hs|]. rewrite <- E. exact Hx.
    + apply String.eqb_neq in E. destruct (key_ltb (Key kv) (Key x)) eqn:L.
      * constructor; [constructor; assumption|]. constructor; [exact L|].
        rewrite List.Forall_forall in *. intros y Hy.
        eapply key_ltb_trans; [exact L|]. apply Hx. exact Hy.
      * constructor; [exact IH|]. rewrite List.Forall_forall in *.
        intros y Hy. destruct (In_insertKV _ _ _ Hy) as [->|Hy'].
        -- assert (Hle : key_leb (Key x) (Key kv) = true)
             by (unfold key_leb; rewrite L; reflexivity).
           destruct (key_leb_cases _ _ Hle) as [Heq|Hlt]; [contradiction|exact Hlt].
        -- apply Hx. exact Hy'.
Qed.

Lemma find_insertKV kv l :
  List.find (fun x => String.eqb (Key x) (Key kv)) (insertKV kv l) = Some kv.
Proof.
  induction l as [|x l IH]; cbn [insertKV].
  - cbn. rewrite String.eqb_refl. reflexivity.
  - destruct (String.eqb (Key x) (Key kv)) eqn:E.
    + cbn. rewrite String.eqb_refl. reflexivity.
    + destruct (key_ltb (Key kv) (Key x)).
      * cbn. rewrite String.eqb_refl. reflexivity.
      * cbn. rewrite E. exact IH.
Qed.

Lemma lookupKey_storePut (s : Store) (key value : string) :
  lookupKey (storePut s key value) key
  = Some (mkKV key value (Revision s + 1)).
Proof. exact (find_insertKV (mkKV key value (Revision s + 1)) (kvs s)). Qed.

Lemma fromBigEndian_app (s1 s2 : string) : forall acc,
  fromBigEndian acc (s1 +:+ s2) = fromBigEndian (fromBigEndian acc s1) s2.
Proof.
  induction s1 as [|c s1 IH]; intros acc; [reflexivity|]. cbn. apply IH.
Qed.

Lemma length_app_string (s1 s2 : string) :
  String.length (s1 +:+ s2) = (String.length s1 + String.length s2)%nat.
Proof.
  induction s1 as [|c s1 IH]; [reflexivity|].
  change (S (String.length (s1 +:+ s2)) = S (String.length s1 + String.length s2)).
  f_equal. exact IH.
Qed.

Lemma length_bigEndian (n : nat) : forall v, String.length (bigEndian n v) = n.
Proof.
  induction n as [|n IH]; intros v; [reflexivity|]. cbn [bigEndian].
  rewrite length_app_string, IH. cbn. lia.
Qed.

Lemma fromBigEndian_bigEndian (n : nat) : forall v acc,
  0 <= v < 256 ^ Z.of_nat n ->
  fromBigEndian acc (bigEndian n v) = acc * 256 ^ Z.of_nat n + v.
Proof.
  induction n as [|n IH]; intros v acc Hv.
  - cbn in *. lia.
  - cbn [bigEndian]. rewrite fromBigEndian_app.
    rewrite Nat2Z.inj_succ, Z.pow_succ_r in * by lia.
    rewrite IH by (split; [apply Z.div_pos; lia | apply Z.div_lt_upper_bound; lia]).
    cbn [fromBigEndian]. rewrite N_ascii_embedding.
    2:{ assert (0 <= v mod 256 < 256) by (apply Z.mod_pos_bound; lia).
        apply N2Z.inj_lt. rewrite Z2N.id by lia. cbn. lia. }
    rewrite Z2N.id by (apply Z.mod_pos_bound; lia).
    pose proof (Z.div_mod v 256). lia.
Qed.

Lemma BytesToUint64_Uint64ToBytes (v : Z) :
  0 <= v < 2 ^ 64 -> BytesToUint64 (Uint64ToBytes v) = inl v.
Proof.
  intros Hv. unfold BytesToUint64, Uint64ToBytes. rewrite length_bigEndian.
  cbn [Nat.eqb]. rewrite fromBigEndian_bigEndian; [f_equal; lia|].
  change (256 ^ Z.of_nat 8) with (2 ^ 64). exact Hv.
Qed.

(** X15: the cluster id [InitOrGetClusterID] makes has the low 32 bits
    of the clock's seconds as its high half and the random number as its
    low half; it fits in 64 bits, and it is zero only when both halves
    are zero. *)
Theorem newClusterID_halves (unixSeconds rnd : Z) :
  newClusterID unixSeconds rnd
  = (unixSeconds mod 2 ^ 32) * 2 ^ 32 + rnd mod 2 ^ 32
  /\ 0 <= newClusterID unixSeconds rnd < 2 ^ 64
  /\ (newClusterID unixSeconds rnd = 0
      <-> unixSeconds mod 2 ^ 32 = 0 /\ rnd mod 2 ^ 32 = 0).
Proof.
  assert (Hu : 0 <= unixSeconds mod 2 ^ 32 < 2 ^ 32)
    by (apply Z.mod_pos_bound; lia).
  assert (Hr : 0 <= rnd mod 2 ^ 32 < 2 ^ 32) by (apply Z.mod_pos_bound; lia).
  assert (Heq : newClusterID unixSeconds rnd
                = (unixSeconds mod 2 ^ 32) * 2 ^ 32 + rnd mod 2 ^ 32).
  { unfold newClusterID, uint64, uint32.
    rewrite Z.shiftl_mul_pow2 by lia.
    assert (H1 : (unixSeconds mod 2 ^ 64) mod 2 ^ 32 = unixSeconds mod 2 ^ 32).
    { change (2 ^ 64) with (2 ^ 32 * 2 ^ 32). rewrite Z.rem_mul_r by lia.
      rewrite Z.mul_comm, Z.mod_add by lia. apply Z.mod_mod. lia. }
    assert (H2 : ((unixSeconds mod 2 ^ 64) * 2 ^ 32) mod 2 ^ 64
                 = (unixSeconds mod 2 ^ 32) * 2 ^ 32).
    { change (2 ^ 64) with (2 ^ 32 * 2 ^ 32) at 2.
      rewrite Z.mul_mod_distr_r by lia. rewrite H1. reflexivity. }
    rewrite H2. rewrite (Z.mod_small (rnd mod 2 ^ 32)) by lia.
    apply Z.mod_small. lia. }
  split; [exact Heq|]. rewrite Heq. split; [nia|]. split; [nia|].
  intros [-> ->]. reflexivity.
Qed.

(** X16: [GetValue] never panics, whatever the options and the store:
    [get] hands it a response only when that holds one pair. On a
    sorted store that answers, [GetValue] for a single key (no options)
    never fails: it returns the value stored under the key, or nil when
    the key is absent; and it returns the value just put under the key
    by a put. *)
Theorem GetValue_single_key (s : Store) (key : string) :
  fault s = None -> sorted_kvs (kvs s) ->
  GetValue s key [] = Returned (inl (Value <$> lookupKey s key))
  /\ (forall value,
        GetValue (storePut s key value) key [] = Returned (inl (Some value)))
  /\ forall s' key' opts, exists r, GetValue s' key' opts = Returned r.
Proof.
  intros Hf Hs.
  assert (Hg : forall s', fault s' = None -> sorted_kvs (kvs s') ->
               GetValue s' key [] = Returned (inl (Value <$> lookupKey s' key))).
  { intros s' Hf' Hs'. unfold GetValue, get, EtcdKVGet.
    rewrite (Get_single s' key Hf' Hs'). cbn [Kvs].
    destruct (lookupKey s' key); reflexivity. }
  split; [apply Hg; assumption|]. split.
  - intros value. rewrite Hg.
    + rewrite lookupKey_storePut. reflexivity.
    + exact Hf.
    + apply insertKV_sorted. exact Hs.
  - intros s' key' opts. unfold GetValue, get, EtcdKVGet.
    destruct (Get s' (OpGet key' opts)) as [resp|err]; [|eauto].
    destruct (Kvs resp) as [|a [|b t]] eqn:E; [eauto| |eauto].
    rewrite E. eauto.
Qed.

Lemma InitOrGetClusterID_present (s : Store) (key : string) (kv : KeyValue)
    (unixSeconds rnd : Z) :
  fault s = None -> sorted_kvs (kvs s) -> lookupKey s key = Some kv ->
  InitOrGetClusterID s key unixSeconds rnd = (BytesToUint64 (Value kv), s)
  /\ GetClusterID s key = BytesToUint64 (Value kv).
Proof.
  intros Hf Hs Hl.
  unfold InitOrGetClusterID, txnCreateOrGet, GetClusterID, EtcdKVGet.
  rewrite Hf, existsb_find. fold (lookupKey s key). rewrite Hl.
  rewrite (Get_single s key Hf Hs), Hl. split; reflexivity.
Qed.

Lemma InitOrGetClusterID_absent (s : Store) (key : string) (unixSeconds rnd : Z) :
  fault s = None -> lookupKey s key = None ->
  InitOrGetClusterID s key unixSeconds rnd
  = (inl (newClusterID unixSeconds rnd),
     storePut s key (Uint64ToBytes (newClusterID unixSeconds rnd))).
Proof.
  intros Hf Hl. unfold InitOrGetClusterID, txnCreateOrGet.
  rewrite Hf, existsb_find. fold (lookupKey s key). rewrite Hl. reflexivity.
Qed.

Lemma newClusterID_uint64 (unixSeconds rnd : Z) :
  0 <= newClusterID unixSeconds rnd < 2 ^ 64.
Proof. unfold newClusterID, uint64 at 1. apply Z.mod_pos_bound. lia. Qed.

(** X17: on a sorted store that answers, [InitOrGetClusterID] creates
    the cluster id once. If the key is absent it stores the id it made
    and returns it; if the key is present it leaves the store as it is
    and returns what is stored. Whenever it returns an id, reading the
    key back with [GetClusterID] gives that id, and every later call,
    with whatever clock and random number, returns that id and changes
    nothing. *)
Theorem InitOrGetClusterID_once (s : Store) (key : string) (unixSeconds rnd : Z) :
  fault s = None -> sorted_kvs (kvs s) ->
  let out := InitOrGetClusterID s key unixSeconds rnd in
  (lookupKey s key = None ->
   out = (inl (newClusterID unixSeconds rnd),
          storePut s key (Uint64ToBytes (newClusterID unixSeconds rnd))))
  /\ (forall kv, lookupKey s key = Some kv ->
      out = (BytesToUint64 (Value kv), s))
  /\ forall id, fst out = inl id ->
       GetClusterID (snd out) key = inl id
       /\ forall unixSeconds' rnd',
            InitOrGetClusterID (snd out) key unixSeconds' rnd'
            = (inl id, snd out).
Proof.
  intros Hf Hs out.
  split; [intros Hl; apply InitOrGetClusterID_absent; assumption|]. split.
  - intros kv Hl. apply (InitOrGetClusterID_present s key kv _ _ Hf Hs Hl).
  - intros id Hid. destruct (lookupKey s key) as [kv|] eqn:Hl.
    + destruct (InitOrGetClusterID_present s key kv unixSeconds rnd Hf Hs Hl)
        as [Ho Hg].
      fold out in Ho. rewrite Ho in *. cbn [fst snd] in *. split.
      * rewrite Hg. exact Hid.
      * intros u' r'.
        destruct (InitOrGetClusterID_present s key kv u' r' Hf Hs Hl) as [-> _].
        rewrite Hid. reflexivity.
    + pose proof (InitOrGetClusterID_absent s key unixSeconds rnd Hf Hl) as Ho.
      fold out in Ho. rewrite Ho in *. cbn [fst snd] in *.
      injection Hid as <-.
      set (id := newClusterID unixSeconds rnd).
      set (s1 := storePut s key (Uint64ToBytes id)).
      pose proof (lookupKey_storePut s key (Uint64ToBytes id)) as Hl1.
      fold s1 in Hl1.
      assert (Hs1 : sorted_kvs (kvs s1)) by (apply insertKV_sorted; exact Hs).
      assert (Hdec : BytesToUint64 (Uint64ToBytes id) = inl id).
      { apply BytesToUint64_Uint64ToBytes. apply newClusterID_uint64. }
      split.
      * destruct (InitOrGetClusterID_present s1 key _ 0 0 Hf Hs1 Hl1) as [_ ->].
        exact Hdec.
      * intros u' r'.
        destruct (InitOrGetClusterID_present s1 key _ u' r' Hf Hs1 Hl1) as [-> _].
        cbn [Value]. rewrite Hdec. reflexivity.
Qed.

(** X18: two servers that race to create the cluster id agree. When
    [InitClusterID] has read that the key is absent and another server's
    [InitOrGetClusterID] commits before this one's transaction, the call
    returns the id the other server made, not its own, and the store
    holds that id. When the key is present at the read, the call
    returns what is stored and writes nothing. *)
Theorem InitClusterID_race (s : Store) (key : string) (unixA rndA unixB rndB : Z) :
  fault s = None -> sorted_kvs (kvs s) ->
  let other := fun s0 => snd (InitOrGetClusterID s0 key unixB rndB) in
  (lookupKey s key = None ->
   InitClusterID s other key unixA rndA
   = (inl (newClusterID unixB rndB),
      storePut s key (Uint64ToBytes (newClusterID unixB rndB))))
  /\ (forall kv between, lookupKey s key = Some kv ->
      InitClusterID s between key unixA rndA = (BytesToUint64 (Value kv), s)).
Proof.
  intros Hf Hs other. split.
  - intros Hl. unfold InitClusterID, EtcdKVGet.
    rewrite (Get_single s key Hf Hs), Hl. cbn [Kvs]. unfold other.
    rewrite (InitOrGetClusterID_absent s key unixB rndB Hf Hl). cbn [snd].
    set (id := newClusterID unixB rndB).
    set (s1 := storePut s key (Uint64ToBytes id)).
    pose proof (lookupKey_storePut s key (Uint64ToBytes id)) as Hl1.
    fold s1 in Hl1.
    assert (Hs1 : sorted_kvs (kvs s1)) by (apply insertKV_sorted; exact Hs).
    destruct (InitOrGetClusterID_present s1 key _ unixA rndA Hf Hs1 Hl1)
      as [-> _].
    cbn [Value]. rewrite BytesToUint64_Uint64ToBytes; [reflexivity|].
    apply newClusterID_uint64.
  - intros kv between Hl. unfold InitClusterID, EtcdKVGet.
    rewrite (Get_single s key Hf Hs), Hl. reflexivity.
Qed.

Section CheckPeers.
Context {W : Type}.
Variable GetClusterFromRemotePeers : string -> W -> (Z + error) * W.

Lemma checkPeers_firstMismatch (localClusterID : Z) (peerURLs : list string) :
  forall w,
  fst (checkPeers GetClusterFromRemotePeers localClusterID peerURLs w)
  = ErrClusterIDMismatch localClusterID
    <$> firstMismatch localClusterID
          (peerAnswers GetClusterFromRemotePeers peerURLs w).
Proof.
  induction peerURLs as [|u rest IH]; intros w; [reflexivity|].
  cbn [checkPeers peerAnswers].
  destruct (GetClusterFromRemotePeers u w) as [[id|err] w1]; cbn [firstMismatch].
  - destruct (id =? localClusterID); cbn [negb]; [apply IH|reflexivity].
  - apply IH.
Qed.

(** X19: [CheckClusterID] reports the first peer, in the order asked,
    that answers with a cluster id other than the local one, with both
    ids in the error; peers that do not answer are passed over. It
    returns nil when every peer that answers gives the local id, in
    particular when no peer answers at all. *)
Theorem CheckClusterID_first_mismatch (localClusterID : Z)
    (um : list (string * list string)) (w : W) :
  let answers := peerAnswers GetClusterFromRemotePeers (flat_map snd um) w in
  fst (CheckClusterID GetClusterFromRemotePeers localClusterID um w)
  = ErrClusterIDMismatch localClusterID <$> firstMismatch localClusterID answers
  /\ (Forall (fun a => forall id, a = inl id -> id = localClusterID) answers ->
      fst (CheckClusterID GetClusterFromRemotePeers localClusterID um w) = None)
  /\ forall got,
       fst (CheckClusterID GetClusterFromRemotePeers localClusterID um w)
       = Some (ErrClusterIDMismatch localClusterID got) ->
       got <> localClusterID /\ In (inl got) answers.
Proof.
  intros answers.
  assert (Hc : fst (CheckClusterID GetClusterFromRemotePeers localClusterID um w)
               = ErrClusterIDMismatch localClusterID
                 <$> firstMismatch localClusterID answers).
  { destruct um as [|e um']; [reflexivity|]. apply checkPeers_firstMismatch. }
  split; [exact Hc|]. rewrite Hc. clear Hc. generalize answers. clear answers.
  intros answers. split.
  - induction 1 as [|a l Ha Hl IH]; [reflexivity|]. destruct a as [id|err].
    + cbn [firstMismatch]. rewrite (Ha id eq_refl), Z.eqb_refl. exact IH.
    + exact IH.
  - intros got. induction answers as [|a l IH]; [discriminate|].
    destruct a as [id|err]; cbn [firstMismatch].
    + destruct (id =? localClusterID) eqn:E.
      * intros H. destruct (IH H) as [Hn Hin]. split; [exact Hn|by right].
      * cbn. intros [= <-]. apply Z.eqb_neq in E. split; [exact E|by left].
    + intros H. destruct (IH H) as [Hn Hin]. split; [exact Hn|by right].
Qed.

End CheckPeers.

End KVFacts.

Section KVInstances.
Import clientv3 etcd_kv KVExamples WatcherExamples.

Lemma emptyStore_sorted : sorted_kvs (kvs emptyStore).
Proof. constructor. Qed.

Lemma GetValue_single_key_witness :
  GetValue store3 "k1" [] = Returned (inl (Some "b"))
  /\ forall value,
       GetValue (storePut store3 "k1" value) "k1" []
       = Returned (inl (Some value)).
Proof.
  destruct (GetValue_single_key store3 "k1") as (H1 & H2 & _);
    [reflexivity|exact store3_sorted|].
  split; [exact H1|exact H2].
Defined.

Lemma InitOrGetClusterID_once_witness :
  let out := InitOrGetClusterID emptyStore "/pd/cluster_id" 1700000000 42 in
  (lookupKey emptyStore "/pd/cluster_id" = None ->
   out = (inl (newClusterID 1700000000 42),
          storePut emptyStore "/pd/cluster_id"
            (Uint64ToBytes (newClusterID 1700000000 42))))
  /\ (forall kv, lookupKey emptyStore "/pd/cluster_id" = Some kv ->
      out = (BytesToUint64 (Value kv), emptyStore))
  /\ forall id, fst out = inl id ->
       GetClusterID (snd out) "/pd/cluster_id" = inl id
       /\ forall unixSeconds' rnd',
            InitOrGetClusterID (snd out) "/pd/cluster_id" unixSeconds' rnd'
            = (inl id, snd out).
Proof.
  apply (InitOrGetClusterID_once emptyStore "/pd/cluster_id" 1700000000 42);
    [reflexivity|exact emptyStore_sorted].
Defined.

Lemma InitClusterID_race_witness :
  InitClusterID emptyStore
    (fun s0 => snd (InitOrGetClusterID s0 "/pd/cluster_id" 1700000001 7))
    "/pd/cluster_id" 1700000000 42
  = (inl (newClusterID 1700000001 7),
     storePut emptyStore "/pd/cluster_id"
       (Uint64ToBytes (newClusterID 1700000001 7))).
Proof.
  apply (InitClusterID_race emptyStore "/pd/cluster_id" 1700000000 42 1700000001 7);
    reflexivity || exact emptyStore_sorted.
Defined.

Lemma CheckClusterID_first_mismatch_witness :
  fst (CheckClusterID peers 9 [("pd", ["peer0"; "peer1"])] tt) = None.
Proof.
  apply (CheckClusterID_first_mismatch peers 9 [("pd", ["peer0"; "peer1"])] tt).
  repeat constructor; intros id [= <-]; reflexivity.
Defined.

End KVInstances.

(** ** Service discovery: member updates and initialisation *)

Section SortFacts.
Import clientv3 pd_service_discovery.

Lemma key_leb_antisym a b :
  key_leb a b = true -> key_leb b a = true -> a = b.
Proof.
  intros Hab Hba. destruct (key_leb_cases _ _ Hab) as [Heq|Hlt]; [exact Heq|].
  unfold key_leb in Hba. rewrite Hlt in Hba. discriminate.
Qed.

Lemma key_leb_total a b : key_leb a b = false -> key_leb b a = true.
Proof.
  unfold key_leb at 1. intros H. apply negb_false_iff in H.
  apply key_ltb_leb. exact H.
Qed.

Lemma insertString_comm x y l :
  insertString x (insertString y l) = insertString y (insertString x l).
Proof.
  induction l as [|z l IH]; cbn [insertString].
  - destruct (key_leb x y) eqn:Exy, (key_leb y x) eqn:Eyx; try reflexivity.
    + by rewrite (key_leb_antisym _ _ Exy Eyx).
    + apply key_leb_total in Exy. congruence.
  - destruct (key_leb x z) eqn:Exz, (key_leb y z) eqn:Eyz; cbn [insertString];
      rewrite ?Exz, ?Eyz.
    + destruct (key_leb x y) eqn:Exy, (key_leb y x) eqn:Eyx; try reflexivity.
      * by rewrite (key_leb_antisym _ _ Exy Eyx).
      * apply key_leb_total in Exy. congruence.
    + destruct (key_leb y x) eqn:Eyx; [|reflexivity].
      rewrite (key_leb_trans _ _ _ Eyx Exz) in Eyz. discriminate.
    + destruct (key_leb x y) eqn:Exy; [|reflexivity].
      rewrite (key_leb_trans _ _ _ Exy Eyz) in Exz. discriminate.
    + by rewrite IH.
Qed.

Lemma sortStrings_Permutation l1 l2 :
  Permutation l1 l2 -> sortStrings l1 = sortStrings l2.
Proof.
  unfold sortStrings. induction 1 as [|x l1 l2 _ IH|x y l|l1 l2 l3 _ IH1 _ IH2].
  - reflexivity.
  - cbn. by rewrite IH.
  - cbn. apply insertString_comm.
  - by rewrite IH1.
Qed.

End SortFacts.

Section DiscoveryMore.
Import pdpb pd_service_discovery pd_service_init.
Context {W : Type}.
Variable grpcGetOrCreateGRPCConn :
  gmap string ClientConn -> string -> W ->
  (ClientConn + error) * gmap string ClientConn * W.
Variable rpcGetMembers : ClientConn -> W -> (GetMembersResponse + error) * W.
Variable ctxDone : W -> bool.
Variable waitOrDone : time.Duration -> W -> bool * W.

Local Abbreviation PD := (pdServiceDiscovery W).
Local Abbreviation getMembers' :=
  (getMembers grpcGetOrCreateGRPCConn rpcGetMembers).
Local Abbreviation switchLeader' := (switchLeader grpcGetOrCreateGRPCConn).
Local Abbreviation updateMemberLoop' :=
  (updateMemberLoop grpcGetOrCreateGRPCConn rpcGetMembers ctxDone).
Local Abbreviation updateMember' :=
  (updateMember grpcGetOrCreateGRPCConn rpcGetMembers ctxDone).

Lemma sameSetup_refl (c : PD) : sameSetup c c.
Proof. unfold sameSetup. auto 7. Qed.

Lemma sameSetup_trans (c1 c2 c3 : PD) :
  sameSetup c1 c2 -> sameSetup c2 c3 -> sameSetup c1 c3.
Proof. unfold sameSetup. intros (?&?&?&?&?&?) (?&?&?&?&?&?). repeat split; congruence. Qed.

Lemma getMembers_sameSetup (c : PD) url w r c1 w1 :
  getMembers' c url w = (r, c1, w1) ->
  sameSetup c c1 /\ urls c1 = urls c /\ leader c1 = leader c
  /\ followers c1 = followers c.
Proof.
  unfold getMembers, GetOrCreateGRPCConn. intros H.
  destruct (grpcGetOrCreateGRPCConn (clientConns c) url w) as [[[cc|e] m] w0].
  - destruct (rpcGetMembers cc w0) as [[members|e] w2].
    + destruct (GetError (Header members)); inversion H; subst;
        unfold sameSetup; cbn; auto 10.
    + inversion H; subst; unfold sameSetup; cbn; auto 10.
  - inversion H; subst; unfold sameSetup; cbn; auto 10.
Qed.

Lemma updateURLs_sameSetup (c : PD) members w :
  sameSetup c (fst (updateURLs c members w))
  /\ leader (fst (updateURLs c members w)) = leader c
  /\ clientConns (fst (updateURLs c members w)) = clientConns c
  /\ urls (fst (updateURLs c members w))
     = sortStrings (flat_map ClientUrls members).
Proof.
  unfold updateURLs. destruct (decide _) as [E|E]; cbn [fst].
  - split; [apply sameSetup_refl|]. auto.
  - unfold sameSetup. cbn. auto 10.
Qed.

Lemma switchLeader_exact (c : PD) (addr : string) (rest : list string) (w : W) :
  switchLeader' c (addr :: rest) w
  = Returned
      (if String.eqb addr (getLeaderAddr c) then (None, c, w)
       else
         match grpcGetOrCreateGRPCConn (clientConns c) addr w with
         | (inl _, m, w1) =>
             (None, setLeader (setConns c m) addr,
              runCbs (leaderSwitchedCbs c)
                (snd (switchTSOAllocatorLeader c globalDCLocation addr w1)))
         | (inr err, m, w1) => (Some err, setConns c m, w1)
         end).
Proof.
  cbn [switchLeader]. destruct (String.eqb addr (getLeaderAddr c)); [reflexivity|].
  unfold GetOrCreateGRPCConn.
  destruct (grpcGetOrCreateGRPCConn (clientConns c) addr w) as [[[cc|err] m] w1];
    [|reflexivity].
  change (switchTSOAllocatorLeader (setLeader (setConns c m) addr)
            globalDCLocation addr w1)
    with (switchTSOAllocatorLeader c globalDCLocation addr w1).
  destruct (switchTSOAllocatorLeader c globalDCLocation addr w1) as [eT w2].
  reflexivity.
Qed.

(** X20: [switchLeader] on a non-empty list of addresses. When the
    first address is the leader already it returns nil and does
    nothing, without dialing. Otherwise it dials the address: if the
    dial succeeds the address becomes the leader, the allocator
    callbacks and then the leader callbacks run, and nil is returned
    whatever the allocator callbacks return; if the dial fails its
    error is returned, the leader is the one before and no callback
    runs. After a nil the leader address is the first address, and a
    second call with that address does nothing at all. *)
Theorem switchLeader_outcome (c : PD) (addr : string) (rest : list string)
    (w : W) :
  exists e c' w',
    switchLeader' c (addr :: rest) w = Returned (e, c', w')
    /\ sameSetup c c'
    /\ (addr = getLeaderAddr c -> e = None /\ c' = c /\ w' = w)
    /\ (addr <> getLeaderAddr c ->
        match grpcGetOrCreateGRPCConn (clientConns c) addr w with
        | (inl _, m, w1) =>
            e = None /\ c' = setLeader (setConns c m) addr
            /\ w' = runCbs (leaderSwitchedCbs c)
                      (snd (switchTSOAllocatorLeader c globalDCLocation addr w1))
        | (inr err, m, w1) =>
            e = Some err /\ c' = setConns c m /\ leader c' = leader c /\ w' = w1
        end)
    /\ match e with
       | None =>
           getLeaderAddr c' = addr
           /\ forall rest' w'',
                switchLeader' c' (addr :: rest') w'' = Returned (None, c', w'')
       | Some err =>
           leader c' = leader c /\ w' = snd (grpcGetOrCreateGRPCConn
                                              (clientConns c) addr w)
           /\ fst (fst (grpcGetOrCreateGRPCConn (clientConns c) addr w))
              = inr err
       end.
Proof.
  rewrite switchLeader_exact.
  destruct (String.eqb addr (getLeaderAddr c)) eqn:E.
  - exists None, c, w. split; [reflexivity|]. split; [apply sameSetup_refl|].
    apply String.eqb_eq in E. split; [auto|]. split; [contradiction|].
    split; [by symmetry|].
    intros rest' w''. rewrite switchLeader_exact, E, String.eqb_refl.
    reflexivity.
  - apply String.eqb_neq in E.
    destruct (grpcGetOrCreateGRPCConn (clientConns c) addr w)
      as [[[cc|err] m] w1].
    + eexists None, _, _. split; [reflexivity|].
      split; [unfold sameSetup; cbn; auto 10|]. split; [contradiction|].
      split; [auto|]. split; [reflexivity|].
      intros rest' w''. rewrite switchLeader_exact. unfold getLeaderAddr at 1.
      cbn [setLeader leader]. rewrite String.eqb_refl. reflexivity.
    + eexists (Some err), _, _. split; [reflexivity|].
      split; [unfold sameSetup; cbn; auto 10|]. split; [contradiction|].
      cbn. auto 10.
Qed.

Lemma switchLeader_sameSetup (c : PD) (addr : string) (rest : list string) w :
  exists e c' w',
    switchLeader' c (addr :: rest) w = Returned (e, c', w')
    /\ sameSetup c c' /\ urls c' = urls c /\ followers c' = followers c
    /\ (leader c' = leader c \/ (leader c' = Some addr /\ e = None))
    /\ (e = None -> getLeaderAddr c' = addr).
Proof.
  cbn [switchLeader]. destruct (String.eqb addr (getLeaderAddr c)) eqn:E.
  - exists None, c, w. split; [reflexivity|]. split; [apply sameSetup_refl|].
    apply String.eqb_eq in E. auto.
  - unfold GetOrCreateGRPCConn.
    destruct (grpcGetOrCreateGRPCConn (clientConns c) addr w)
      as [[[cc|err] m] w1].
    + destruct (switchTSOAllocatorLeader _ _ _ _) as [eT w2] eqn:ET.
      eexists None, _, _. split; [reflexivity|].
      split; [unfold sameSetup; cbn; auto 10|]. cbn. auto 10.
    + eexists (Some err), _, _. split; [reflexivity|].
      split; [unfold sameSetup; cbn; auto 10|]. cbn.
      repeat split; auto. discriminate.
Qed.

Lemma updateMemberLoop_returns (all us : list string) :
  forall (c : PD) w,
  exists e c' w',
    updateMemberLoop' all us c w = Returned (e, c', w') /\ sameSetup c c'.
Proof.
  induction us as [|u rest IH]; intros c w.
  - eexists _, _, _. split; [reflexivity|apply sameSetup_refl].
  - cbn [updateMemberLoop].
    destruct (getMembers' c u w) as [[r c1] w1] eqn:Hg.
    destruct (getMembers_sameSetup _ _ _ _ _ _ Hg) as (H1 & _).
    destruct r as [members|err].
    + destruct (negb (GetClusterId (Header members) =? clusterID c1)).
      * destruct (ctxDone w1).
        -- eexists _, _, _. split; [reflexivity|exact H1].
        -- destruct (IH c1 w1) as (e & c' & w' & -> & H2).
           eexists _, _, _. split; [reflexivity|].
           eapply sameSetup_trans; eassumption.
      * destruct (switchTSOAllocatorLeaders c1 _ w1) as [errTSO w2].
        destruct (Leader members) as [l|] eqn:HL.
        -- destruct (ClientUrls l) as [|addr addrs] eqn:HU.
           ++ destruct (ctxDone w2).
              ** eexists _, _, _. split; [reflexivity|exact H1].
              ** destruct (IH c1 w2) as (e & c' & w' & -> & H2).
                 eexists _, _, _. split; [reflexivity|].
                 eapply sameSetup_trans; eassumption.
           ++ destruct (updateURLs c1 (Members members) w2) as [c2 w3] eqn:HUr.
              pose proof (updateURLs_sameSetup c1 (Members members) w2) as (H2 & _).
              rewrite HUr in H2. cbn [fst] in H2.
              cbn [GetClientUrls]. rewrite HU.
              set (c3 := updateFollowers c2 (Members members) (Some l)).
              assert (H3 : sameSetup c2 c3) by (unfold sameSetup; cbn; auto 10).
              destruct (switchLeader_sameSetup c3 addr addrs w3)
                as (e & c4 & w4 & -> & H4 & _).
              assert (H : sameSetup c c4).
              { eapply sameSetup_trans; [exact H1|].
                eapply sameSetup_trans; [exact H2|].
                exact (sameSetup_trans _ _ _ H3 H4). }
              destruct e; eexists _, _, _; (split; [reflexivity|exact H]).
        -- destruct (ctxDone w2).
           ++ eexists _, _, _. split; [reflexivity|exact H1].
           ++ destruct (IH c1 w2) as (e & c' & w' & -> & H2).
              eexists _, _, _. split; [reflexivity|].
              eapply sameSetup_trans; eassumption.
    + destruct (ctxDone w1).
      * eexists _, _, _. split; [reflexivity|exact H1].
      * destruct (IH c1 w1) as (e & c' & w' & -> & H2).
        eexists _, _, _. split; [reflexivity|].
        eapply sameSetup_trans; eassumption.
Qed.

(** X21: [updateMember] never panics, although [switchLeader] indexes
    its argument without a check: it is only called with the client
    URLs of a leader that has some. It always returns, and it leaves
    the cluster id, the initialised flag, the registered callbacks and
    the follower-proxy option of the client as they were. *)
Theorem updateMember_returns (c : PD) (w : W) :
  switchLeader' c [] w = Panicked "index out of range [0] with length 0"
  /\ exists e c' w',
       updateMember' c w = Returned (e, c', w') /\ sameSetup c c'.
Proof.
  split; [reflexivity|]. apply updateMemberLoop_returns.
Qed.

(** X22: [updateURLs] stores the client URLs of the members sorted, so
    the order of the members and of their URLs in the reply does not
    matter: two replies with the same URLs in any order give the same
    client and run the same callbacks. The callbacks run only when the
    sorted URLs differ from the stored ones and the follower proxy is
    enabled, and a second call with the same URLs does nothing. *)
Theorem updateURLs_order_blind (c : PD) (ms1 ms2 : list Member) (w : W) :
  Permutation (flat_map ClientUrls ms1) (flat_map ClientUrls ms2) ->
  updateURLs c ms1 w = updateURLs c ms2 w
  /\ urls (fst (updateURLs c ms1 w)) = sortStrings (flat_map ClientUrls ms1)
  /\ (enableTSOFollowerProxy c = false
      \/ urls c = sortStrings (flat_map ClientUrls ms1) ->
      snd (updateURLs c ms1 w) = w)
  /\ forall w', updateURLs (fst (updateURLs c ms1 w)) ms2 w'
                = (fst (updateURLs c ms1 w), w').
Proof.
  intros Hp. pose proof (sortStrings_Permutation _ _ Hp) as Hs.
  split; [unfold updateURLs; rewrite Hs; reflexivity|].
  split; [apply updateURLs_sameSetup|]. split.
  - unfold updateURLs. intros [H|H].
    + rewrite H. destruct (decide _); reflexivity.
    + destruct (decide _); [reflexivity|contradiction].
  - intros w'. pose proof (updateURLs_sameSetup c ms1 w) as (_ & _ & _ & Hu).
    unfold updateURLs at 1. rewrite <- Hs.
    destruct (decide _) as [E|E]; [reflexivity|contradiction].
Qed.

(** X23: a reply with the right cluster id that names no leader, or a
    leader without client URLs. The allocator callbacks still run on
    its allocator leaders, but their error is dropped; URLs, leader and
    followers of the client stay as they are. If the context is done
    [updateMember] returns the missing-leader error, otherwise it goes
    on with the next URL. *)
Theorem updateMember_no_leader (all : list string) (u : string)
    (rest : list string) (c : PD) (w : W) (members : GetMembersResponse)
    (c1 : PD) (w1 : W) :
  getMembers' c u w = (inl members, c1, w1) ->
  GetClusterId (Header members) = clusterID c ->
  GetClientUrls (Leader members) = [] ->
  let w2 := snd (switchTSOAllocatorLeaders c1 (TsoAllocatorLeaders members) w1) in
  updateMemberLoop' all (u :: rest) c w
  = (if ctxDone w2
     then Returned
            (Some (WithStack (ErrClientGetLeader "leader address don't exist")),
             c1, w2)
     else updateMemberLoop' all rest c1 w2)
  /\ urls c1 = urls c /\ leader c1 = leader c /\ followers c1 = followers c.
Proof.
  intros Hg Hid Hl w2.
  destruct (getMembers_sameSetup _ _ _ _ _ _ Hg) as ((_ & Hc & _) & Hrest).
  split; [|exact Hrest].
  cbn [updateMemberLoop]. rewrite Hg, Hc, Hid, Z.eqb_refl. cbn [negb].
  subst w2.
  destruct (switchTSOAllocatorLeaders c1 (TsoAllocatorLeaders members) w1)
    as [errTSO w2].
  cbn [snd]. destruct (Leader members) as [l|]; [|reflexivity].
  cbn [GetClientUrls] in Hl. rewrite Hl. reflexivity.
Qed.

(** X24: the first reply with the right cluster id and a leader that
    has client URLs ends [updateMember]: no further URL is asked. The
    client then holds the sorted URLs and the followers of that reply.
    If the first client URL of the reply's leader is the leader
    already, the leader stays and the error of the reply's allocator
    callbacks is returned. Otherwise that URL is dialed: if the dial
    succeeds it becomes the leader and the error of the reply's
    allocator callbacks is returned; if the dial fails the leader is
    the one before and the error of the dial is returned. So the call
    returns nil only if the allocator callbacks of the reply returned
    nil, and then the leader address is that first URL. *)
Theorem updateMember_usable_reply (all : list string) (u : string)
    (rest : list string) (c : PD) (w : W) (members : GetMembersResponse)
    (c1 : PD) (w1 : W) (addr : string) (addrs : list string)
    (errTSO : option error) (w2 : W) (c2 : PD) (w3 : W) :
  getMembers' c u w = (inl members, c1, w1) ->
  GetClusterId (Header members) = clusterID c ->
  GetClientUrls (Leader members) = addr :: addrs ->
  switchTSOAllocatorLeaders c1 (TsoAllocatorLeaders members) w1 = (errTSO, w2) ->
  updateURLs c1 (Members members) w2 = (c2, w3) ->
  exists e c' w',
    (forall rest', updateMemberLoop' all (u :: rest') c w = Returned (e, c', w'))
    /\ urls c' = sortStrings (flat_map ClientUrls (Members members))
    /\ followers c' = followersOf (Members members) (Leader members)
    /\ (addr = getLeaderAddr c ->
        e = errTSO /\ leader c' = leader c
        /\ clientConns c' = clientConns c1 /\ w' = w3)
    /\ (addr <> getLeaderAddr c ->
        match grpcGetOrCreateGRPCConn (clientConns c1) addr w3 with
        | (inl _, m, w4) =>
            e = errTSO /\ leader c' = Some addr /\ clientConns c' = m
            /\ w' = runCbs (leaderSwitchedCbs c)
                      (snd (switchTSOAllocatorLeader c globalDCLocation addr w4))
        | (inr err, m, w4) =>
            e = Some err /\ leader c' = leader c /\ clientConns c' = m
            /\ w' = w4
        end)
    /\ (leader c' = leader c \/ leader c' = Some addr)
    /\ (e = None -> getLeaderAddr c' = addr /\ errTSO = None).
Proof.
  intros Hg Hid Hl HT HU.
  destruct (getMembers_sameSetup _ _ _ _ _ _ Hg)
    as ((_ & Hc & Hcb1 & _ & Hcb2 & _) & _ & Hld & _).
  destruct (Leader members) as [l|] eqn:HL; [|discriminate].
  cbn [GetClientUrls] in Hl.
  pose proof (updateURLs_sameSetup c1 (Members members) w2)
    as ((_ & _ & Hcb3 & _ & Hcb4 & _) & Hl2 & Hm2 & Hu2).
  rewrite HU in Hl2, Hm2, Hu2, Hcb3, Hcb4. cbn [fst] in Hl2, Hm2, Hu2, Hcb3, Hcb4.
  set (c3 := updateFollowers c2 (Members members) (Some l)).
  assert (Hloop : forall rest',
            updateMemberLoop' all (u :: rest') c w
            = match switchLeader' c3 (addr :: addrs) w3 with
              | Panicked msg => Panicked msg
              | Returned (Some err, c4, w4) => Returned (Some err, c4, w4)
              | Returned (None, c4, w4) => Returned (errTSO, c4, w4)
              end).
  { intros rest'. cbn [updateMemberLoop].
    rewrite Hg, Hc, Hid, Z.eqb_refl. cbn [negb]. rewrite HT, HL, Hl, HU.
    cbn [GetClientUrls]. rewrite Hl. reflexivity. }
  rewrite switchLeader_exact in Hloop.
  assert (Ha3 : getLeaderAddr c3 = getLeaderAddr c).
  { unfold getLeaderAddr, c3. cbn [updateFollowers setFollowers leader].
    rewrite Hl2, Hld. reflexivity. }
  assert (Hm3 : clientConns c3 = clientConns c1) by exact Hm2.
  assert (Hld3 : leader c3 = leader c).
  { unfold c3. cbn [updateFollowers setFollowers leader]. congruence. }
  assert (Hs3 : leaderSwitchedCbs c3 = leaderSwitchedCbs c).
  { unfold c3. cbn [updateFollowers setFollowers leaderSwitchedCbs]. congruence. }
  assert (Ht3 : switchTSOAllocatorLeader c3 globalDCLocation addr
                = switchTSOAllocatorLeader c globalDCLocation addr).
  { unfold switchTSOAllocatorLeader, c3.
    cbn [updateFollowers setFollowers tsoAllocLeadersUpdatedCbs].
    rewrite Hcb4, Hcb2. reflexivity. }
  rewrite Ha3, Hm3, Hs3, Ht3 in Hloop.
  destruct (String.eqb addr (getLeaderAddr c)) eqn:E.
  - apply String.eqb_eq in E.
    exists errTSO, c3, w3. split; [exact Hloop|].
    split; [exact Hu2|]. split; [reflexivity|]. split; [auto|].
    split; [contradiction|]. split; [auto|].
    intros He. split; [congruence|exact He].
  - apply String.eqb_neq in E.
    destruct (grpcGetOrCreateGRPCConn (clientConns c1) addr w3)
      as [[[cc|err] m] w4].
    + eexists errTSO, _, _. split; [exact Hloop|].
      split; [exact Hu2|]. split; [reflexivity|]. split; [contradiction|].
      split; [cbn; auto|]. split; [right; reflexivity|].
      intros He. split; [reflexivity|exact He].
    + eexists (Some err), _, _. split; [exact Hloop|].
      split; [exact Hu2|]. split; [reflexivity|]. split; [contradiction|].
      split; [cbn; auto|]. split; [left; exact Hld3|].
      intros He. discriminate He.
Qed.

Lemma getMembers_leaderConnected (c : PD) url w r c1 w1 :
  (forall m a w0 k, is_Some (m !! k) ->
     is_Some (snd (fst (grpcGetOrCreateGRPCConn m a w0)) !! k)) ->
  getMembers' c url w = (r, c1, w1) ->
  leaderConnected c -> leaderConnected c1.
Proof.
  intros Hkeep H Hc. assert (Hconn : leader c1 = leader c /\
    clientConns c1 = snd (fst (grpcGetOrCreateGRPCConn (clientConns c) url w))).
  { revert H. unfold getMembers, GetOrCreateGRPCConn.
    destruct (grpcGetOrCreateGRPCConn (clientConns c) url w) as [[[cc|e] m] w0].
    - destruct (rpcGetMembers cc w0) as [[members|e] w2].
      + destruct (GetError (Header members)); intros H; inversion H; subst;
          cbn; auto.
      + intros H; inversion H; subst; cbn; auto.
    - intros H; inversion H; subst; cbn; auto. }
  destruct Hconn as [Hl Hm]. intros a Ha. rewrite Hm. apply Hkeep.
  apply Hc. rewrite <- Hl. exact Ha.
Qed.

Lemma switchLeader_leaderConnected (c : PD) addrs w e c' w' :
  (forall m a w0 k, is_Some (m !! k) ->
     is_Some (snd (fst (grpcGetOrCreateGRPCConn m a w0)) !! k)) ->
  (forall m a w0 cc, fst (fst (grpcGetOrCreateGRPCConn m a w0)) = inl cc ->
     snd (fst (grpcGetOrCreateGRPCConn m a w0)) !! a = Some cc) ->
  switchLeader' c addrs w = Returned (e, c', w') ->
  leaderConnected c -> leaderConnected c'.
Proof.
  intros Hkeep Hstore H Hc. destruct addrs as [|addr rest]; [discriminate|].
  cbn [switchLeader] in H. destruct (String.eqb addr (getLeaderAddr c)).
  - inversion H; subst. exact Hc.
  - unfold GetOrCreateGRPCConn in H.
    pose proof (Hkeep (clientConns c) addr w) as Hk.
    pose proof (Hstore (clientConns c) addr w) as Hs.
    destruct (grpcGetOrCreateGRPCConn (clientConns c) addr w)
      as [[[cc|err] m] w1]; cbn [fst snd] in Hk, Hs.
    + destruct (switchTSOAllocatorLeader _ _ _ _) as [eT w2].
      inversion H; subst. intros a Ha. cbn in Ha. injection Ha as <-.
      cbn. rewrite (Hs cc eq_refl). eauto.
    + inversion H; subst. intros a Ha. cbn in *. apply Hk, Hc, Ha.
Qed.

Lemma updateMemberLoop_leaderConnected (all us : list string) :
  (forall m a w0 k, is_Some (m !! k) ->
     is_Some (snd (fst (grpcGetOrCreateGRPCConn m a w0)) !! k)) ->
  (forall m a w0 cc, fst (fst (grpcGetOrCreateGRPCConn m a w0)) = inl cc ->
     snd (fst (grpcGetOrCreateGRPCConn m a w0)) !! a = Some cc) ->
  forall (c : PD) w e c' w',
  updateMemberLoop' all us c w = Returned (e, c', w') ->
  leaderConnected c -> leaderConnected c'.
Proof.
  intros Hkeep Hstore.
  induction us as [|u rest IH]; intros c w e c' w' H Hc.
  - inversion H; subst. exact Hc.
  - cbn [updateMemberLoop] in H.
    destruct (getMembers' c u w) as [[r c1] w1] eqn:Hg.
    pose proof (getMembers_leaderConnected _ _ _ _ _ _ Hkeep Hg Hc) as Hc1.
    destruct r as [members|err].
    + destruct (negb (GetClusterId (Header members) =? clusterID c1)).
      * destruct (ctxDone w1); [inversion H; subst; exact Hc1|].
        eapply IH; eassumption.
      * destruct (switchTSOAllocatorLeaders c1 _ w1) as [errTSO w2].
        assert (Hskip : (if ctxDone w2
                         then Returned
                                (Some (WithStack (ErrClientGetLeader
                                   "leader address don't exist")), c1, w2)
                         else updateMemberLoop' all rest c1 w2)
                        = Returned (e, c', w') -> leaderConnected c').
        { destruct (ctxDone w2); intros H'; [inversion H'; subst; exact Hc1|].
          eapply IH; eassumption. }
        destruct (Leader members) as [l|] eqn:HL; [|auto].
        destruct (ClientUrls l) as [|addr addrs] eqn:HU; [auto|]. clear Hskip.
        destruct (updateURLs c1 (Members members) w2) as [c2 w3] eqn:HUr.
        pose proof (updateURLs_sameSetup c1 (Members members) w2)
          as (_ & Hl2 & Hm2 & _).
        rewrite HUr in Hl2, Hm2. cbn [fst] in Hl2, Hm2.
        cbn [GetClientUrls] in H. rewrite HU in H.
        set (c3 := updateFollowers c2 (Members members) (Some l)) in H.
        assert (Hc3 : leaderConnected c3).
        { intros a Ha. cbn in Ha |- *. rewrite Hm2. apply Hc1.
          rewrite <- Hl2. exact Ha. }
        destruct (switchLeader' c3 (addr :: addrs) w3) as [[[e4 c4] w4]|] eqn:Hsw;
          [|discriminate].
        pose proof (switchLeader_leaderConnected _ _ _ _ _ _ Hkeep Hstore Hsw Hc3)
          as Hc4.
        destruct e4; inversion H; subst; exact Hc4.
    + destruct (ctxDone w1); [inversion H; subst; exact Hc1|].
      eapply IH; eassumption.
Qed.

(** X25: when dialing keeps the connections of the map and stores the
    one it returns, [updateMember] keeps the serving endpoint usable:
    if the leader the client knew had a connection, then after the
    call, whatever it returns, the leader it knows has one, and
    [GetServingEndpointClientConn] is not nil for it. *)
Theorem updateMember_leader_connected (c : PD) (w : W) e c' w' :
  (forall m a w0 k, is_Some (m !! k) ->
     is_Some (snd (fst (grpcGetOrCreateGRPCConn m a w0)) !! k)) ->
  (forall m a w0 cc, fst (fst (grpcGetOrCreateGRPCConn m a w0)) = inl cc ->
     snd (fst (grpcGetOrCreateGRPCConn m a w0)) !! a = Some cc) ->
  leaderConnected c ->
  updateMember' c w = Returned (e, c', w') ->
  leaderConnected c'
  /\ (leader c' = None \/ is_Some (GetServingEndpointClientConn c')).
Proof.
  intros Hkeep Hstore Hc H.
  pose proof (updateMemberLoop_leaderConnected _ _ Hkeep Hstore _ _ _ _ _ H Hc)
    as Hc'.
  split; [exact Hc'|]. destruct (leader c') as [a|] eqn:Ha; [right|by left].
  unfold GetServingEndpointClientConn, getLeaderAddr. rewrite Ha.
  apply Hc'. exact Ha.
Qed.

Lemma initClusterIDLoop_sameSetup (us : list string) :
  forall cid (c : PD) w,
  let out := initClusterIDLoop grpcGetOrCreateGRPCConn rpcGetMembers us cid c w in
  sameSetup c (snd (fst out))
  /\ forall id, fst (fst out) = inl id -> cid <> 0 -> id <> 0.
Proof.
  induction us as [|u rest IH]; intros cid c w; cbn [initClusterIDLoop].
  - cbn. split; [apply sameSetup_refl|]. intros id [= <-]. auto.
  - destruct (getMembers' c u w) as [[r c1] w1] eqn:Hg.
    destruct (getMembers_sameSetup _ _ _ _ _ _ Hg) as (H1 & _).
    assert (Hnext : forall cid',
      (cid <> 0 -> cid' <> 0) ->
      let out := initClusterIDLoop grpcGetOrCreateGRPCConn rpcGetMembers rest
                   cid' c1 w1 in
      sameSetup c (snd (fst out))
      /\ forall id, fst (fst out) = inl id -> cid <> 0 -> id <> 0).
    { intros cid' Hcid. destruct (IH cid' c1 w1) as [Ha Hb]. split.
      - eapply sameSetup_trans; eassumption.
      - intros id Hid Hn. eapply Hb; [exact Hid|auto]. }
    destruct r as [members|err]; [|apply Hnext; auto].
    destruct (Header members) as [h|]; [|apply Hnext; auto].
    destruct (cid =? 0) eqn:E.
    + apply Z.eqb_eq in E. apply Hnext. intros Hn. contradiction.
    + destruct (negb (ClusterId h =? cid)).
      * cbn. split; [exact H1|]. discriminate.
      * apply Hnext; auto.
Qed.

Lemma initClusterID_sets (c : PD) (w : W) :
  let out := initClusterID grpcGetOrCreateGRPCConn rpcGetMembers c w in
  isInitialized (snd (fst out)) = isInitialized c
  /\ (fst (fst out) = None -> clusterID (snd (fst out)) <> 0).
Proof.
  unfold initClusterID.
  pose proof (initClusterIDLoop_sameSetup (urls c) 0 c w) as [(Hi & _) _].
  destruct (initClusterIDLoop _ _ (urls c) 0 c w) as [[[id|err] c1] w1];
    cbn [fst snd] in *.
  - destruct (id =? 0) eqn:E; cbn; [split; [exact Hi|discriminate]|].
    apply Z.eqb_neq in E. auto.
  - split; [exact Hi|discriminate].
Qed.

Lemma initRetryLoop_inv (I Q : PD -> Prop)
    (f : PD -> W -> result (option error * PD * W)) :
  (forall c w, I c ->
     exists e c1 w1, f c w = Returned (e, c1, w1) /\ I c1 /\ (e = None -> Q c1)) ->
  forall n err c w, I c ->
  exists e c' w',
    initRetryLoop waitOrDone n f err c w = Returned (e, c', w')
    /\ I c' /\ (e = None -> Q c' \/ (n = O /\ err = None)).
Proof.
  intros Hf. induction n as [|n IH]; intros err c w Hc.
  - eexists _, _, _. split; [reflexivity|]. split; [exact Hc|].
    destruct err; [discriminate|]. auto.
  - cbn [initRetryLoop]. destruct (Hf c w Hc) as (e & c1 & w1 & -> & Hc1 & HQ).
    destruct e as [e0|].
    + destruct (waitOrDone time.Second w1) as [[|] w2].
      * eexists _, _, _. split; [reflexivity|]. split; [exact Hc1|discriminate].
      * destruct (IH (Some e0) c1 w2 Hc1) as (e & c' & w' & -> & Hc' & HQ').
        eexists _, _, _. split; [reflexivity|]. split; [exact Hc'|].
        intros He. destruct (HQ' He) as [H|[_ H]]; [by left|discriminate].
    + eexists _, _, _. split; [reflexivity|]. split; [exact Hc1|]. auto.
Qed.

Lemma Init_returns (maxRetryTimes : Z) (c : PD) (w : W) :
  exists e c' w' effects,
    Init grpcGetOrCreateGRPCConn rpcGetMembers ctxDone waitOrDone
      maxRetryTimes c w = Returned (e, c', w', effects)
    /\ (isInitialized c = true ->
        e = None /\ c' = c /\ w' = w /\ effects = [])
    /\ (isInitialized c = false ->
        match e with
        | Some _ => isInitialized c' = false /\ effects = [Cancel]
        | None =>
            isInitialized c' = true /\ effects = [GoMemberLoop]
            /\ (0 < maxRetryTimes -> clusterID c' <> 0)
            /\ (maxRetryTimes <= 0 -> c' = setInitialized c true /\ w' = w)
        end).
Proof.
  unfold Init. destruct (isInitialized c) eqn:Hi; cbn [negb].
  { eexists _, _, _, _. split; [reflexivity|]. split; [auto|discriminate]. }
  unfold initRetry. destruct (Z.to_nat maxRetryTimes) as [|n] eqn:En.
  { cbn. eexists _, _, _, _. split; [reflexivity|]. split; [discriminate|].
    intros _. repeat split; auto. lia. }
  destruct (initRetryLoop_inv (fun x => isInitialized x = false)
              (fun x => clusterID x <> 0)
              (fun c w => Returned
                 (initClusterID grpcGetOrCreateGRPCConn rpcGetMembers c w)))
    with (n := S n) (err := @None error) (c := c) (w := w)
    as (e1 & c1 & w1 & -> & Hi1 & HQ1).
  { intros x wx Hx. pose proof (initClusterID_sets x wx) as [Ha Hb].
    destruct (initClusterID _ _ x wx) as [[e x1] wx1]. cbn [fst snd] in *.
    eexists _, _, _. split; [reflexivity|]. split; [congruence|exact Hb]. }
  { exact Hi. }
  destruct e1 as [err|].
  { eexists _, _, _, _. split; [reflexivity|]. split; [discriminate|]. auto. }
  assert (Hid1 : clusterID c1 <> 0).
  { destruct (HQ1 eq_refl) as [H|[H _]]; [exact H|discriminate]. }
  destruct (initRetryLoop_inv (fun x => sameSetup c1 x) (fun _ => True)
              updateMember')
    with (n := S n) (err := @None error) (c := c1) (w := w1)
    as (e2 & c2 & w2 & -> & (Hi2 & Hid2 & _) & _).
  { intros x wx Hx.
    destruct (updateMemberLoop_returns (urls x) (urls x) x wx)
      as (e & x1 & wx1 & He & Hs).
    eexists _, _, _. split; [exact He|].
    split; [eapply sameSetup_trans; eassumption|auto]. }
  { apply sameSetup_refl. }
  destruct e2 as [err|].
  - eexists _, _, _, _. split; [reflexivity|]. split; [discriminate|].
    intros _. split; [congruence|reflexivity].
  - eexists _, _, _, _. split; [reflexivity|]. split; [discriminate|].
    intros _. repeat split; try reflexivity.
    + intros _. cbn. congruence.
    + lia.
    + lia.
Qed.

(** X26: [Init] never panics. On a client that is initialised it does
    nothing. Otherwise, when it returns an error the context has been
    cancelled, no member loop runs and the client is not initialised;
    when it returns nil the member loop has been started and the client
    is initialised, with a cluster id that is not zero if
    [maxRetryTimes] is positive. With [maxRetryTimes] zero or negative
    it returns nil without asking any server: the client is marked
    initialised and is otherwise as before, cluster id included. With
    [maxRetryTimes] positive, if [initClusterID] and then
    [updateMember] return nil at the first try, [Init] returns nil
    with the client they left, marked initialised; if [initClusterID]
    fails and the context is done during the wait, [Init] returns that
    error at once. *)
Theorem Init_outcome (maxRetryTimes : Z) (c : PD) (w : W) :
  exists e c' w' effects,
    Init grpcGetOrCreateGRPCConn rpcGetMembers ctxDone waitOrDone
      maxRetryTimes c w = Returned (e, c', w', effects)
    /\ (isInitialized c = true ->
        e = None /\ c' = c /\ w' = w /\ effects = [])
    /\ (isInitialized c = false ->
        match e with
        | Some _ => isInitialized c' = false /\ effects = [Cancel]
        | None =>
            isInitialized c' = true /\ effects = [GoMemberLoop]
            /\ (0 < maxRetryTimes -> clusterID c' <> 0)
            /\ (maxRetryTimes <= 0 -> c' = setInitialized c true /\ w' = w)
        end)
    /\ (isInitialized c = false -> maxRetryTimes <= 0 ->
        e = None /\ c' = setInitialized c true /\ w' = w
        /\ effects = [GoMemberLoop])
    /\ (isInitialized c = false -> 0 < maxRetryTimes ->
        forall c1 w1 c2 w2,
          initClusterID grpcGetOrCreateGRPCConn rpcGetMembers c w
          = (None, c1, w1) ->
          updateMember' c1 w1 = Returned (None, c2, w2) ->
          e = None /\ c' = setInitialized c2 true /\ w' = w2
          /\ effects = [GoMemberLoop])
    /\ (isInitialized c = false -> 0 < maxRetryTimes ->
        forall err c1 w1 w2,
          initClusterID grpcGetOrCreateGRPCConn rpcGetMembers c w
          = (Some err, c1, w1) ->
          waitOrDone time.Second w1 = (true, w2) ->
          e = Some err /\ c' = c1 /\ w' = w2 /\ effects = [Cancel]).
Proof.
  destruct (Init_returns maxRetryTimes c w)
    as (e & c' & w' & effects & Heq & HA & HB).
  exists e, c', w', effects. split; [exact Heq|]. split; [exact HA|].
  split; [exact HB|]. split; [|split].
  - intros Hi Hn. revert Heq. unfold Init, initRetry. rewrite Hi. cbn [negb].
    replace (Z.to_nat maxRetryTimes) with O by lia. cbn.
    intros [= <- <- <- <-]. auto.
  - intros Hi Hp c1 w1 c2 w2 H1 H2. revert Heq. unfold Init, initRetry.
    rewrite Hi. cbn [negb].
    destruct (Z.to_nat maxRetryTimes) as [|n] eqn:En; [lia|].
    cbn [initRetryLoop]. rewrite H1, H2.
    intros [= <- <- <- <-]. auto.
  - intros Hi Hp err c1 w1 w2 H1 H2. revert Heq. unfold Init, initRetry.
    rewrite Hi. cbn [negb].
    destruct (Z.to_nat maxRetryTimes) as [|n] eqn:En; [lia|].
    cbn [initRetryLoop]. rewrite H1, H2.
    intros [= <- <- <- <-]. auto.
Qed.

End DiscoveryMore.

Section DiscoveryMoreInstances.
Import pdpb pd_service_discovery pd_service_init DiscoveryExamples InitExamples.

Lemma updateURLs_order_blind_witness :
  updateURLs (pdClient 5) [mkMember "pd-1" 1 ["pd1"]; mkMember "pd-0" 0 ["pd0"]] tt
  = updateURLs (pdClient 5)
      [mkMember "pd-0" 0 ["pd0"]; mkMember "pd-1" 1 ["pd1"]] tt.
Proof.
  refine (proj1 (updateURLs_order_blind (pdClient 5)
            [mkMember "pd-1" 1 ["pd1"]; mkMember "pd-0" 0 ["pd0"]]
            [mkMember "pd-0" 0 ["pd0"]; mkMember "pd-1" 1 ["pd1"]] tt _)).
  apply perm_swap.
Defined.

Lemma updateMember_no_leader_witness :
  updateMemberLoop connect membersNoLeaderAt0 neverDone ["pd0"; "pd1"]
    ["pd0"; "pd1"] (pdClient 5) tt
  = updateMemberLoop connect membersNoLeaderAt0 neverDone ["pd0"; "pd1"] ["pd1"]
      (setConns (pdClient 5) {["pd0" := mkClientConn "pd0" false]}) tt.
Proof.
  refine (proj1 (updateMember_no_leader connect membersNoLeaderAt0 neverDone
            ["pd0"; "pd1"] "pd0" ["pd1"] (pdClient 5) tt replyNoLeader
            (setConns (pdClient 5) {["pd0" := mkClientConn "pd0" false]}) tt
            _ _ _)).
  - vm_compute. reflexivity.
  - reflexivity.
  - reflexivity.
Defined.

Lemma updateMember_usable_reply_witness :
  exists e c' w',
    (forall rest',
       updateMemberLoop connect (membersFrom 5) neverDone ["pd0"; "pd1"]
         ("pd0" :: rest') (pdClient 5) tt = Returned (e, c', w'))
    /\ urls c' = ["pd1"]
    /\ followers c' = []
    /\ e = None /\ leader c' = Some "pd1"
    /\ clientConns c' !! "pd1" = Some (mkClientConn "pd1" false).
Proof.
  destruct (updateMember_usable_reply connect (membersFrom 5) neverDone
              ["pd0"; "pd1"] "pd0" [] (pdClient 5) tt (replyOf 5)
              (setConns (pdClient 5) {["pd0" := mkClientConn "pd0" false]}) tt
              "pd1" [] None tt
              (setURLs (setConns (pdClient 5)
                          {["pd0" := mkClientConn "pd0" false]}) ["pd1"]) tt)
    as (e & c' & w' & Hloop & Hu & Hf & _ & Hd & _).
  - vm_compute. reflexivity.
  - reflexivity.
  - reflexivity.
  - vm_compute. reflexivity.
  - vm_compute. reflexivity.
  - exists e, c', w'. split; [exact Hloop|]. split; [exact Hu|].
    split; [exact Hf|].
    assert (Hne : "pd1" <> getLeaderAddr (pdClient 5)) by discriminate.
    destruct (Hd Hne) as (He & Hl & Hm & _).
    split; [exact He|]. split; [exact Hl|]. rewrite Hm. reflexivity.
Defined.

Lemma connect_keeps m a (w0 : unit) k :
  is_Some (m !! k) -> is_Some (snd (fst (connect m a w0)) !! k).
Proof.
  intros H. cbn. destruct (decide (a = k)) as [->|Hn].
  - rewrite lookup_insert_eq. eauto.
  - rewrite lookup_insert_ne by exact Hn. exact H.
Qed.

Lemma connect_stores m a (w0 : unit) cc :
  fst (fst (connect m a w0)) = inl cc ->
  snd (fst (connect m a w0)) !! a = Some cc.
Proof. cbn. intros [= <-]. apply lookup_insert_eq. Qed.

Lemma updateMember_leader_connected_witness :
  match updateMember connect (membersFrom 5) neverDone (pdClient 5) tt with
  | Returned (_, c', _) =>
      leaderConnected c'
      /\ (leader c' = None \/ is_Some (GetServingEndpointClientConn c'))
  | Panicked _ => False
  end.
Proof.
  destruct (updateMemberLoop_returns connect (membersFrom 5) neverDone
              ["pd0"; "pd1"] ["pd0"; "pd1"] (pdClient 5) tt)
    as (e & c' & w' & H & _).
  change (updateMemberLoop connect (membersFrom 5) neverDone ["pd0"; "pd1"]
            ["pd0"; "pd1"] (pdClient 5) tt)
    with (updateMember connect (membersFrom 5) neverDone (pdClient 5) tt) in H.
  rewrite H.
  apply (updateMember_leader_connected connect (membersFrom 5) neverDone
           (pdClient 5) tt e c' w' connect_keeps connect_stores).
  - intros a Ha. discriminate Ha.
  - exact H.
Defined.

End DiscoveryMoreInstances.
